(** * lan-web-cctv: the signalling server, its media registry and its recorder

    A shallow embedding of [server/websocket.js], [server/mediasoup.js],
    [server/recorder.js] and the recordings query of [server/index.js].  The
    JavaScript modules keep their state in module-level [Map]s, a [Set] and
    two variables; here each module is a record of that state and every
    function passes it explicitly.  What the
    functions do to the outside world (frames written to a socket, [close()]
    calls on engine objects, the encoder process, timers, files) is returned
    as a chronological log of [Action]s.  What the media engine, the file
    system, the clock and the encoder answer is an input of the handler
    that asks.

    The handlers of [register], [pan-zoom], [get-streamers],
    [get-producers] and [stop-streaming], the close handler and the
    callbacks of the engine have no [await]: they run from start to end
    with nothing in between, here as in the program.  The other handlers
    wait for the engine, and [produce] for one second while the encoder
    starts; a sequence of events, [run_from], takes each of them as one
    step too, so it describes the runs in which nothing else is handled
    while a handler waits.  What is proved of a handler for every state
    holds in whatever state an interleaving leaves. *)

From stdpp Require Import base strings list gmap pretty.
From Stdlib Require Import ZArith Lia Ascii.

Local Open Scope string_scope.
Local Open Scope Z_scope.
Local Open Scope list_scope.

(** ** JavaScript [Map]: keyed by strings, iterated in insertion order *)

Section JsMap.
Context {V : Type}.

Definition JsMap := list (string * V).

(** [m.get(k)] *)
Fixpoint jm_get (k : string) (m : list (string * V)) : option V :=
  match m with
  | [] => None
  | (k', v) :: m' => if decide (k' = k) then Some v else jm_get k m'
  end.

(** [m.has(k)] *)
Definition jm_has (k : string) (m : list (string * V)) : bool :=
  match jm_get k m with Some _ => true | None => false end.

(** [m.set(k, v)]: an existing key keeps its place, a new one goes last. *)
Fixpoint jm_set (k : string) (v : V) (m : list (string * V)) : list (string * V) :=
  match m with
  | [] => [(k, v)]
  | (k', v') :: m' =>
      if decide (k' = k) then (k, v) :: m' else (k', v') :: jm_set k v m'
  end.

(** [m.delete(k)] *)
Fixpoint jm_delete (k : string) (m : list (string * V)) : list (string * V) :=
  match m with
  | [] => []
  | (k', v') :: m' =>
      if decide (k' = k) then jm_delete k m' else (k', v') :: jm_delete k m'
  end.

(** [Array.from(m.keys())] *)
Definition jm_keys (m : list (string * V)) : list string := m.*1.

End JsMap.

Arguments JsMap : clear implicits.

(** ** JavaScript strings: the methods the server calls *)

(** A value used as a condition: [undefined], [null] and the empty string
    count as false. *)
Definition truthy (v : option string) : bool :=
  match v with
  | Some s => negb (bool_decide (s = ""))
  | None => false
  end.

(** [a || b] *)
Definition or_else (a b : option string) : option string :=
  if truthy a then a else b.

(** [s.startsWith(p)] *)
Definition startsWith (p s : string) : bool := String.prefix p s.

(** [s.includes(needle)] *)
Fixpoint includes (needle s : string) : bool :=
  String.prefix needle s ||
  match s with
  | EmptyString => false
  | String _ s' => includes needle s'
  end.

(** [s.endsWith(suffix)] *)
Fixpoint endsWith (suffix s : string) : bool :=
  bool_decide (s = suffix) ||
  match s with
  | EmptyString => false
  | String _ s' => endsWith suffix s'
  end.

(** [s.split(sep)] for a separator of one character: the pieces between
    the separators, at least one. *)
Fixpoint split_on (sep : ascii) (s : string) : list string :=
  match s with
  | EmptyString => [EmptyString]
  | String c s' =>
      if decide (c = sep) then EmptyString :: split_on sep s'
      else match split_on sep s' with
           | piece :: pieces => String c piece :: pieces
           | [] => [String c EmptyString]
           end
  end.

Fixpoint drop_chars (n : nat) (s : string) : string :=
  match n, s with
  | O, _ => s
  | S n', EmptyString => EmptyString
  | S n', String _ s' => drop_chars n' s'
  end.

(** [s.replace(pattern, replacement)] for a string pattern: only the first
    occurrence is replaced. *)
Fixpoint replace_first (pattern replacement s : string) : string :=
  if String.prefix pattern s then
    replacement +:+ drop_chars (String.length pattern) s
  else
    match s with
    | EmptyString => EmptyString
    | String c s' => String c (replace_first pattern replacement s')
    end.

Fixpoint map_string (f : ascii → ascii) (s : string) : string :=
  match s with
  | EmptyString => EmptyString
  | String c s' => String (f c) (map_string f s')
  end.

(** [s.toLowerCase()] on the letters [A] to [Z]; this is also how a
    regular expression with the flag [i] compares a character with an
    ASCII letter. *)
Definition toLowerCase (s : string) : string :=
  map_string (λ c, let n := nat_of_ascii c in
                   if ((65 <=? n) && (n <=? 90))%nat then ascii_of_nat (n + 32) else c) s.

(** The characters of a string. *)
Fixpoint chars (s : string) : list ascii :=
  match s with
  | EmptyString => []
  | String c s' => c :: chars s'
  end.

(** ** Values, frames and the log of outside effects *)

(** Numbers and parameter objects that the server only passes on are kept
    as their JSON text. *)
Definition JsValue := string.

(** [ws.readyState] *)
Inductive ReadyState := CONNECTING | OPEN | CLOSING | CLOSED.

Global Instance ReadyState_eq_dec : EqDecision ReadyState.
Proof. solve_decision. Defined.

(** [{ id, kind }], an element of [getProducersByClient]'s result. *)
Record ProducerRef := { ref_id : string; ref_kind : string }.

(** [{ id, clientId, deviceName, kind }], an element of [getProducers]'s result. *)
Record ProducerInfo := {
  info_id : string;
  info_clientId : string;
  info_deviceName : option string;
  info_kind : string
}.

(** [{ clientId, deviceName, producers }], an element of a [streamer-list]. *)
Record StreamerEntry := {
  entry_clientId : string;
  entry_deviceName : string;
  entry_producers : list ProducerRef
}.

(** The payload object of every outbound message type. *)
Inductive Payload :=
| PWelcome (clientId : string)
| PError (message : string)
| PRegistered (role : option string) (deviceName : string)
| PStreamerJoined (clientId deviceName : string)
| PStreamerLeft (clientId : string) (deviceName : option string)
| PStreamerList (streamers : list StreamerEntry)
| PTransportCreated (direction : option string) (id : string)
| PTransportConnected (transportId : string)
| PNewProducer (producerId clientId : string) (deviceName : option string) (kind : string)
| PProduced (id kind : string)
| PConsumed (id producerId : string)
| PConsumerResumed (consumerId : string)
| PPanZoomCommand (zoom panX panY : option JsValue)
| PProducerList (producers : list ProducerInfo)
| PStreamingStopped (success : bool).

(** What a function does to the world outside the modules' state, in the
    order it happens. *)
Inductive Action :=
(* [ws.send(JSON.stringify({ type, payload }))] on the socket of client [to] *)
| WsSend (to : string) (type : string) (payload : Payload)
(* calls into the media engine *)
| CreateWebRtcTransport (id clientId : string)
| TransportConnect (id : string)
| TransportProduce (transportId id : string)
| TransportConsume (transportId producerId id : string)
| ConsumerResume (id : string)
| ProducerClose (id : string)
| ConsumerClose (id : string)
| TransportClose (id : string)
(* the recorder: capture transport, files, encoder process, timers *)
| Mkdir (dir : string)
| CreatePlainTransport (id : string)
| PlainConsume (transport producerId consumer : string)
| PlainConnect (transport : string) (port rtcpPort : Z)
| WriteFile (path content : string)
| SpawnFfmpeg (process sdpPath filepath : string)
| Sleep (ms : Z)
| RecordingConsumerResume (consumer : string)
| RecordingConsumerClose (consumer : string)
| SetTimeoutShutdown (ms : Z) (process plainTransport sdpPath : string).

(** The frames of a log that were written to the socket of client [to] with
    message type [type]. *)
Definition sent_to (to type : string) (log : list Action) : list Payload :=
  omap (λ a, match a with
             | WsSend to' type' p =>
                 if decide (to' = to ∧ type' = type) then Some p else None
             | _ => None
             end) log.

(** Every frame of a log, with its recipient and type. *)
Definition frames (log : list Action) : list (string * string * Payload) :=
  omap (λ a, match a with WsSend to type p => Some (to, type, p) | _ => None end) log.

(** ** Functions that change state, log effects and may throw *)

Inductive Completion (A : Type) :=
| Normal (a : A)
| Throw (message : string).
Arguments Normal {A} a.
Arguments Throw {A} message.

Record Outcome (S A : Type) := mkOutcome {
  state : S;
  log : list Action;
  completion : Completion A
}.
Arguments mkOutcome {S A}.
Arguments state {S A}.
Arguments log {S A}.
Arguments completion {S A}.

Definition M (S A : Type) := S → Outcome S A.

Definition ret {S A} (a : A) : M S A := λ s, mkOutcome s [] (Normal a).

Definition throw {S A} (message : string) : M S A := λ s, mkOutcome s [] (Throw message).

Definition bind {S A B} (m : M S A) (f : A → M S B) : M S B := λ s,
  match m s with
  | mkOutcome s1 l1 (Normal a) =>
      match f a s1 with
      | mkOutcome s2 l2 c => mkOutcome s2 (l1 ++ l2) c
      end
  | mkOutcome s1 l1 (Throw e) => mkOutcome s1 l1 (Throw e)
  end.

Definition get_state {S} : M S S := λ s, mkOutcome s [] (Normal s).

Definition modify {S} (f : S → S) : M S unit := λ s, mkOutcome (f s) [] (Normal ()).

Definition emit {S} (a : Action) : M S unit := λ s, mkOutcome s [a] (Normal ()).

(** [try { m } catch (error) { h(error.message) }] *)
Definition try_catch {S A} (m : M S A) (h : string → M S A) : M S A := λ s,
  match m s with
  | mkOutcome s1 l1 (Normal a) => mkOutcome s1 l1 (Normal a)
  | mkOutcome s1 l1 (Throw e) =>
      match h e s1 with
      | mkOutcome s2 l2 c => mkOutcome s2 (l1 ++ l2) c
      end
  end.

(** Run a function of one module on its part of a larger state. *)
Definition zoom {S T A} (proj : S → T) (upd : T → S → S) (m : M T A) : M S A := λ s,
  match m (proj s) with
  | mkOutcome t l c => mkOutcome (upd t s) l c
  end.

Notation "'do' x <- m ; k" := (bind m (λ x, k))
  (at level 10, x name, m at level 100, k at level 200,
   format "'[v' 'do'  x  <-  m ; '/' k ']'").
Notation "'exec' m ; k" := (bind m (λ _, k))
  (at level 10, m at level 100, k at level 200,
   format "'[v' 'exec'  m ; '/' k ']'").

(** [for (const x of l) body(x)] *)
Fixpoint for_each {S A} (l : list A) (body : A → M S unit) : M S unit :=
  match l with
  | [] => ret ()
  | x :: rest => exec body x; for_each rest body
  end.

(** An [await]ed engine call: it resolves, or rejects with a message. *)
Definition await {S A} (answer : Completion A) (done : A → Action) : M S A :=
  match answer with
  | Normal a => exec emit (done a); ret a
  | Throw e => throw e
  end.

(** ** [server/config.js]: the addresses of the machine *)

Module Config.

(** One address of a network interface, as [os.networkInterfaces()] lists it. *)
Record Iface := { family : string; internal : bool; address : string }.

(** [{ name, address }] *)
Record LocalIP := { ip_name : string; ip_address : string }.

(** [getLocalIPs()].  [interfaces] is what [os.networkInterfaces()] returns,
    the names in the order of [Object.keys], or the message of what is
    thrown while it is read. *)
Definition getLocalIPs (interfaces : Completion (list (string * list Iface)))
    : list LocalIP :=
  match interfaces with
  | Normal interfaces =>
      flat_map (λ '(name, addresses),
                  map (λ iface, {| ip_name := name; ip_address := address iface |})
                      (filter (λ iface, family iface = "IPv4" ∧ internal iface = false)
                              addresses))
               interfaces
  | Throw _ => []
  end.

(** [{ ip, announcedIp }], an element of [mediasoup.webRtcTransport.listenIps]. *)
Record ListenIp := { ip : string; announcedIp : option string }.

(** [mediasoup.webRtcTransport.listenIps] as the file sets it. *)
Definition listenIps : list ListenIp :=
  [{| ip := "0.0.0.0"; announcedIp := None |}].

End Config.

(** ** [server/mediasoup.js]: the registry of transports, producers and consumers *)

Module Mediasoup.

(** [{ transport, clientId }] *)
Record TransportData := { transport : string; t_clientId : string }.

(** [{ producer, clientId, deviceName, kind }] *)
Record ProducerData := {
  producer : string;
  p_clientId : string;
  p_deviceName : option string;
  p_kind : string
}.

(** [{ consumer, clientId, producerId }] *)
Record ConsumerData := { consumer : string; c_clientId : string; c_producerId : string }.

(** [const transports = new Map(); const producers = new Map();
    const consumers = new Map();] *)
Record State := {
  transports : JsMap TransportData;
  producers : JsMap ProducerData;
  consumers : JsMap ConsumerData
}.

Definition initial : State := {| transports := []; producers := []; consumers := [] |}.

Definition set_transports (f : JsMap TransportData → JsMap TransportData) (s : State) :=
  {| transports := f (transports s); producers := producers s; consumers := consumers s |}.
Definition set_producers (f : JsMap ProducerData → JsMap ProducerData) (s : State) :=
  {| transports := transports s; producers := f (producers s); consumers := consumers s |}.
Definition set_consumers (f : JsMap ConsumerData → JsMap ConsumerData) (s : State) :=
  {| transports := transports s; producers := producers s; consumers := f (consumers s) |}.

(** What the engine answers during one call: [answer] is the outcome of the
    awaited engine method (the id of the object it creates, or a rejection),
    [canConsume] the value of [router.canConsume]. *)
Record Engine := { answer : Completion string; canConsume : bool }.

Definition createWebRtcTransport (clientId : string) (e : Engine) : M State string :=
  do id <- await (answer e) (λ id, CreateWebRtcTransport id clientId);
  exec modify (set_transports (jm_set id {| transport := id; t_clientId := clientId |}));
  ret id.

Definition connectTransport (transportId : string) (e : Engine) : M State unit :=
  do s <- get_state;
  match jm_get transportId (transports s) with
  | None => throw ("Transport " +:+ transportId +:+ " not found")
  | Some transportData =>
      exec await (answer e) (λ _, TransportConnect transportId);
      ret ()
  end.

Definition createProducer (transportId kind clientId : string)
    (deviceName : option string) (e : Engine) : M State string :=
  do s <- get_state;
  match jm_get transportId (transports s) with
  | None => throw ("Transport " +:+ transportId +:+ " not found")
  | Some transportData =>
      do id <- await (answer e) (TransportProduce transportId);
      exec modify (set_producers (jm_set id
             {| producer := id; p_clientId := clientId;
                p_deviceName := deviceName; p_kind := kind |}));
      ret id
  end.

Definition createConsumer (transportId producerId clientId : string)
    (e : Engine) : M State Payload :=
  do s <- get_state;
  match jm_get transportId (transports s) with
  | None => throw ("Transport " +:+ transportId +:+ " not found")
  | Some transportData =>
      match jm_get producerId (producers s) with
      | None => throw ("Producer " +:+ producerId +:+ " not found")
      | Some producerData =>
          if negb (canConsume e) then
            throw ("Cannot consume producer " +:+ producerId)
          else
            do id <- await (answer e) (TransportConsume transportId producerId);
            exec modify (set_consumers (jm_set id
                   {| consumer := id; c_clientId := clientId;
                      c_producerId := producerId |}));
            ret (PConsumed id producerId)
      end
  end.

Definition resumeConsumer (consumerId : string) (e : Engine) : M State unit :=
  do s <- get_state;
  match jm_get consumerId (consumers s) with
  | None => throw ("Consumer " +:+ consumerId +:+ " not found")
  | Some consumerData =>
      exec await (answer e) (λ _, ConsumerResume consumerId);
      ret ()
  end.

Definition getProducers (s : State) : list ProducerInfo :=
  map (λ '(id, data), {| info_id := id; info_clientId := p_clientId data;
                         info_deviceName := p_deviceName data;
                         info_kind := p_kind data |})
      (producers s).

Definition getProducersByClient (clientId : string) (s : State) : list ProducerRef :=
  map (λ '(id, data), {| ref_id := id; ref_kind := p_kind data |})
      (filter (λ e, p_clientId e.2 = clientId) (producers s)).

(** One loop of [cleanupClient]:
    [for (const [id, data] of m.entries())
       if (data.clientId === clientId) { data.x.close(); m.delete(id); }]
    [entries] is what is left to visit, [m] the map as it stands. *)
Fixpoint close_owned {D} (owner : D → string) (close : string → Action)
    (clientId : string) (entries : list (string * D)) (m : JsMap D)
    : JsMap D * list Action :=
  match entries with
  | [] => (m, [])
  | (id, data) :: rest =>
      if decide (owner data = clientId) then
        let r := close_owned owner close clientId rest (jm_delete id m) in
        (r.1, close id :: r.2)
      else close_owned owner close clientId rest m
  end.

Definition cleanupClient (clientId : string) : M State unit := λ s,
  let ps := close_owned p_clientId ProducerClose clientId (producers s) (producers s) in
  let cs := close_owned c_clientId ConsumerClose clientId (consumers s) (consumers s) in
  let ts := close_owned t_clientId TransportClose clientId (transports s) (transports s) in
  mkOutcome {| transports := ts.1; producers := ps.1; consumers := cs.1 |}
            (ps.2 ++ cs.2 ++ ts.2) (Normal ()).

(** The handlers the module registers on engine objects.  The engine runs
    them when it reports that an object is gone; each one drops the entry
    of that object. *)
Inductive EngineEvent :=
| TransportClosed (id : string)      (* transport.on('close') *)
| ProducerGone (id : string)         (* producer.on('transportclose'), producer.on('close') *)
| ConsumerGone (id : string).        (* consumer.on('transportclose' | 'producerclose' | 'close') *)

Definition onEngineEvent (ev : EngineEvent) (s : State) : State :=
  match ev with
  | TransportClosed id => set_transports (jm_delete id) s
  | ProducerGone id => set_producers (jm_delete id) s
  | ConsumerGone id => set_consumers (jm_delete id) s
  end.

(** The [listenIps] that [createWebRtcTransport] hands to the router:
    [configured] is [config.mediasoup.webRtcTransport.listenIps],
    [announcedIp] the second argument of the function, [localIPs] what
    [config.getLocalIPs()] returns.  Reading [listenIps[0].announcedIp] of
    an empty array throws. *)
Definition listenIps (configured : list Config.ListenIp) (announcedIp : option string)
    (localIPs : list Config.LocalIP) : Completion (list Config.ListenIp) :=
  let detectedIp :=
    or_else announcedIp
      (or_else (Config.ip_address <$> head localIPs) (Some "127.0.0.1")) in
  let detected := [{| Config.ip := "0.0.0.0"; Config.announcedIp := detectedIp |}] in
  if truthy announcedIp then Normal detected
  else
    match configured with
    | first :: _ =>
        if negb (truthy (Config.announcedIp first)) then Normal detected
        else Normal configured
    | [] => Throw "Cannot read properties of undefined (reading 'announcedIp')"
    end.

Definition closeProducer (producerId : string) : M State unit :=
  do s <- get_state;
  match jm_get producerId (producers s) with
  | Some producerData =>
      exec emit (ProducerClose (producer producerData));
      modify (set_producers (jm_delete producerId))
  | None => ret ()
  end.

Definition closeTransport (transportId : string) : M State unit :=
  do s <- get_state;
  match jm_get transportId (transports s) with
  | Some transportData =>
      exec emit (TransportClose (transport transportData));
      modify (set_transports (jm_delete transportId))
  | None => ret ()
  end.

(** [{ transport, producer, deviceName, clientId }] *)
Record PlainRtp := {
  plain_transport : string;
  plain_producer : string;
  plain_deviceName : option string;
  plain_clientId : string
}.

Definition createPlainRtpTransport (producerId : string) (e : Engine) : M State PlainRtp :=
  do s <- get_state;
  match jm_get producerId (producers s) with
  | None => throw ("Producer " +:+ producerId +:+ " not found")
  | Some producerData =>
      do transport <- await (answer e) CreatePlainTransport;
      ret {| plain_transport := transport;
             plain_producer := producer producerData;
             plain_deviceName := p_deviceName producerData;
             plain_clientId := p_clientId producerData |}
  end.

End Mediasoup.

(** ** [server/recorder.js]: one encoder process per recorded producer *)

Module Recorder.

(** The value stored in [recordings] for a producer id.  Engine objects and
    the child process are named by a handle. *)
Record Recording := {
  plainTransport : string;
  consumer : string;
  ffmpeg : string;
  filepath : string;
  sdpPath : string;
  deviceName : option string;
  rtpPort : Z;
  startTime : Z
}.

(** [const recordings = new Map(); let nextRtpPort = 20000;
    let ffmpegAvailable = false;] *)
Record State := {
  recordings : JsMap Recording;
  nextRtpPort : Z;
  ffmpegAvailable : bool
}.

(** The module after it is loaded: [ffmpegAvailable] is [true] when
    [execSync('ffmpeg -version')] did not throw. *)
Definition initial (ffmpegFound : bool) : State :=
  {| recordings := []; nextRtpPort := 20000; ffmpegAvailable := ffmpegFound |}.

Definition set_recordings (f : JsMap Recording → JsMap Recording) (s : State) :=
  {| recordings := f (recordings s); nextRtpPort := nextRtpPort s;
     ffmpegAvailable := ffmpegAvailable s |}.

Definition getNextPort : M State Z := λ s,
  let port := nextRtpPort s in
  let next := nextRtpPort s + 2 in
  let next := if 30000 <? next then 20000 else next in
  mkOutcome {| recordings := recordings s; nextRtpPort := next;
               ffmpegAvailable := ffmpegAvailable s |} [] (Normal port).

(** The awaited or throwing calls of [startRecording], in source order. *)
Inductive Step :=
| AtMkdir | AtCreatePlainTransport | AtConsume | AtConnect | AtWriteSdp | AtResume.

Global Instance Step_eq_dec : EqDecision Step.
Proof. solve_decision. Defined.

(** What [startRecording] finds outside the module during one call. *)
Record Env := {
  recordingsDir : string;             (* path.resolve(config.recording.directory) *)
  dirExists : bool;                   (* fs.existsSync(recordingsDir) *)
  failsAt : option (Step * string);   (* the call that throws, and its message *)
  isoNow : string;                    (* new Date().toISOString() *)
  now : Z;                            (* new Date(), in milliseconds *)
  newTransport : string;              (* the capture transport the router creates *)
  newConsumer : string;               (* the consumer created on it *)
  newProcess : string;                (* the spawned encoder *)
  codecName : string;
  payloadType : string;
  clockRate : string;
  ssrc : string
}.

Definition step (env : Env) (at_ : Step) (a : Action) : M State unit :=
  match failsAt env with
  | Some (at', message) => if decide (at' = at_) then throw message else emit a
  | None => emit a
  end.

Definition is_word_char (c : ascii) : bool :=
  let n := nat_of_ascii c in
  ((97 <=? n) && (n <=? 122) || (65 <=? n) && (n <=? 90)
   || (48 <=? n) && (n <=? 57) || (n =? 45) || (n =? 95))%nat.

Fixpoint map_chars (f : ascii → ascii) (s : string) : string :=
  match s with
  | EmptyString => EmptyString
  | String c s' => String (f c) (map_chars f s')
  end.

(** [(deviceName || 'unknown').replace(/[^a-zA-Z0-9-_]/g, '_')] *)
Definition safeDeviceName (deviceName : option string) : string :=
  let name := match deviceName with
              | Some n => if decide (n = "") then "unknown" else n
              | None => "unknown"
              end in
  map_chars (λ c, if is_word_char c then c else "_"%char) name.

(** [new Date().toISOString().replace(/[:.]/g, '-')] *)
Definition timestamp (iso : string) : string :=
  map_chars (λ c, if decide (c = ":"%char ∨ c = "."%char) then "-"%char else c) iso.

(** [path.join(dir, name)] for a plain file name. *)
Definition path_join (dir name : string) : string := dir +:+ "/" +:+ name.

Definition show_port (p : Z) : string := pretty p.

Definition newline : string := String (ascii_of_nat 10) "".

Definition sdpContent (env : Env) (rtpPort : Z) : string :=
  "v=0" +:+ newline +:+
  "o=- 0 0 IN IP4 127.0.0.1" +:+ newline +:+
  "s=MediaSoup Recording" +:+ newline +:+
  "c=IN IP4 127.0.0.1" +:+ newline +:+
  "t=0 0" +:+ newline +:+
  "m=video " +:+ show_port rtpPort +:+ " RTP/AVP " +:+ payloadType env +:+ newline +:+
  "a=rtpmap:" +:+ payloadType env +:+ " " +:+ codecName env +:+ "/" +:+ clockRate env
    +:+ newline +:+
  "a=ssrc:" +:+ ssrc env +:+ " cname:mediasoup" +:+ newline +:+
  "a=recvonly" +:+ newline.

(** [{ filepath, filename }] *)
Record Started := { started_filepath : string; started_filename : string }.

Definition startRecording (producerId : string) (deviceName : option string)
    (env : Env) (mediasoup : Mediasoup.State) : M State (option Started) :=
  do s <- get_state;
  if negb (ffmpegAvailable s) then ret None
  else
    exec (if dirExists env then ret ()
         else step env AtMkdir (Mkdir (recordingsDir env)));
    try_catch
      (match jm_get producerId (Mediasoup.producers mediasoup) with
       | None => ret None
       | Some producerData =>
           do rtpPort <- getNextPort;
           let rtcpPort := rtpPort + 1 in
           let filename :=
             safeDeviceName deviceName +:+ "_" +:+ timestamp (isoNow env) +:+ ".mkv" in
           let filepath := path_join (recordingsDir env) filename in
           exec step env AtCreatePlainTransport (CreatePlainTransport (newTransport env));
           exec step env AtConsume
                (PlainConsume (newTransport env) (Mediasoup.producer producerData)
                              (newConsumer env));
           exec step env AtConnect (PlainConnect (newTransport env) rtpPort rtcpPort);
           let sdpPath := path_join (recordingsDir env) (producerId +:+ ".sdp") in
           exec step env AtWriteSdp (WriteFile sdpPath (sdpContent env rtpPort));
           exec emit (SpawnFfmpeg (newProcess env) sdpPath filepath);
           exec emit (Sleep 1000);
           exec step env AtResume (RecordingConsumerResume (newConsumer env));
           exec modify (set_recordings (jm_set producerId
                  {| plainTransport := newTransport env;
                     consumer := newConsumer env;
                     ffmpeg := newProcess env;
                     filepath := filepath;
                     sdpPath := sdpPath;
                     deviceName := deviceName;
                     rtpPort := rtpPort;
                     startTime := now env |}));
           ret (Some {| started_filepath := filepath; started_filename := filename |})
       end)
      (λ _, ret None).

(** What [stopRecording] finds outside the module: the clock, and whether
    the engine has already closed the recording's consumer. *)
Record StopEnv := { stop_now : Z; consumerClosed : bool }.

(** [{ filepath, duration, deviceName }] *)
Record Stopped := {
  stopped_filepath : string;
  stopped_duration : Z;
  stopped_deviceName : option string
}.

(** [Math.round(ms / 1000)] for an integer [ms]. *)
Definition round_seconds (ms : Z) : Z := (ms + 500) `div` 1000.

Definition stopRecording (producerId : string) (env : StopEnv) : M State (option Stopped) :=
  do s <- get_state;
  match jm_get producerId (recordings s) with
  | Some recording =>
      exec (if negb (consumerClosed env)
           then emit (RecordingConsumerClose (consumer recording)) else ret ());
      exec emit (SetTimeoutShutdown 500 (ffmpeg recording) (plainTransport recording)
                                   (sdpPath recording));
      exec modify (set_recordings (jm_delete producerId));
      let duration := round_seconds (stop_now env - startTime recording) in
      ret (Some {| stopped_filepath := filepath recording;
                   stopped_duration := duration;
                   stopped_deviceName := deviceName recording |})
  | None => ret None
  end.

Definition stopAllRecordings (env : string → StopEnv) : M State unit :=
  do s <- get_state;
  for_each (jm_keys (recordings s))
           (λ producerId, exec stopRecording producerId (env producerId); ret ()).

(** An element of [getActiveRecordings]'s result. *)
Record Active := {
  active_producerId : string;
  active_deviceName : option string;
  active_filepath : string;
  active_startTime : Z;
  active_duration : Z
}.

Definition getActiveRecordings (now : Z) (s : State) : list Active :=
  map (λ '(producerId, rec),
         {| active_producerId := producerId;
            active_deviceName := deviceName rec;
            active_filepath := filepath rec;
            active_startTime := startTime rec;
            active_duration := now - startTime rec |})
      (recordings s).

Definition isRecordingEnabled (s : State) : bool := ffmpegAvailable s.

End Recorder.

(** ** [server/index.js]: the recordings query *)

Module Index.

(** [{ name, size, created, modified }] *)
Record FileInfo := {
  file_name : string;
  file_size : Z;
  file_created : Z;
  file_modified : Z
}.

(** The object handed to [res.json]; [active] and [error] are the fields
    that only some of the three replies have. *)
Record Reply := {
  recordings : list FileInfo;
  enabled : bool;
  active : option (list Recorder.Active);
  error : option string
}.

(** [app.get('/api/recordings', ...)].  [dirExists] is
    [fs.existsSync(recordingsDir)]; [listing] is what reading, filtering and
    sorting the directory gives, or the message of what it throws. *)
Definition getRecordings (dirExists : bool) (listing : Completion (list FileInfo))
    (now : Z) (recorder : Recorder.State) : Reply :=
  if negb dirExists then
    {| recordings := []; enabled := false; active := None; error := None |}
  else
    match listing with
    | Normal files =>
        {| recordings := files;
           enabled := Recorder.isRecordingEnabled recorder;
           active := Some (Recorder.getActiveRecordings now recorder);
           error := None |}
    | Throw e =>
        {| recordings := []; enabled := false; active := None; error := Some e |}
    end.

(** What [fs.statSync] tells about a file; times in milliseconds. *)
Record Stats := { size : Z; birthtime : Z; mtime : Z }.

(** [f.endsWith('.mp4') || f.endsWith('.webm') || f.endsWith('.mkv')] *)
Definition isVideoFile (f : string) : bool :=
  endsWith ".mp4" f || endsWith ".webm" f || endsWith ".mkv" f.

(** [.map(f => { const stats = fs.statSync(path.join(recordingsDir, f));
    return { name: f, size, created, modified } })]: the first [statSync]
    that throws ends the listing. *)
Fixpoint statAll (recordingsDir : string) (statSync : string → Completion Stats)
    (names : list string) : Completion (list FileInfo) :=
  match names with
  | [] => Normal []
  | f :: rest =>
      match statSync (Recorder.path_join recordingsDir f) with
      | Throw e => Throw e
      | Normal stats =>
          match statAll recordingsDir statSync rest with
          | Throw e => Throw e
          | Normal infos =>
              Normal ({| file_name := f; file_size := size stats;
                         file_created := birthtime stats;
                         file_modified := mtime stats |} :: infos)
          end
      end
  end.

(** [.sort((a, b) => b.modified - a.modified)].  [Array.prototype.sort] is
    stable; [a] goes before every element of the sorted rest that is not
    newer than it. *)
Fixpoint insertNewestFirst (a : FileInfo) (sorted : list FileInfo) : list FileInfo :=
  match sorted with
  | [] => [a]
  | b :: rest =>
      if file_modified b - file_modified a <=? 0 then a :: b :: rest
      else b :: insertNewestFirst a rest
  end.

Definition sortNewestFirst (files : list FileInfo) : list FileInfo :=
  foldr insertNewestFirst [] files.

(** The [files] of the recordings query: [readdirSync] is what
    [fs.readdirSync(recordingsDir)] returns or throws. *)
Definition listRecordings (recordingsDir : string) (readdirSync : Completion (list string))
    (statSync : string → Completion Stats) : Completion (list FileInfo) :=
  match readdirSync with
  | Throw e => Throw e
  | Normal names =>
      match statAll recordingsDir statSync
              (filter (λ f, isVideoFile f = true) names) with
      | Throw e => Throw e
      | Normal infos => Normal (sortNewestFirst infos)
      end
  end.

(** [app.get('/api/recordings', ...)] with the directory read by the handler. *)
Definition recordingsQuery (recordingsDir : string) (dirExists : bool)
    (readdirSync : Completion (list string)) (statSync : string → Completion Stats)
    (now : Z) (recorder : Recorder.State) : Reply :=
  getRecordings dirExists (listRecordings recordingsDir readdirSync statSync) now recorder.

(** The body handed to [res.json] by the delete handler. *)
Inductive Body :=
| ErrorBody (error : string)                  (* [{ error }] *)
| SuccessBody (message : string).             (* [{ success: true, message }] *)

(** What the delete handler does: the status and body it answers with, and
    the path it hands to [fs.unlinkSync] when it calls it. *)
Record Deletion := {
  status : Z;
  body : Body;
  unlinked : option string
}.

(** [filename.match(/\.(mp4|webm|mkv)$/i)] *)
Definition hasVideoExtension (filename : string) : bool :=
  let lower := toLowerCase filename in
  endsWith ".mp4" lower || endsWith ".webm" lower || endsWith ".mkv" lower.

(** [app.delete('/api/recordings/:filename', ...)].  [fileExists] is
    [fs.existsSync(filePath)], [unlinkSync] what [fs.unlinkSync(filePath)]
    does: it returns, or throws with a message. *)
Definition deleteRecording (recordingsDir filename : string) (fileExists : bool)
    (unlinkSync : Completion unit) : Deletion :=
  if includes ".." filename || includes "/" filename || includes "\" filename then
    {| status := 400; body := ErrorBody "Invalid filename"; unlinked := None |}
  else
    let filePath := Recorder.path_join recordingsDir filename in
    if negb (hasVideoExtension filename) then
      {| status := 400; body := ErrorBody "Invalid file type"; unlinked := None |}
    else if negb fileExists then
      {| status := 404; body := ErrorBody "Recording not found"; unlinked := None |}
    else
      match unlinkSync with
      | Normal _ =>
          {| status := 200; body := SuccessBody "Recording deleted";
             unlinked := Some filePath |}
      | Throw e =>
          {| status := 500; body := ErrorBody e; unlinked := Some filePath |}
      end.

End Index.

(** ** [server/websocket.js]: clients, streamers, masters and the dispatch *)

Module Websocket.

(** [{ ws, role, deviceName, clientIp }]; of the socket only [readyState]
    matters to the server. *)
Record Client := {
  ws : ReadyState;
  role : option string;
  deviceName : option string;
  clientIp : string
}.

(** [{ deviceName, producers, transports }] *)
Record Streamer := {
  streamer_deviceName : string;
  streamer_producers : list string;
  streamer_transports : list string
}.

(** [const clients = new Map(); const streamers = new Map();
    const masters = new Set();] together with the state of the two modules
    the file requires. *)
Record State := {
  clients : gmap string Client;
  streamers : JsMap Streamer;
  masters : list string;
  mediasoup : Mediasoup.State;
  recorder : Recorder.State
}.

Definition initial (ffmpegFound : bool) : State :=
  {| clients := ∅; streamers := []; masters := [];
     mediasoup := Mediasoup.initial; recorder := Recorder.initial ffmpegFound |}.

Definition set_clients (f : gmap string Client → gmap string Client) (s : State) :=
  {| clients := f (clients s); streamers := streamers s; masters := masters s;
     mediasoup := mediasoup s; recorder := recorder s |}.
Definition set_streamers (f : JsMap Streamer → JsMap Streamer) (s : State) :=
  {| clients := clients s; streamers := f (streamers s); masters := masters s;
     mediasoup := mediasoup s; recorder := recorder s |}.
Definition set_masters (f : list string → list string) (s : State) :=
  {| clients := clients s; streamers := streamers s; masters := f (masters s);
     mediasoup := mediasoup s; recorder := recorder s |}.
Definition set_mediasoup (m : Mediasoup.State) (s : State) :=
  {| clients := clients s; streamers := streamers s; masters := masters s;
     mediasoup := m; recorder := recorder s |}.
Definition set_recorder (r : Recorder.State) (s : State) :=
  {| clients := clients s; streamers := streamers s; masters := masters s;
     mediasoup := mediasoup s; recorder := r |}.

Definition in_mediasoup {A} (m : M Mediasoup.State A) : M State A :=
  zoom mediasoup set_mediasoup m.
Definition in_recorder {A} (m : M Recorder.State A) : M State A :=
  zoom recorder set_recorder m.

(** [masters.add(id)] and [masters.delete(id)] on an insertion-ordered [Set]. *)
Definition set_add (id : string) (l : list string) : list string :=
  if decide (id ∈ l) then l else l ++ [id].
Definition set_delete (id : string) (l : list string) : list string :=
  filter (λ x, x ≠ id) l.

(** The message types whose case begins by destructuring [payload]. *)
Inductive PayloadType :=
| TRegister | TCreateTransport | TConnectTransport | TProduce | TConsume
| TResumeConsumer | TPanZoom.

(** What a frame holds where an object is expected. *)
Inductive Nullish := JsUndefined | JsNull.

(** What [JSON.parse] returned for an inbound frame.  The first seven
    constructors are frames [{ type, payload }] whose payload is an object;
    payload fields the server passes to the engine without looking at them
    are left out.  The cases of [get-streamers], [get-producers] and
    [stop-streaming] and the default case never read the payload, so these
    constructors stand for frames with and without one, and [Unknown] for
    every other [type], a missing one included.  [NoPayload] is a frame of
    one of the destructuring types whose payload is [undefined] or [null],
    [NullFrame] the JSON value [null]. *)
Inductive Message :=
| Register (role deviceName : option string)
| CreateTransport (direction : option string)
| ConnectTransport (transportId : string)
| Produce (transportId kind : string)
| Consume (transportId producerId : string)
| ResumeConsumer (consumerId : string)
| PanZoom (targetClientId : option string) (zoom panX panY : option JsValue)
| GetStreamers
| GetProducers
| StopStreaming
| Unknown (type : string)
| NoPayload (type : PayloadType) (payload : Nullish)
| NullFrame.

(** What the collaborators answer while one message is handled. *)
Record World := {
  engine : Mediasoup.Engine;
  recorderEnv : Recorder.Env;
  stopEnv : string → Recorder.StopEnv
}.

(** [send(ws, type, payload)], [ws] being the socket of client [to]. *)
Definition send (to : string) (ws : ReadyState) (type : string) (payload : Payload)
    : M State unit :=
  if decide (ws = OPEN) then emit (WsSend to type payload) else ret ().

Definition broadcastToMasters (type : string) (payload : Payload) : M State unit :=
  do s <- get_state;
  for_each (masters s) (λ masterId,
    match clients s !! masterId with
    | Some master =>
        if decide (ws master = OPEN) then send masterId (ws master) type payload
        else ret ()
    | None => ret ()
    end).

(** [Array.from(streamers.entries()).map(([id, s]) => ({ clientId: id,
    deviceName: s.deviceName, producers: mediasoup.getProducersByClient(id) }))] *)
Definition streamerList (s : State) : list StreamerEntry :=
  map (λ '(id, st), {| entry_clientId := id;
                       entry_deviceName := streamer_deviceName st;
                       entry_producers := Mediasoup.getProducersByClient id (mediasoup s) |})
      (streamers s).

(** [const client = clients.get(clientId)] followed by a property access,
    which throws a [TypeError] with message [error] on [undefined]. *)
Definition the_client (clientId : string) (error : string) : M State Client :=
  do s <- get_state;
  match clients s !! clientId with
  | Some client => ret client
  | None => throw error
  end.

Definition cannot_set_role : string :=
  "Cannot set properties of undefined (setting 'role')".
Definition cannot_read_deviceName : string :=
  "Cannot read properties of undefined (reading 'deviceName')".

(** [deviceName || `Device-${clientId.slice(0, 8)}`] *)
Definition nameOrDefault (deviceName : option string) (clientId : string) : string :=
  match deviceName with
  | Some n => if decide (n = "") then "Device-" +:+ String.substring 0 8 clientId else n
  | None => "Device-" +:+ String.substring 0 8 clientId
  end.

(** The first property that the case of a message type destructures:
    [const { role, deviceName } = payload] and the like. *)
Definition first_property (type : PayloadType) : string :=
  match type with
  | TRegister => "role"
  | TCreateTransport => "direction"
  | TConnectTransport | TProduce | TConsume => "transportId"
  | TResumeConsumer => "consumerId"
  | TPanZoom => "targetClientId"
  end.

(** The message of the [TypeError] thrown by [const { property } = object]
    when [object] is [undefined] or [null]. *)
Definition cannot_destructure (property object : string) (value : Nullish) : string :=
  "Cannot destructure property '" +:+ property +:+ "' of '" +:+ object +:+
  "' as it is " +:+
  match value with JsUndefined => "undefined" | JsNull => "null" end +:+ ".".

Definition handleMessage (clientId : string) (ws : ReadyState) (data : Message)
    (w : World) : M State unit :=
  match data with
  | Register role deviceName =>
      do client <- the_client clientId cannot_set_role;
      let name := nameOrDefault deviceName clientId in
      exec modify (set_clients (insert clientId
             {| ws := Websocket.ws client; role := role; deviceName := Some name;
                clientIp := clientIp client |}));
      exec (if decide (role = Some "streamer") then
             exec modify (set_streamers (jm_set clientId
                    {| streamer_deviceName := name; streamer_producers := [];
                       streamer_transports := [] |}));
             broadcastToMasters "streamer-joined" (PStreamerJoined clientId name)
           else if decide (role = Some "master") then
             exec modify (set_masters (set_add clientId));
             do s <- get_state;
             send clientId ws "streamer-list" (PStreamerList (streamerList s))
           else ret ());
      send clientId ws "registered" (PRegistered role name)

  | CreateTransport direction =>
      do id <- in_mediasoup (Mediasoup.createWebRtcTransport clientId (engine w));
      exec modify (λ s,
             match jm_get clientId (streamers s) with
             | Some streamer =>
                 set_streamers (jm_set clientId
                   {| streamer_deviceName := streamer_deviceName streamer;
                      streamer_producers := streamer_producers streamer;
                      streamer_transports := streamer_transports streamer ++ [id] |}) s
             | None => s
             end);
      send clientId ws "transport-created" (PTransportCreated direction id)

  | ConnectTransport transportId =>
      exec in_mediasoup (Mediasoup.connectTransport transportId (engine w));
      send clientId ws "transport-connected" (PTransportConnected transportId)

  | Produce transportId kind =>
      do client <- the_client clientId cannot_read_deviceName;
      do id <- in_mediasoup (Mediasoup.createProducer transportId kind clientId
                               (deviceName client) (engine w));
      exec modify (λ s,
             match jm_get clientId (streamers s) with
             | Some streamer =>
                 set_streamers (jm_set clientId
                   {| streamer_deviceName := streamer_deviceName streamer;
                      streamer_producers := streamer_producers streamer ++ [id];
                      streamer_transports := streamer_transports streamer |}) s
             | None => s
             end);
      exec broadcastToMasters "new-producer"
             (PNewProducer id clientId (deviceName client) kind);
      exec (if decide (kind = "video") then
             try_catch
               (do s <- get_state;
                exec in_recorder (Recorder.startRecording id (deviceName client)
                                    (recorderEnv w) (mediasoup s));
                ret ())
               (λ _, ret ())
           else ret ());
      send clientId ws "produced" (PProduced id kind)

  | Consume transportId producerId =>
      do result <- in_mediasoup (Mediasoup.createConsumer transportId producerId
                                   clientId (engine w));
      send clientId ws "consumed" result

  | ResumeConsumer consumerId =>
      exec in_mediasoup (Mediasoup.resumeConsumer consumerId (engine w));
      send clientId ws "consumer-resumed" (PConsumerResumed consumerId)

  | PanZoom targetClientId zoom panX panY =>
      do s <- get_state;
      match targetClientId with
      | Some target =>
          match clients s !! target with
          | Some targetClient =>
              if decide (Websocket.ws targetClient = OPEN) then
                send target (Websocket.ws targetClient) "pan-zoom-command"
                     (PPanZoomCommand zoom panX panY)
              else ret ()
          | None => ret ()
          end
      | None => ret ()
      end

  | GetStreamers =>
      do s <- get_state;
      send clientId ws "streamer-list" (PStreamerList (streamerList s))

  | GetProducers =>
      do s <- get_state;
      send clientId ws "producer-list"
           (PProducerList (Mediasoup.getProducers (mediasoup s)))

  | StopStreaming =>
      do client <- the_client clientId cannot_read_deviceName;
      do s <- get_state;
      let producers := Mediasoup.getProducersByClient clientId (mediasoup s) in
      exec for_each producers (λ producer,
             exec in_recorder (Recorder.stopRecording (ref_id producer)
                                 (stopEnv w (ref_id producer)));
             ret ());
      exec in_mediasoup (Mediasoup.cleanupClient clientId);
      do s <- get_state;
      exec (if jm_has clientId (streamers s) then
             exec broadcastToMasters "streamer-left"
                    (PStreamerLeft clientId (deviceName client));
             modify (set_streamers (jm_delete clientId))
           else ret ());
      exec modify (set_clients (alter (λ c,
             {| ws := Websocket.ws c; role := None; deviceName := deviceName c;
                clientIp := clientIp c |}) clientId));
      send clientId ws "streaming-stopped" (PStreamingStopped true)

  | Unknown type => ret ()

  (* [const { ... } = payload], the first statement of the case, throws *)
  | NoPayload type payload =>
      throw (cannot_destructure (first_property type) "payload" payload)

  (* [const { type, payload } = data] throws *)
  | NullFrame => throw (cannot_destructure "type" "data" JsNull)
  end.

Definition handleDisconnect (clientId : string) (w : World) : M State unit :=
  do s <- get_state;
  match clients s !! clientId with
  | Some client =>
      let producers := Mediasoup.getProducersByClient clientId (mediasoup s) in
      exec for_each producers (λ producer,
             exec in_recorder (Recorder.stopRecording (ref_id producer)
                                 (stopEnv w (ref_id producer)));
             ret ());
      exec in_mediasoup (Mediasoup.cleanupClient clientId);
      do s <- get_state;
      exec (if jm_has clientId (streamers s) then
             exec broadcastToMasters "streamer-left"
                    (PStreamerLeft clientId (deviceName client));
             modify (set_streamers (jm_delete clientId))
           else ret ());
      exec modify (set_masters (set_delete clientId));
      modify (set_clients (delete clientId))
  | None => ret ()
  end.

(** An inbound frame: text that [JSON.parse] rejects with a message, or a
    parsed message. *)
Inductive Inbound :=
| Unparsable (message : string)
| Parsed (data : Message).

(** The socket of a client as the closures of its connection see it: once
    the client has been removed the socket is closed. *)
Definition socket_of (clientId : string) (s : State) : ReadyState :=
  match clients s !! clientId with
  | Some client => ws client
  | None => CLOSED
  end.

(** [ws.on('message', async (message) => { try { ... } catch (error) {
    send(ws, 'error', { message: error.message }) } })] *)
Definition onMessage (clientId : string) (message : Inbound) (w : World) : M State unit :=
  do s <- get_state;
  let ws := socket_of clientId s in
  try_catch
    (match message with
     | Unparsable e => throw e
     | Parsed data => handleMessage clientId ws data w
     end)
    (λ e, send clientId ws "error" (PError e)).

(** [wss.on('connection', ...)] for a connection that passed the
    credential check: [clientId] is the fresh [uuidv4()]. *)
Definition onConnection (clientId clientIp : string) : M State unit :=
  exec modify (set_clients (insert clientId
         {| ws := OPEN; role := None; deviceName := None; clientIp := clientIp |}));
  send clientId OPEN "welcome" (PWelcome clientId).

(** [config.server.auth] *)
Record Auth := {
  auth_enabled : bool;
  auth_username : option string;
  auth_password : option string
}.

(** What the connection handler reads of the upgrade request:
    [req.headers.authorization], [req.headers['x-forwarded-for']] and
    [req.socket.remoteAddress]. *)
Record Request := {
  req_authorization : option string;
  req_forwardedFor : option string;
  req_remoteAddress : option string
}.

(** How the credential check ends: the handler goes on, or it calls
    [ws.close(code, reason)] and returns. *)
Inductive Verdict :=
| Accepted
| Rejected (code : Z) (reason : string).

Definition buffer_from_undefined : string :=
  "The first argument must be of type string or an instance of Buffer, ArrayBuffer, or Array or an Array-like Object. Received undefined".

(** The Basic Auth check at the head of the connection handler.  [decode]
    is [Buffer.from(_, 'base64').toString('ascii')]. *)
Definition authenticate {S} (auth : option Auth) (decode : string → string)
    (authHeader : option string) : M S Verdict :=
  match auth with
  | Some auth =>
      if auth_enabled auth then
        if negb (truthy authHeader) || negb (startsWith "Basic " (default "" authHeader))
        then ret (Rejected 1008 "Authentication required")
        else
          match split_on " "%char (default "" authHeader) !! 1%nat with
          | None => throw buffer_from_undefined
          | Some base64Credentials =>
              let credentials := decode base64Credentials in
              let fields := split_on ":"%char credentials in
              let username := fields !! 0%nat in
              let password := fields !! 1%nat in
              if negb (bool_decide (username = auth_username auth))
                 || negb (bool_decide (password = auth_password auth))
              then ret (Rejected 1008 "Invalid credentials")
              else ret Accepted
          end
      else ret Accepted
  | None => ret Accepted
  end.

(** [req.headers['x-forwarded-for']?.split(',')[0] ||
     req.socket.remoteAddress?.replace('::ffff:', '') || '127.0.0.1'] *)
Definition requestClientIp (req : Request) : string :=
  default "127.0.0.1"
    (or_else (h ← req_forwardedFor req; split_on ","%char h !! 0%nat)
       (or_else (replace_first "::ffff:" "" <$> req_remoteAddress req)
                (Some "127.0.0.1"))).

(** [wss.on('connection', (ws, req) => ...)]: the credential check, then
    the registration of the client under the fresh [clientId]. *)
Definition connectionHandler (auth : option Auth) (decode : string → string)
    (req : Request) (clientId : string) : M State Verdict :=
  do verdict <- authenticate auth decode (req_authorization req);
  match verdict with
  | Rejected code reason => ret verdict
  | Accepted =>
      exec onConnection clientId (requestClientIp req);
      ret Accepted
  end.

(** Everything that can happen to the server. *)
Inductive Event :=
| Connection (clientId clientIp : string)
| Incoming (clientId : string) (message : Inbound) (w : World)
| Close (clientId : string) (w : World)
| ReadyStateChange (clientId : string) (rs : ReadyState)
| EngineReport (ev : Mediasoup.EngineEvent)
(* process.on('exit' | 'SIGINT' | 'SIGTERM', stopAllRecordings) *)
| ProcessSignal (env : string → Recorder.StopEnv).

Definition on_event (ev : Event) : M State unit :=
  match ev with
  | Connection clientId clientIp => onConnection clientId clientIp
  | Incoming clientId message w => onMessage clientId message w
  | Close clientId w => handleDisconnect clientId w
  | ReadyStateChange clientId rs =>
      modify (set_clients (alter (λ c,
        {| ws := rs; role := role c; deviceName := deviceName c;
           clientIp := clientIp c |}) clientId))
  | EngineReport ev =>
      modify (λ s, set_mediasoup (Mediasoup.onEngineEvent ev (mediasoup s)) s)
  | ProcessSignal env => in_recorder (Recorder.stopAllRecordings env)
  end.

(** The server after a sequence of events, from a given state: each event
    is handled to its end before the next. *)
Definition run_from (s : State) (events : list Event) : State :=
  foldl (λ s ev, state (on_event ev s)) s events.

End Websocket.

(** ** Concrete inputs *)

Module Sample.
Import Websocket.

Definition env : Recorder.Env :=
  {| Recorder.recordingsDir := "/srv/recordings"; Recorder.dirExists := true;
     Recorder.failsAt := None; Recorder.isoNow := "2024-01-02T03:04:05.678Z";
     Recorder.now := 1704164645678; Recorder.newTransport := "plain-1";
     Recorder.newConsumer := "rec-consumer-1"; Recorder.newProcess := "ffmpeg-1";
     Recorder.codecName := "VP8"; Recorder.payloadType := "96";
     Recorder.clockRate := "90000"; Recorder.ssrc := "1234" |}.

(** A second start: the engine and the system hand out new objects. *)
Definition env_again : Recorder.Env :=
  {| Recorder.recordingsDir := "/srv/recordings"; Recorder.dirExists := true;
     Recorder.failsAt := None; Recorder.isoNow := "2024-01-02T03:05:00.000Z";
     Recorder.now := 1704164700000; Recorder.newTransport := "plain-2";
     Recorder.newConsumer := "rec-consumer-2"; Recorder.newProcess := "ffmpeg-2";
     Recorder.codecName := "VP8"; Recorder.payloadType := "96";
     Recorder.clockRate := "90000"; Recorder.ssrc := "1234" |}.

(** The collaborators when the engine answers with the object [id]. *)
Definition world (id : string) : World :=
  {| engine := {| Mediasoup.answer := Normal id; Mediasoup.canConsume := true |};
     recorderEnv := env;
     stopEnv := λ _, {| Recorder.stop_now := 1704164705678;
                        Recorder.consumerClosed := false |} |}.

Definition viewer : string := "0c6f7a52-viewer".
Definition front : string := "aaaaaaaa-front".
Definition yard : string := "bbbbbbbb-yard".
Definition late : string := "1d2e3f40-late".

(** A viewer connects and registers, two streamers connect, register,
    create a transport and produce video, the viewer creates a transport,
    and one more client connects. *)
Definition events : list Event :=
  [ Connection viewer "10.0.0.9";
    Incoming viewer (Parsed (Register (Some "master") (Some "Master Dashboard"))) (world "");
    Connection front "10.0.0.1";
    Connection yard "10.0.0.2";
    Incoming front (Parsed (Register (Some "streamer") (Some "Front Door"))) (world "");
    Incoming yard (Parsed (Register (Some "streamer") None)) (world "");
    Incoming front (Parsed (CreateTransport (Some "send"))) (world "t1");
    Incoming yard (Parsed (CreateTransport (Some "send"))) (world "t2");
    Incoming front (Parsed (Produce "t1" "video")) (world "p1");
    Incoming yard (Parsed (Produce "t2" "video")) (world "p2");
    Incoming viewer (Parsed (CreateTransport (Some "recv"))) (world "t0");
    Connection late "10.0.0.10" ].

Definition streaming : State := run_from (initial true) events.

(** The same, after which the engine reports that the transport of the
    first streamer's producer has closed: the handler that [createProducer]
    registered for [transportclose] drops [p1] from [producers]. *)
Definition transport_lost : list Event :=
  events ++ [EngineReport (Mediasoup.ProducerGone "p1")].

(** The same, after which the first streamer registers as master. *)
Definition role_changed : list Event :=
  events ++ [Incoming front (Parsed (Register (Some "master") (Some "Front Door")))
               (world "")].


(** The first streamer as [clients] holds it in [streaming]. *)
Definition front_client : Client :=
  {| ws := OPEN; role := Some "streamer"; deviceName := Some "Front Door";
     clientIp := "10.0.0.1" |}.

(** Credentials as the configuration may hold them, a decoder that knows
    one encoded text, and the request of a client behind a proxy. *)
Definition auth : Auth :=
  {| auth_enabled := true; auth_username := Some "admin";
     auth_password := Some "s3cret" |}.

Definition decode (base64 : string) : string :=
  if decide (base64 = "YWRtaW46czNjcmV0") then "admin:s3cret" else "".

Definition request : Request :=
  {| req_authorization := Some "Basic YWRtaW46czNjcmV0";
     req_forwardedFor := Some "10.0.0.7, 192.168.1.1";
     req_remoteAddress := Some "::ffff:192.168.1.1" |}.

(** The start of a recording during which resuming the consumer fails. *)
Definition env_resume_fails : Recorder.Env :=
  {| Recorder.recordingsDir := "/srv/recordings"; Recorder.dirExists := true;
     Recorder.failsAt := Some (Recorder.AtResume, "consumer closed");
     Recorder.isoNow := "2024-01-02T03:04:05.678Z";
     Recorder.now := 1704164645678; Recorder.newTransport := "plain-1";
     Recorder.newConsumer := "rec-consumer-1"; Recorder.newProcess := "ffmpeg-1";
     Recorder.codecName := "VP8"; Recorder.payloadType := "96";
     Recorder.clockRate := "90000"; Recorder.ssrc := "1234" |}.

End Sample.

(** ** Notions used to state the properties *)

(** *** Logs *)

(** What [send] writes to the socket [ws] of client [to]. *)
Definition reply (to : string) (ws : ReadyState) (type : string) (payload : Payload)
    : list Action :=
  if decide (ws = OPEN) then [WsSend to type payload] else [].

(** The masters a broadcast reaches: those whose socket is open. *)
Definition recipients (s : Websocket.State) : list string :=
  filter (λ m, Websocket.socket_of m s = OPEN) (Websocket.masters s).

(** The delayed shutdown that [stopRecording] arranges for a session. *)
Definition shutdown_of (rec : Recorder.Recording) : Action :=
  SetTimeoutShutdown 500 (Recorder.ffmpeg rec) (Recorder.plainTransport rec)
                     (Recorder.sdpPath rec).

(** The encoder processes a log starts. *)
Definition spawned (log : list Action) : list string :=
  omap (λ a, match a with SpawnFfmpeg process _ _ => Some process | _ => None end) log.

(** The consumers the engine created on client transports, by a log. *)
Definition consumers_created (log : list Action) : list string :=
  omap (λ a, match a with TransportConsume _ _ id => Some id | _ => None end) log.

(** *** States that handlers leave behind *)

(** The stored session [startRecording] builds, given the port it drew. *)
Definition session (producerId : string) (deviceName : option string)
    (env : Recorder.Env) (rtpPort : Z) : Recorder.Recording :=
  {| Recorder.plainTransport := Recorder.newTransport env;
     Recorder.consumer := Recorder.newConsumer env;
     Recorder.ffmpeg := Recorder.newProcess env;
     Recorder.filepath :=
       Recorder.path_join (Recorder.recordingsDir env)
         (Recorder.safeDeviceName deviceName +:+ "_" +:+
          Recorder.timestamp (Recorder.isoNow env) +:+ ".mkv");
     Recorder.sdpPath :=
       Recorder.path_join (Recorder.recordingsDir env) (producerId +:+ ".sdp");
     Recorder.deviceName := deviceName;
     Recorder.rtpPort := rtpPort;
     Recorder.startTime := Recorder.now env |}.

(** What a start that runs to its end does, in order. *)
Definition start_sequence (producerId : string) (deviceName : option string)
    (env : Recorder.Env) (producerData : Mediasoup.ProducerData) (rtpPort : Z)
    : list Action :=
  let new := session producerId deviceName env rtpPort in
  (if Recorder.dirExists env then [] else [Mkdir (Recorder.recordingsDir env)]) ++
  [ CreatePlainTransport (Recorder.newTransport env);
    PlainConsume (Recorder.newTransport env) (Mediasoup.producer producerData)
                 (Recorder.newConsumer env);
    PlainConnect (Recorder.newTransport env) rtpPort (rtpPort + 1);
    WriteFile (Recorder.sdpPath new) (Recorder.sdpContent env rtpPort);
    SpawnFfmpeg (Recorder.newProcess env) (Recorder.sdpPath new) (Recorder.filepath new);
    Sleep 1000;
    RecordingConsumerResume (Recorder.newConsumer env) ].

(** The recorder once [stopRecording] has run for each of [producerIds]. *)
Definition without_recordings (producerIds : list string) (r : Recorder.State)
    : Recorder.State :=
  foldl (λ r producerId, Recorder.set_recordings (jm_delete producerId) r) r producerIds.

(** No transport, producer or consumer of the registry belongs to [clientId]. *)
Definition owns_nothing (clientId : string) (s : Mediasoup.State) : Prop :=
  Forall (λ e, Mediasoup.p_clientId e.2 ≠ clientId) (Mediasoup.producers s) ∧
  Forall (λ e, Mediasoup.c_clientId e.2 ≠ clientId) (Mediasoup.consumers s) ∧
  Forall (λ e, Mediasoup.t_clientId e.2 ≠ clientId) (Mediasoup.transports s).

(** The client [c] once its [register] has been handled. *)
Definition registered_client (c : Websocket.Client) (role : option string)
    (name : string) : Websocket.Client :=
  {| Websocket.ws := Websocket.ws c; Websocket.role := role;
     Websocket.deviceName := Some name; Websocket.clientIp := Websocket.clientIp c |}.

(** The record [register] stores for a streamer. *)
Definition fresh_streamer (name : string) : Websocket.Streamer :=
  {| Websocket.streamer_deviceName := name; Websocket.streamer_producers := [];
     Websocket.streamer_transports := [] |}.

(** The server once [register] from [clientId], found as [c], has been handled. *)
Definition registered (clientId : string) (c : Websocket.Client)
    (role deviceName : option string) (s : Websocket.State) : Websocket.State :=
  let name := Websocket.nameOrDefault deviceName clientId in
  {| Websocket.clients :=
       <[clientId := registered_client c role name]> (Websocket.clients s);
     Websocket.streamers :=
       if decide (role = Some "streamer")
       then jm_set clientId (fresh_streamer name) (Websocket.streamers s)
       else Websocket.streamers s;
     Websocket.masters :=
       if decide (role = Some "streamer") then Websocket.masters s
       else if decide (role = Some "master")
            then Websocket.set_add clientId (Websocket.masters s)
            else Websocket.masters s;
     Websocket.mediasoup := Websocket.mediasoup s;
     Websocket.recorder := Websocket.recorder s |}.

(** The client whose role has been reset by [stop-streaming]. *)
Definition unregistered (c : Websocket.Client) : Websocket.Client :=
  {| Websocket.ws := Websocket.ws c; Websocket.role := None;
     Websocket.deviceName := Websocket.deviceName c;
     Websocket.clientIp := Websocket.clientIp c |}.

(** The server once [stop-streaming] from [clientId] has been handled. *)
Definition stopped_streaming (clientId : string) (s : Websocket.State) : Websocket.State :=
  {| Websocket.clients := alter unregistered clientId (Websocket.clients s);
     Websocket.streamers := jm_delete clientId (Websocket.streamers s);
     Websocket.masters := Websocket.masters s;
     Websocket.mediasoup :=
       state (Mediasoup.cleanupClient clientId (Websocket.mediasoup s));
     Websocket.recorder :=
       without_recordings
         (map ref_id (Mediasoup.getProducersByClient clientId (Websocket.mediasoup s)))
         (Websocket.recorder s) |}.

(** The server once the connection of [clientId] has closed. *)
Definition disconnected (clientId : string) (s : Websocket.State) : Websocket.State :=
  {| Websocket.clients := delete clientId (Websocket.clients s);
     Websocket.streamers := jm_delete clientId (Websocket.streamers s);
     Websocket.masters := Websocket.set_delete clientId (Websocket.masters s);
     Websocket.mediasoup :=
       state (Mediasoup.cleanupClient clientId (Websocket.mediasoup s));
     Websocket.recorder :=
       without_recordings
         (map ref_id (Mediasoup.getProducersByClient clientId (Websocket.mediasoup s)))
         (Websocket.recorder s) |}.

(** *** What stays true *)

(** [m] takes every state to an [R]-related one, whether it returns or throws. *)
Definition keeps {S} (R : S → S → Prop) {A} (m : M S A) : Prop :=
  ∀ s, R s (state (m s)).

(** [P] once true stays true. *)
Definition preserving {S} (P : S → Prop) (s s' : S) : Prop := P s → P s'.

(** A relation on the recorder, as a relation on the whole server. *)
Definition on_recorder (Q : Recorder.State → Recorder.State → Prop)
    (s s' : Websocket.State) : Prop :=
  Q (Websocket.recorder s) (Websocket.recorder s').

(** The recorder was loaded without an encoder and holds no session. *)
Definition disabled (r : Recorder.State) : Prop :=
  Recorder.ffmpegAvailable r = false ∧ Recorder.recordings r = [].

(** No producer id is a key of [recordings] twice. *)
Definition one_session_each (r : Recorder.State) : Prop :=
  NoDup (jm_keys (Recorder.recordings r)).

(** The port counter is an even number from 20000 to 30000. *)
Definition port_in_range (r : Recorder.State) : Prop :=
  ∃ j, 0 ≤ j ≤ 5000 ∧ Recorder.nextRtpPort r = 20000 + 2 * j.

(** The recorder after [n] calls of [getNextPort]. *)
Fixpoint after_calls (n : nat) (s : Recorder.State) : Recorder.State :=
  match n with
  | O => s
  | S n' => after_calls n' (state (Recorder.getNextPort s))
  end.

(** Clients, the set of masters and the order of the streamers are as before. *)
Definition same_registry (s s' : Websocket.State) : Prop :=
  Websocket.clients s' = Websocket.clients s ∧
  jm_keys (Websocket.streamers s') = jm_keys (Websocket.streamers s) ∧
  Websocket.masters s' = Websocket.masters s.

(** [masters] and the keys of [streamers] have no duplicates, and a client
    whose role is [streamer] has a record in [streamers]. *)
Definition well_formed (s : Websocket.State) : Prop :=
  NoDup (Websocket.masters s) ∧
  NoDup (jm_keys (Websocket.streamers s)) ∧
  ∀ clientId c, Websocket.clients s !! clientId = Some c →
    Websocket.role c = Some "streamer" →
    jm_get clientId (Websocket.streamers s) ≠ None.

(** *** Who is listed, from the events alone

    Which clients are connected, and which have a record in [streamers],
    in the order of the map: a client enters at the end when it registers
    as streamer while it is connected (and is not listed yet), and leaves
    when it stops streaming or its connection closes.  A [register] with
    another role does not remove it. *)
Record Registry := { connected : gset string; order : list string }.

Definition registry_step (g : Registry) (ev : Websocket.Event) : Registry :=
  match ev with
  | Websocket.Connection c _ =>
      {| connected := {[c]} ∪ connected g; order := order g |}
  | Websocket.Incoming c (Websocket.Parsed (Websocket.Register role _)) _ =>
      if decide (c ∈ connected g ∧ role = Some "streamer") then
        {| connected := connected g;
           order := if decide (c ∈ order g) then order g else order g ++ [c] |}
      else g
  | Websocket.Incoming c (Websocket.Parsed Websocket.StopStreaming) _ =>
      if decide (c ∈ connected g) then
        {| connected := connected g; order := filter (λ x, x ≠ c) (order g) |}
      else g
  | Websocket.Close c _ =>
      if decide (c ∈ connected g) then
        {| connected := connected g ∖ {[c]}; order := filter (λ x, x ≠ c) (order g) |}
      else g
  | _ => g
  end.

Definition listing_order (events : list Websocket.Event) : list string :=
  order (foldl registry_step {| connected := ∅; order := [] |} events).

(** *** Registration order, as the specification words it

    The registered streamers, in the order in which they registered.  A
    client is a registered streamer from the [register] that gives it the
    role [streamer] until it registers with another role, stops streaming
    or is no longer connected; while it is one, a further [register] as
    streamer leaves it in its place.  A new connection has no role. *)
Definition registration_step (g : Registry) (ev : Websocket.Event) : Registry :=
  match ev with
  | Websocket.Connection c _ =>
      {| connected := {[c]} ∪ connected g; order := filter (λ x, x ≠ c) (order g) |}
  | Websocket.Incoming c (Websocket.Parsed (Websocket.Register role _)) _ =>
      if decide (c ∈ connected g) then
        {| connected := connected g;
           order := if decide (role = Some "streamer")
                    then if decide (c ∈ order g) then order g else order g ++ [c]
                    else filter (λ x, x ≠ c) (order g) |}
      else g
  | Websocket.Incoming c (Websocket.Parsed Websocket.StopStreaming) _ =>
      if decide (c ∈ connected g) then
        {| connected := connected g; order := filter (λ x, x ≠ c) (order g) |}
      else g
  | Websocket.Close c _ =>
      if decide (c ∈ connected g) then
        {| connected := connected g ∖ {[c]}; order := filter (λ x, x ≠ c) (order g) |}
      else g
  | _ => g
  end.

Definition registration_order (events : list Websocket.Event) : list string :=
  order (foldl registration_step {| connected := ∅; order := [] |} events).





(** The events and the state agree on who is connected and on the order of
    the streamers. *)
Definition registry_inv (g : Registry) (s : Websocket.State) : Prop :=
  dom (Websocket.clients s) = connected g ∧
  jm_keys (Websocket.streamers s) = order g.

(** *** Three statements of the specification, as it words them *)

(** A start for a producer that already has a session changes nothing and
    starts no encoder. *)
Definition start_is_noop (producerId : string) (deviceName : option string)
    (env : Recorder.Env) (ms : Mediasoup.State) (s : Recorder.State) : Prop :=
  jm_get producerId (Recorder.recordings s) ≠ None →
  let r := Recorder.startRecording producerId deviceName env ms s in
  state r = s ∧ spawned (log r) = [].



(** *** The recordings on disk *)

(** A list of files with no file newer than one before it. *)
Fixpoint newestFirst (files : list Index.FileInfo) : Prop :=
  match files with
  | [] => True
  | a :: rest =>
      Forall (λ b, Index.file_modified b ≤ Index.file_modified a) rest ∧ newestFirst rest
  end.

(** The entry of a listing for the file [f] with the given [stats]. *)
Definition fileInfo (f : string) (stats : Index.Stats) : Index.FileInfo :=
  {| Index.file_name := f; Index.file_size := Index.size stats;
     Index.file_created := Index.birthtime stats;
     Index.file_modified := Index.mtime stats |}.

(** The files modified at time [t], in the order of the list. *)
Definition modifiedAt (t : Z) (files : list Index.FileInfo) : list Index.FileInfo :=
  filter (λ a, Index.file_modified a = t) files.

(** A file name with one of the three extensions of a recording. *)
Definition video_name (f : string) : Prop :=
  ∃ stem, f = stem +:+ ".mp4" ∨ f = stem +:+ ".webm" ∨ f = stem +:+ ".mkv".

(** *** The recorder, step by step *)

(** The recorder once [getNextPort] has handed out a port. *)
Definition port_drawn (s : Recorder.State) : Recorder.State :=
  state (Recorder.getNextPort s).

(** The name [startRecording] gives the file. *)
Definition recording_filename (deviceName : option string) (env : Recorder.Env) : string :=
  Recorder.safeDeviceName deviceName +:+ "_" +:+
  Recorder.timestamp (Recorder.isoNow env) +:+ ".mkv".

(** What [stopRecording] does to the outside for a stored session. *)
Definition stop_sequence (rec : Recorder.Recording) (env : Recorder.StopEnv)
    : list Action :=
  (if Recorder.consumerClosed env then []
   else [RecordingConsumerClose (Recorder.consumer rec)]) ++ [shutdown_of rec].

(** *** The media registry, entry by entry *)

(** The ids of the entries of a map that belong to [clientId], in the order
    of the map, and the entries that do not. *)
Definition owned_by {D} (owner : D → string) (clientId : string) (m : list (string * D))
    : list string :=
  jm_keys (filter (λ e, owner e.2 = clientId) m).

Definition of_others {D} (owner : D → string) (clientId : string) (m : list (string * D))
    : list (string * D) :=
  filter (λ e, owner e.2 ≠ clientId) m.

(** No id is a key of one of the three maps twice. *)
Definition unique_ids (s : Mediasoup.State) : Prop :=
  NoDup (jm_keys (Mediasoup.transports s)) ∧
  NoDup (jm_keys (Mediasoup.producers s)) ∧
  NoDup (jm_keys (Mediasoup.consumers s)).

(** A relation on the media registry, as a relation on the whole server. *)
Definition on_mediasoup (Q : Mediasoup.State → Mediasoup.State → Prop)
    (s s' : Websocket.State) : Prop :=
  Q (Websocket.mediasoup s) (Websocket.mediasoup s').

(** An address that [getLocalIPs] looks for: IPv4 and not internal. *)
Definition external_ipv4 (iface : Config.Iface) : Prop :=
  Config.family iface = "IPv4" ∧ Config.internal iface = false.

(** *** How a computation ends *)


(** [m] only looks at the state: it changes nothing and does nothing. *)
Definition reads_only {S A} (m : M S A) : Prop :=
  ∀ s, ∃ c, m s = mkOutcome s [] c.


(** *** Who is written to *)

(** The action [a], if it writes a frame, writes it to a socket that is
    open in [s]. *)
Definition to_open_socket (s : Websocket.State) (a : Action) : Prop :=
  match a with
  | WsSend to _ _ => Websocket.socket_of to s = OPEN
  | _ => True
  end.

(** Every socket that is open in [s'] was open in [s]. *)
Definition opens_none (s s' : Websocket.State) : Prop :=
  ∀ id, Websocket.socket_of id s' = OPEN → Websocket.socket_of id s = OPEN.

(** Started in a state that opened no socket since [s0], [m] opens none
    and writes only to sockets that are open in [s0]. *)
Definition writes_to_open (s0 : Websocket.State) {A} (m : M Websocket.State A) : Prop :=
  ∀ s, opens_none s0 s →
       opens_none s0 (state (m s)) ∧ Forall (to_open_socket s0) (log (m s)).

(** [m] writes no frame. *)
Definition silent {S A} (m : M S A) : Prop :=
  ∀ s, frames (log (m s)) = [].

(** *** Who is listed *)

(** Every master and every client with a record in [streamers] is a
    connected client. *)
Definition connected_only (s : Websocket.State) : Prop :=
  (∀ id, id ∈ Websocket.masters s → is_Some (Websocket.clients s !! id)) ∧
  (∀ id, id ∈ jm_keys (Websocket.streamers s) → is_Some (Websocket.clients s !! id)).

(** *** A producer is made *)

(** The entry that [createProducer] stores for the producer [id] that the
    engine made for the client [c]. *)
Definition producer_of (clientId : string) (c : Websocket.Client) (id kind : string)
    : Mediasoup.ProducerData :=
  {| Mediasoup.producer := id; Mediasoup.p_clientId := clientId;
     Mediasoup.p_deviceName := Websocket.deviceName c; Mediasoup.p_kind := kind |}.

(** The server once the producer is stored and, when the client has a
    record in [streamers], pushed on its list of producers. *)
Definition with_producer (clientId : string) (c : Websocket.Client) (id kind : string)
    (s : Websocket.State) : Websocket.State :=
  {| Websocket.clients := Websocket.clients s;
     Websocket.streamers :=
       match jm_get clientId (Websocket.streamers s) with
       | Some streamer =>
           jm_set clientId
             {| Websocket.streamer_deviceName := Websocket.streamer_deviceName streamer;
                Websocket.streamer_producers :=
                  Websocket.streamer_producers streamer ++ [id];
                Websocket.streamer_transports := Websocket.streamer_transports streamer |}
             (Websocket.streamers s)
       | None => Websocket.streamers s
       end;
     Websocket.masters := Websocket.masters s;
     Websocket.mediasoup :=
       Mediasoup.set_producers (jm_set id (producer_of clientId c id kind))
         (Websocket.mediasoup s);
     Websocket.recorder := Websocket.recorder s |}.

(** The start of the recording that a [produce] of kind [video] attempts;
    for another kind nothing is attempted. *)
Definition recording_attempt (c : Websocket.Client) (id kind : string)
    (w : Websocket.World) (s : Websocket.State)
    : Outcome Recorder.State (option Recorder.Started) :=
  if decide (kind = "video") then
    Recorder.startRecording id (Websocket.deviceName c) (Websocket.recorderEnv w)
      (Websocket.mediasoup s) (Websocket.recorder s)
  else mkOutcome (Websocket.recorder s) [] (Normal None).

(** Two states of the server that differ at most in the recorder. *)
Definition same_but_recorder (s s' : Websocket.State) : Prop :=
  Websocket.clients s' = Websocket.clients s ∧
  Websocket.streamers s' = Websocket.streamers s ∧
  Websocket.masters s' = Websocket.masters s ∧
  Websocket.mediasoup s' = Websocket.mediasoup s.

(** *** The list of streamers, read off the maps *)


(** * Facts *)

(** ** JavaScript maps *)

Section JsMapFacts.
Context {V : Type}.
Implicit Types (m : list (string * V)) (k : string) (v : V).

Lemma jm_get_set_eq k v m : jm_get k (jm_set k v m) = Some v.
Proof.
  induction m as [|[k' v'] m IH]; simpl.
  - by rewrite decide_True.
  - destruct (decide (k' = k)) as [->|Hne]; simpl.
    + by rewrite decide_True.
    + by rewrite decide_False.
Qed.

Lemma jm_get_set_ne k k' v m : k ≠ k' → jm_get k' (jm_set k v m) = jm_get k' m.
Proof.
  intros Hne. induction m as [|[k0 v0] m IH]; simpl.
  - by rewrite decide_False.
  - destruct (decide (k0 = k)) as [->|Hne0]; simpl.
    + by rewrite !decide_False.
    + by rewrite IH.
Qed.

Lemma jm_get_delete_eq k m : jm_get k (jm_delete k m) = None.
Proof.
  induction m as [|[k' v'] m IH]; simpl; [done|].
  destruct (decide (k' = k)) as [->|Hne]; simpl; [done|].
  by rewrite decide_False.
Qed.

Lemma jm_get_delete_ne k k' m : k ≠ k' → jm_get k' (jm_delete k m) = jm_get k' m.
Proof.
  intros Hne. induction m as [|[k0 v0] m IH]; simpl; [done|].
  destruct (decide (k0 = k)) as [->|Hne0]; simpl.
  - by rewrite decide_False.
  - by rewrite IH.
Qed.

Lemma jm_delete_absent k m : jm_get k m = None → jm_delete k m = m.
Proof.
  induction m as [|[k' v'] m IH]; simpl; [done|].
  destruct (decide (k' = k)); [done|]. intros H. by rewrite IH.
Qed.

Lemma jm_get_None_keys k m : jm_get k m = None ↔ k ∉ jm_keys m.
Proof.
  unfold jm_keys. induction m as [|[k' v'] m IH]; csimpl.
  - split; [intros _; apply not_elem_of_nil | done].
  - rewrite not_elem_of_cons. destruct (decide (k' = k)) as [->|Hne].
    + split; [done | intros [? _]; done].
    + rewrite IH. split; [by intros; split; [congruence|] | by intros [_ ?]].
Qed.

Lemma jm_keys_set_fresh k v m :
  jm_get k m = None → jm_keys (jm_set k v m) = jm_keys m ++ [k].
Proof.
  unfold jm_keys. induction m as [|[k' v'] m IH]; csimpl; [done|].
  destruct (decide (k' = k)); [done|]. intros H. csimpl. by rewrite IH.
Qed.

Lemma jm_keys_set_present k v m :
  jm_get k m ≠ None → jm_keys (jm_set k v m) = jm_keys m.
Proof.
  unfold jm_keys. induction m as [|[k' v'] m IH]; csimpl; [done|].
  destruct (decide (k' = k)) as [->|Hne]; [done|]. intros H. csimpl. by rewrite IH.
Qed.

Lemma jm_keys_delete k m :
  jm_keys (jm_delete k m) = filter (λ x, x ≠ k) (jm_keys m).
Proof.
  unfold jm_keys. induction m as [|[k' v'] m IH]; csimpl; [done|].
  rewrite filter_cons. csimpl.
  destruct (decide (k' = k)) as [->|Hne].
  - by rewrite decide_False by naive_solver.
  - rewrite decide_True by done. csimpl. by rewrite IH.
Qed.

Lemma jm_set_NoDup k v m : NoDup (jm_keys m) → NoDup (jm_keys (jm_set k v m)).
Proof.
  intros Hnd. destruct (jm_get k m) eqn:Hg.
  - rewrite jm_keys_set_present; [done | congruence].
  - rewrite jm_keys_set_fresh by done.
    apply NoDup_app. split; [done|]. split; [|apply NoDup_singleton].
    intros x Hx ->%list_elem_of_singleton. by apply jm_get_None_keys in Hg.
Qed.

Lemma jm_delete_NoDup k m : NoDup (jm_keys m) → NoDup (jm_keys (jm_delete k m)).
Proof. intros Hnd. rewrite jm_keys_delete. by apply NoDup_filter. Qed.

Lemma jm_delete_elem k k' v m : (k', v) ∈ jm_delete k m → k' ≠ k ∧ (k', v) ∈ m.
Proof.
  induction m as [|[k0 v0] m IH]; simpl.
  - by intros ?%elem_of_nil.
  - destruct (decide (k0 = k)) as [->|Hne].
    + intros [? ?]%IH. split; [done | by apply list_elem_of_further].
    + intros [[= -> ->]|Hin]%elem_of_cons.
      * split; [done | apply list_elem_of_here].
      * destruct (IH Hin). split; [done | by apply list_elem_of_further].
Qed.

End JsMapFacts.

(** ** Frame rules for the state of a computation *)

Section MonadFacts.
Context {S : Type}.
Implicit Types (R : S → S → Prop).

Lemma keeps_ret R `{!Reflexive R} {A} (a : A) : keeps R (ret a).
Proof. intros s. simpl. reflexivity. Qed.

Lemma keeps_throw R `{!Reflexive R} {A} e : keeps R (throw (A:=A) e).
Proof. intros s. simpl. reflexivity. Qed.

Lemma keeps_get_state R `{!Reflexive R} : keeps R get_state.
Proof. intros s. simpl. reflexivity. Qed.

Lemma keeps_emit R `{!Reflexive R} a : keeps R (emit a).
Proof. intros s. simpl. reflexivity. Qed.

Lemma keeps_bind R `{!Transitive R} {A B} (m : M S A) (f : A → M S B) :
  keeps R m → (∀ a, keeps R (f a)) → keeps R (bind m f).
Proof.
  intros Hm Hf s. unfold bind. specialize (Hm s).
  destruct (m s) as [s1 l1 [a|e]]; [|done].
  specialize (Hf a s1). destruct (f a s1) as [s2 l2 c]. by etrans.
Qed.

Lemma keeps_try_catch R `{!Transitive R} {A} (m : M S A) h :
  keeps R m → (∀ e, keeps R (h e)) → keeps R (try_catch m h).
Proof.
  intros Hm Hh s. unfold try_catch. specialize (Hm s).
  destruct (m s) as [s1 l1 [a|e]]; [done|].
  specialize (Hh e s1). destruct (h e s1) as [s2 l2 c]. by etrans.
Qed.

Lemma keeps_for_each R `{!PreOrder R} {A} (l : list A) body :
  (∀ x, keeps R (body x)) → keeps R (for_each l body).
Proof.
  intros Hb. induction l as [|x l IH]; simpl.
  - apply keeps_ret; apply _.
  - apply keeps_bind; [apply _ | apply Hb | done].
Qed.

Lemma keeps_await R `{!PreOrder R} {A} (answer : Completion A) done_ :
  keeps R (await answer done_).
Proof.
  destruct answer; simpl.
  - apply keeps_bind; [apply _ | apply keeps_emit; apply _ | intros; apply keeps_ret; apply _].
  - apply keeps_throw; apply _.
Qed.

Lemma bind_unfold {A B} (m : M S A) (f : A → M S B) s :
  bind m f s =
  match m s with
  | mkOutcome s1 l1 (Normal a) =>
      match f a s1 with
      | mkOutcome s2 l2 c => mkOutcome s2 (l1 ++ l2) c
      end
  | mkOutcome s1 l1 (Throw e) => mkOutcome s1 l1 (Throw e)
  end.
Proof. done. Qed.

Lemma get_state_run (s : S) : get_state s = mkOutcome s [] (Normal s).
Proof. done. Qed.

Lemma zoom_unfold {T A} (proj : S → T) upd (m : M T A) s :
  zoom proj upd m s =
  match m (proj s) with mkOutcome t l c => mkOutcome (upd t s) l c end.
Proof. done. Qed.

Lemma try_catch_unfold {A} (m : M S A) h s :
  try_catch m h s =
  match m s with
  | mkOutcome s1 l1 (Normal a) => mkOutcome s1 l1 (Normal a)
  | mkOutcome s1 l1 (Throw e) =>
      match h e s1 with
      | mkOutcome s2 l2 c => mkOutcome s2 (l1 ++ l2) c
      end
  end.
Proof. done. Qed.

Lemma keeps_zoom {T} R (Q : T → T → Prop) {A} (proj : S → T) upd (m : M T A) :
  keeps Q m → (∀ s t, Q (proj s) t → R s (upd t s)) → keeps R (zoom proj upd m).
Proof.
  intros Hm H s. unfold zoom. specialize (Hm (proj s)).
  destruct (m (proj s)) as [t l c]. by apply H.
Qed.

End MonadFacts.

(** ** Evaluating a computation

    [exec_m] unfolds the plumbing of [M] and the field updates of the three
    states, and nothing else. *)

Ltac exec_m :=
  cbv beta iota zeta delta
    [bind ret throw get_state modify emit try_catch zoom await negb
     Recorder.getNextPort Recorder.set_recordings
     Mediasoup.set_transports Mediasoup.set_producers Mediasoup.set_consumers
     Websocket.set_clients Websocket.set_streamers Websocket.set_masters
     Websocket.set_mediasoup Websocket.set_recorder
     Websocket.in_mediasoup Websocket.in_recorder];
  cbn [state log completion app for_each
       Recorder.recordings Recorder.nextRtpPort Recorder.ffmpegAvailable
       Mediasoup.transports Mediasoup.producers Mediasoup.consumers
       Websocket.clients Websocket.streamers Websocket.masters
       Websocket.mediasoup Websocket.recorder].

(** ** Logs *)

Section Logs.

Lemma frames_app l1 l2 : frames (l1 ++ l2) = frames l1 ++ frames l2.
Proof. apply omap_app. Qed.






Lemma filter_all {A} (P : A → Prop) `{!∀ x, Decision (P x)} (l : list A) :
  Forall P l → filter P l = l.
Proof.
  induction 1 as [|x l Hx _ IH]; [done|]. by rewrite filter_cons, decide_True, IH.
Qed.


End Logs.

(** ** The recorder *)

Section RecorderFacts.
Import Recorder.

Lemma stopRecording_absent producerId env s :
  jm_get producerId (recordings s) = None →
  stopRecording producerId env s = mkOutcome s [] (Normal None).
Proof.
  intros Hnone. unfold stopRecording. exec_m. rewrite Hnone. reflexivity.
Qed.

Lemma after_calls_port n : ∀ s j,
  0 ≤ j ≤ 5000 → nextRtpPort s = 20000 + 2 * j →
  nextRtpPort (after_calls n s) = 20000 + 2 * ((j + Z.of_nat n) `mod` 5001).
Proof.
  induction n as [|n IH]; intros s j Hj Hs.
  - cbn [after_calls]. rewrite Z.add_0_r, Z.mod_small by lia. done.
  - cbn [after_calls].
    destruct (decide (j = 5000)) as [->|Hne].
    + rewrite (IH _ 0); [|lia|exec_m; rewrite Hs; reflexivity].
      f_equal. f_equal.
      replace (5000 + Z.of_nat (S n)) with (0 + Z.of_nat n + 1 * 5001) by lia.
      by rewrite Z_mod_plus_full.
    + rewrite (IH _ (j + 1)); [|lia|].
      * do 3 f_equal. lia.
      * exec_m. rewrite Hs. destruct (30000 <? 20000 + 2 * j + 2) eqn:E; lia.
Qed.

Lemma startRecording_disabled producerId deviceName env mediasoup s :
  ffmpegAvailable s = false →
  startRecording producerId deviceName env mediasoup s = mkOutcome s [] (Normal None).
Proof.
  intros Hoff. unfold startRecording. exec_m. rewrite Hoff. reflexivity.
Qed.

Lemma startRecording_runs producerId deviceName env mediasoup s producerData :
  ffmpegAvailable s = true →
  jm_get producerId (Mediasoup.producers mediasoup) = Some producerData →
  failsAt env = None →
  let r := startRecording producerId deviceName env mediasoup s in
  let new := session producerId deviceName env (nextRtpPort s) in
  recordings (state r) = jm_set producerId new (recordings s) ∧
  log r = start_sequence producerId deviceName env producerData (nextRtpPort s) ∧
  completion r =
    Normal (Some {| started_filepath := filepath new;
                    started_filename := safeDeviceName deviceName +:+ "_" +:+
                                        timestamp (isoNow env) +:+ ".mkv" |}).
Proof.
  intros Hon Hp Hok. unfold startRecording, step, start_sequence. exec_m.
  rewrite Hon, Hp, Hok. exec_m.
  destruct (dirExists env); exec_m; done.
Qed.

Lemma start_sequence_spawned producerId deviceName env producerData rtpPort :
  spawned (start_sequence producerId deviceName env producerData rtpPort) =
  [newProcess env].
Proof. unfold start_sequence. by destruct (dirExists env). Qed.

Lemma stopRecording_run producerId env s :
  ∃ l result,
    stopRecording producerId env s =
      mkOutcome (set_recordings (jm_delete producerId) s) l (Normal result) ∧
    frames l = [] ∧
    (∀ rec, jm_get producerId (recordings s) = Some rec → shutdown_of rec ∈ l).
Proof.
  unfold stopRecording. exec_m.
  destruct (jm_get producerId (recordings s)) as [recording|] eqn:Hget.
  - destruct (consumerClosed env); exec_m; eexists _, _;
      (split; [done|]); (split; [done|]); intros rec [= <-];
      unfold shutdown_of; eauto using list_elem_of_here, list_elem_of_further.
  - exists [], None. split; [|done]. exec_m.
    rewrite jm_delete_absent by done. by destruct s.
Qed.

End RecorderFacts.

(** ** The media registry *)

Section MediasoupFacts.
Import Mediasoup.

Section CloseOwned.
Context {D : Type} (owner : D → string) (close : string → Action) (clientId : string).

Lemma close_owned_nothing entries (m : JsMap D) :
  Forall (λ e, owner e.2 ≠ clientId) entries →
  close_owned owner close clientId entries m = (m, []).
Proof.
  induction 1 as [|[id data] rest Hhead _ IH]; simpl; [done|].
  simpl in Hhead. by rewrite decide_False.
Qed.

Lemma close_owned_left entries : ∀ (m : JsMap D) k d,
  (k, d) ∈ (close_owned owner close clientId entries m).1 →
  (k, d) ∈ m ∧ ∀ d', (k, d') ∈ entries → owner d' ≠ clientId.
Proof.
  induction entries as [|[id data] rest IH]; intros m k d; simpl.
  - intros Hin. split; [done|]. by intros d' ?%elem_of_nil.
  - destruct (decide (owner data = clientId)) as [Hown|Hother]; simpl.
    + intros [[Hne Hm]%jm_delete_elem Hrest]%IH. split; [done|].
      intros d' [[= -> ->]|Hin]%elem_of_cons; [done | by apply Hrest].
    + intros [Hm Hrest]%IH. split; [done|].
      intros d' [[= -> ->]|Hin]%elem_of_cons; [done | by apply Hrest].
Qed.

Lemma close_owned_all (m : JsMap D) :
  Forall (λ e, owner e.2 ≠ clientId) (close_owned owner close clientId m m).1.
Proof.
  apply Forall_forall. intros [k d] [Hm Hfree]%close_owned_left. simpl. by apply Hfree.
Qed.
End CloseOwned.

Lemma cleanupClient_nothing clientId s :
  owns_nothing clientId s → cleanupClient clientId s = mkOutcome s [] (Normal ()).
Proof.
  intros (Hp & Hc & Ht). unfold cleanupClient.
  rewrite !close_owned_nothing by done. by destruct s.
Qed.

Lemma cleanupClient_owns_nothing clientId s :
  owns_nothing clientId (state (cleanupClient clientId s)).
Proof. repeat split; simpl; apply close_owned_all. Qed.

End MediasoupFacts.

(** ** Invariants of the recorder under every event *)

Ltac keeps_tac :=
  repeat first
    [ apply keeps_ret; apply _
    | apply keeps_throw; apply _
    | apply keeps_get_state; apply _
    | apply keeps_emit; apply _
    | apply keeps_await; apply _
    | apply keeps_bind; [apply _| |intros ?]
    | apply keeps_try_catch; [apply _| |intros ?]
    | apply keeps_for_each; [apply _|intros ?]
    | match goal with
      | |- keeps _ (match ?x with _ => _ end) => destruct x
      end ].

Global Instance preserving_preorder {S} (P : S → Prop) : PreOrder (preserving P).
Proof. split; unfold preserving; [intros s; tauto | intros s1 s2 s3; tauto]. Qed.

Global Instance on_recorder_preorder Q `{!PreOrder Q} : PreOrder (on_recorder Q).
Proof.
  split.
  - intros s. unfold on_recorder. reflexivity.
  - intros s1 s2 s3. unfold on_recorder. apply transitivity.
Qed.

Section RecorderOnly.
Import Websocket.
Context (Q : Recorder.State → Recorder.State → Prop) `{!PreOrder Q}.
Context (Hstart : ∀ producerId deviceName env ms,
           keeps Q (Recorder.startRecording producerId deviceName env ms)).
Context (Hstop : ∀ producerId env, keeps Q (Recorder.stopRecording producerId env)).

Lemma modify_keeps_recorder (f : State → State) :
  (∀ s, recorder (f s) = recorder s) → keeps (on_recorder Q) (modify f).
Proof. intros Hf s. unfold on_recorder. cbn. rewrite Hf. reflexivity. Qed.

Lemma send_keeps_recorder to ws type payload :
  keeps (on_recorder Q) (send to ws type payload).
Proof. unfold send. keeps_tac. Qed.

Lemma in_mediasoup_keeps_recorder {A} (m : M Mediasoup.State A) :
  keeps (on_recorder Q) (in_mediasoup m).
Proof.
  apply (keeps_zoom _ (λ _ _, True)); [done|].
  intros s t _. unfold on_recorder. cbn. reflexivity.
Qed.

Lemma in_recorder_keeps_recorder {A} (m : M Recorder.State A) :
  keeps Q m → keeps (on_recorder Q) (in_recorder m).
Proof. intros Hm. by apply (keeps_zoom _ Q). Qed.

Lemma broadcast_keeps_recorder type payload :
  keeps (on_recorder Q) (broadcastToMasters type payload).
Proof. unfold broadcastToMasters. keeps_tac; apply send_keeps_recorder. Qed.

Lemma the_client_keeps_recorder clientId e :
  keeps (on_recorder Q) (the_client clientId e).
Proof. unfold the_client. keeps_tac. Qed.

Ltac recorder_leaves :=
  first [ apply send_keeps_recorder | apply broadcast_keeps_recorder
        | apply the_client_keeps_recorder | apply in_mediasoup_keeps_recorder
        | by apply in_recorder_keeps_recorder
        | apply modify_keeps_recorder; intros ?; by repeat case_match ].

Lemma handleMessage_keeps_recorder clientId ws data w :
  keeps (on_recorder Q) (handleMessage clientId ws data w).
Proof. destruct data; cbn [handleMessage]; keeps_tac; recorder_leaves. Qed.

Lemma on_event_keeps_recorder ev : keeps (on_recorder Q) (on_event ev).
Proof.
  destruct ev as [c ip|c [e|data] w|c w|c rs|ev|env]; cbn [on_event].
  - unfold onConnection. keeps_tac; recorder_leaves.
  - unfold onMessage. keeps_tac; recorder_leaves.
  - unfold onMessage. keeps_tac; first [apply handleMessage_keeps_recorder | recorder_leaves].
  - unfold handleDisconnect. keeps_tac; recorder_leaves.
  - recorder_leaves.
  - recorder_leaves.
  - apply in_recorder_keeps_recorder. unfold Recorder.stopAllRecordings.
    apply keeps_bind; [apply _ | apply keeps_get_state; apply _ | intros r].
    apply keeps_for_each; [apply _ | intros producerId].
    apply keeps_bind; [apply _ | apply Hstop | intros _; apply keeps_ret; apply _].
Qed.

Lemma run_keeps_recorder events : ∀ s,
  Q (recorder s) (recorder (run_from s events)).
Proof.
  induction events as [|ev events IH]; intros s; cbn [run_from foldl].
  - reflexivity.
  - etrans; [apply (on_event_keeps_recorder ev s) | apply IH].
Qed.
End RecorderOnly.

Section RecorderInvariants.
Import Recorder.

Lemma step_keeps (Q : State → State → Prop) `{!PreOrder Q} env at_ a :
  keeps Q (step env at_ a).
Proof. unfold step. keeps_tac. Qed.

Lemma startRecording_keeps (Q : State → State → Prop) `{!PreOrder Q}
    producerId deviceName env ms :
  keeps Q getNextPort →
  (∀ rec, keeps Q (modify (set_recordings (jm_set producerId rec)))) →
  keeps Q (startRecording producerId deviceName env ms).
Proof.
  intros Hport Hset. unfold startRecording.
  keeps_tac; first [ by apply step_keeps | apply Hport | apply Hset ].
Qed.

Lemma stopRecording_keeps (Q : State → State → Prop) `{!PreOrder Q} producerId env :
  keeps Q (modify (set_recordings (jm_delete producerId))) →
  keeps Q (stopRecording producerId env).
Proof. intros Hdel. unfold stopRecording. keeps_tac. apply Hdel. Qed.

Lemma startRecording_keeps_disabled producerId deviceName env ms :
  keeps (preserving disabled) (startRecording producerId deviceName env ms).
Proof. intros s [Hoff Hnil]. by rewrite startRecording_disabled. Qed.

Lemma stopRecording_keeps_disabled producerId env :
  keeps (preserving disabled) (stopRecording producerId env).
Proof.
  intros s [Hoff Hnil]. rewrite stopRecording_absent; [done|]. by rewrite Hnil.
Qed.

Lemma startRecording_keeps_sessions producerId deviceName env ms :
  keeps (preserving one_session_each) (startRecording producerId deviceName env ms).
Proof.
  apply startRecording_keeps; [apply _| |].
  - intros s H. exact H.
  - intros rec s H. by apply jm_set_NoDup.
Qed.

Lemma stopRecording_keeps_sessions producerId env :
  keeps (preserving one_session_each) (stopRecording producerId env).
Proof.
  apply stopRecording_keeps; [apply _|]. intros s H. by apply jm_delete_NoDup.
Qed.

Lemma getNextPort_keeps_range : keeps (preserving port_in_range) getNextPort.
Proof.
  intros s (j & Hj & Hs). unfold port_in_range. cbn. rewrite Hs.
  destruct (30000 <? 20000 + 2 * j + 2) eqn:E.
  - exists 0. lia.
  - exists (j + 1). lia.
Qed.

Lemma startRecording_keeps_range producerId deviceName env ms :
  keeps (preserving port_in_range) (startRecording producerId deviceName env ms).
Proof.
  apply startRecording_keeps; [apply _|apply getNextPort_keeps_range|].
  intros rec s H. exact H.
Qed.

Lemma stopRecording_keeps_range producerId env :
  keeps (preserving port_in_range) (stopRecording producerId env).
Proof. apply stopRecording_keeps; [apply _|]. intros s H. exact H. Qed.
End RecorderInvariants.

(** ** The dispatch *)

Section WebsocketFacts.
Import Websocket.

Lemma state_eta s :
  {| clients := clients s; streamers := streamers s; masters := masters s;
     mediasoup := mediasoup s; recorder := recorder s |} = s.
Proof. by destruct s. Qed.

Lemma send_log to ws type payload s :
  send to ws type payload s = mkOutcome s (reply to ws type payload) (Normal ()).
Proof. unfold send, reply. by destruct (decide (ws = OPEN)). Qed.

Lemma broadcast_each type payload s (l : list string) : ∀ s0,
  for_each l (λ masterId,
    match clients s !! masterId with
    | Some master =>
        if decide (ws master = OPEN) then send masterId (ws master) type payload
        else ret ()
    | None => ret ()
    end) s0 =
  mkOutcome s0 (map (λ m, WsSend m type payload)
                    (filter (λ m, socket_of m s = OPEN) l)) (Normal ()).
Proof.
  induction l as [|m l IH]; intros s0; cbn [for_each]; [done|].
  unfold bind at 1. rewrite filter_cons.
  destruct (clients s !! m) as [c|] eqn:Hc.
  - assert (socket_of m s = ws c) as Hsock by (unfold socket_of; by rewrite Hc).
    destruct (decide (ws c = OPEN)) as [Hopen|Hclosed].
    + rewrite send_log; unfold reply; rewrite !decide_True by congruence. rewrite IH. done.
    + exec_m. rewrite IH. rewrite decide_False by congruence. done.
  - assert (socket_of m s = CLOSED) as Hsock by (unfold socket_of; by rewrite Hc).
    exec_m. rewrite IH. rewrite decide_False by congruence. done.
Qed.

Lemma broadcastToMasters_run type payload s :
  broadcastToMasters type payload s =
  mkOutcome s (map (λ m, WsSend m type payload) (recipients s)) (Normal ()).
Proof.
  unfold broadcastToMasters, bind at 1, get_state. rewrite broadcast_each. done.
Qed.

Lemma recipients_same s s' :
  clients s' = clients s → masters s' = masters s → recipients s' = recipients s.
Proof.
  intros Hc Hm. unfold recipients. rewrite Hm. apply list_filter_iff. intros m.
  unfold socket_of. by rewrite Hc.
Qed.



Lemma register_run clientId ws0 role dn w s c :
  clients s !! clientId = Some c →
  handleMessage clientId ws0 (Register role dn) w s =
  let name := nameOrDefault dn clientId in
  let s1 := set_clients (insert clientId (registered_client c role name)) s in
  let registered := reply clientId ws0 "registered" (PRegistered role name) in
  if decide (role = Some "streamer") then
    let s2 := set_streamers (jm_set clientId (fresh_streamer name)) s1 in
    mkOutcome s2
      (map (λ m, WsSend m "streamer-joined" (PStreamerJoined clientId name))
           (recipients s2) ++ registered)
      (Normal ())
  else if decide (role = Some "master") then
    let s2 := set_masters (set_add clientId) s1 in
    mkOutcome s2
      (reply clientId ws0 "streamer-list" (PStreamerList (streamerList s2)) ++ registered)
      (Normal ())
  else mkOutcome s1 registered (Normal ()).
Proof.
  intros Hc. unfold handleMessage, the_client. exec_m. rewrite Hc.
  destruct (decide (role = Some "streamer")) as [Hs|Hs].
  - exec_m. rewrite broadcastToMasters_run, send_log. done.
  - destruct (decide (role = Some "master")) as [Hm|Hm].
    + exec_m. rewrite !send_log. done.
    + exec_m. rewrite send_log. done.
Qed.

Lemma jm_get_delete_None {V} k k' (m : JsMap V) :
  jm_get k m = None → jm_get k (jm_delete k' m) = None.
Proof.
  intros H. destruct (decide (k' = k)) as [->|Hne].
  - apply jm_get_delete_eq.
  - by rewrite jm_get_delete_ne.
Qed.

Lemma without_recordings_fields ids : ∀ r,
  Recorder.ffmpegAvailable (without_recordings ids r) = Recorder.ffmpegAvailable r ∧
  Recorder.nextRtpPort (without_recordings ids r) = Recorder.nextRtpPort r ∧
  (∀ k, jm_get k (Recorder.recordings r) = None →
        jm_get k (Recorder.recordings (without_recordings ids r)) = None) ∧
  (∀ k, k ∈ ids → jm_get k (Recorder.recordings (without_recordings ids r)) = None).
Proof.
  induction ids as [|p ids IH]; intros r; cbn [without_recordings foldl].
  - repeat split; [done|]. by intros k ?%elem_of_nil.
  - destruct (IH (Recorder.set_recordings (jm_delete p) r)) as (Ha & Hp & Hnone & Hin).
    unfold without_recordings in *. repeat split; [done..| |].
    + intros k Hk. apply Hnone. cbn. by apply jm_get_delete_None.
    + intros k [->|Hk]%elem_of_cons; [|by apply Hin].
      apply Hnone. cbn. apply jm_get_delete_eq.
Qed.

Lemma stop_loop (ids : list ProducerRef) (env : string → Recorder.StopEnv) : ∀ s,
  ∃ l,
    for_each ids (λ producer,
      exec in_recorder (Recorder.stopRecording (ref_id producer) (env (ref_id producer)));
      ret ()) s =
    mkOutcome (set_recorder (without_recordings (map ref_id ids) (recorder s)) s) l
              (Normal ()) ∧
    frames l = [] ∧
    (∀ p rec, p ∈ ids →
       jm_get (ref_id p) (Recorder.recordings (recorder s)) = Some rec →
       shutdown_of rec ∈ l).
Proof.
  set (body := λ producer : ProducerRef, _).
  induction ids as [|p ids IH]; intros s; cbn [for_each map without_recordings foldl].
  - exists []. split; [|split; [done|]].
    + exec_m. by destruct s.
    + by intros p rec ?%elem_of_nil.
  - destruct (stopRecording_run (ref_id p) (env (ref_id p)) (recorder s))
      as (l1 & result & Hrun & Hl1 & Hstop1).
    destruct (IH (set_recorder (Recorder.set_recordings (jm_delete (ref_id p)) (recorder s)) s))
      as (l2 & Hloop & Hl2 & Hstop2).
    exists (l1 ++ l2). split; [|split; [by rewrite frames_app, Hl1, Hl2|]].
    + unfold bind at 1. unfold body at 1. unfold bind at 1. unfold in_recorder, zoom.
      rewrite Hrun. cbv beta iota zeta delta [ret]. rewrite Hloop. cbn [app].
      rewrite app_nil_r. done.
    + intros q rec Hq Hget. apply elem_of_app.
      destruct (decide (ref_id q = ref_id p)) as [Heq|Hne].
      * left. apply Hstop1. by rewrite <- Heq.
      * right. apply elem_of_cons in Hq as [->|Hq]; [done|].
        apply (Hstop2 q rec Hq). cbn. by rewrite jm_get_delete_ne.
Qed.

Lemma close_owned_silent {D} (owner : D → string) close clientId entries : ∀ (m : JsMap D),
  (∀ k, frames [close k] = []) →
  frames (Mediasoup.close_owned owner close clientId entries m).2 = [].
Proof.
  intros m Hclose. revert m.
  induction entries as [|[id data] rest IH]; intros m; cbn [Mediasoup.close_owned]; [done|].
  destruct (decide (owner data = clientId)); [|apply IH].
  cbn [snd]. change (close id :: ?l) with ([close id] ++ l).
  by rewrite frames_app, Hclose, IH.
Qed.

Lemma cleanupClient_silent clientId ms :
  frames (log (Mediasoup.cleanupClient clientId ms)) = [].
Proof.
  unfold Mediasoup.cleanupClient. cbn [log].
  by rewrite !frames_app, !close_owned_silent.
Qed.

Lemma cleanupClient_completes clientId ms :
  completion (Mediasoup.cleanupClient clientId ms) = Normal ().
Proof. done. Qed.

Lemma the_client_run clientId e s c :
  clients s !! clientId = Some c → the_client clientId e s = mkOutcome s [] (Normal c).
Proof. intros Hc. unfold the_client. rewrite bind_unfold, get_state_run, Hc. done. Qed.

Lemma stop_streaming_run clientId ws0 w s c :
  clients s !! clientId = Some c →
  ∃ l0,
    frames l0 = [] ∧
    (∀ p rec, p ∈ Mediasoup.getProducersByClient clientId (mediasoup s) →
       jm_get (ref_id p) (Recorder.recordings (recorder s)) = Some rec →
       shutdown_of rec ∈ l0) ∧
    handleMessage clientId ws0 StopStreaming w s =
    mkOutcome (stopped_streaming clientId s)
      (l0 ++
       (if jm_has clientId (streamers s)
        then map (λ m, WsSend m "streamer-left" (PStreamerLeft clientId (deviceName c)))
                 (recipients s)
        else []) ++
       reply clientId ws0 "streaming-stopped" (PStreamingStopped true))
      (Normal ()).
Proof.
  intros Hc.
  destruct (stop_loop (Mediasoup.getProducersByClient clientId (mediasoup s)) (stopEnv w) s)
    as (l1 & Hloop & Hl1 & Hstop).
  exists (l1 ++ log (Mediasoup.cleanupClient clientId (mediasoup s))).
  split; [by rewrite frames_app, Hl1, cleanupClient_silent|].
  split; [intros p rec Hp Hget; apply elem_of_app; left; by eapply Hstop|].
  unfold handleMessage.
  rewrite bind_unfold, (the_client_run _ _ _ _ Hc). cbv beta iota.
  rewrite bind_unfold, get_state_run. cbv beta iota.
  rewrite bind_unfold, Hloop. cbv beta iota.
  rewrite bind_unfold. unfold in_mediasoup. rewrite zoom_unfold.
  cbn [mediasoup set_recorder].
  destruct (Mediasoup.cleanupClient clientId (mediasoup s)) as [ms' lc cc] eqn:Hclean.
  assert (cc = Normal ()) as ->
    by (by rewrite <- (cleanupClient_completes clientId (mediasoup s)), Hclean).
  cbv beta iota.
  rewrite bind_unfold, get_state_run. cbv beta iota.
  cbn [streamers set_mediasoup log state].
  unfold stopped_streaming. rewrite Hclean. cbn [state].
  exec_m. unfold jm_has.
  destruct (jm_get clientId (streamers s)) as [st|] eqn:Hst.
  - rewrite broadcastToMasters_run, send_log. exec_m.
    f_equal. rewrite <- !app_assoc. done.
  - rewrite send_log. exec_m.
    rewrite (jm_delete_absent _ _ Hst). f_equal. rewrite <- !app_assoc. done.
Qed.

End WebsocketFacts.

(** ** What leaves clients, masters and the order of streamers alone *)

Section Registry.
Import Websocket.

Global Instance same_registry_preorder : PreOrder same_registry.
Proof.
  split.
  - intros s. by repeat split.
  - intros s1 s2 s3 (H1 & H2 & H3) (H4 & H5 & H6). repeat split; congruence.
Qed.

Lemma send_keeps_registry to ws type payload :
  keeps same_registry (send to ws type payload).
Proof. unfold send. keeps_tac. Qed.

Lemma broadcast_keeps_registry type payload :
  keeps same_registry (broadcastToMasters type payload).
Proof. unfold broadcastToMasters. keeps_tac; apply send_keeps_registry. Qed.

Lemma the_client_keeps_registry clientId e :
  keeps same_registry (the_client clientId e).
Proof. unfold the_client. keeps_tac. Qed.

Lemma in_mediasoup_keeps_registry {A} (m : M Mediasoup.State A) :
  keeps same_registry (in_mediasoup m).
Proof. apply (keeps_zoom _ (λ _ _, True)); [done|]. by intros s t _. Qed.

Lemma in_recorder_keeps_registry {A} (m : M Recorder.State A) :
  keeps same_registry (in_recorder m).
Proof. apply (keeps_zoom _ (λ _ _, True)); [done|]. by intros s t _. Qed.

(** [streamer.transports.push(id)] and [streamer.producers.push(id)] change
    a record that is already in the map. *)
Lemma push_keeps_registry clientId (f : Streamer → Streamer) :
  keeps same_registry (modify (λ s,
    match jm_get clientId (streamers s) with
    | Some streamer => set_streamers (jm_set clientId (f streamer)) s
    | None => s
    end)).
Proof.
  intros s. cbn [modify state].
  destruct (jm_get clientId (streamers s)) as [st|] eqn:Hget; [|done].
  repeat split. cbn. apply jm_keys_set_present. congruence.
Qed.

Ltac registry_leaves :=
  first [ apply send_keeps_registry | apply broadcast_keeps_registry
        | apply the_client_keeps_registry | apply in_mediasoup_keeps_registry
        | apply in_recorder_keeps_registry ].

Lemma handleMessage_keeps_registry clientId ws data w :
  (∀ role deviceName, data ≠ Register role deviceName) → data ≠ StopStreaming →
  keeps same_registry (handleMessage clientId ws data w).
Proof.
  intros Hreg Hstop.
  destruct data as [r d| | | | | | | | | | | |]; try done; [by destruct (Hreg r d)|..];
    cbn [handleMessage]; keeps_tac;
    first [ registry_leaves | apply push_keeps_registry ].
Qed.
End Registry.

(** ** One event at a time *)

Section Events.
Import Websocket.

Lemma onMessage_normal clientId data w s s' l :
  handleMessage clientId (socket_of clientId s) data w s = mkOutcome s' l (Normal ()) →
  onMessage clientId (Parsed data) w s = mkOutcome s' l (Normal ()).
Proof.
  intros H. unfold onMessage.
  rewrite bind_unfold, get_state_run. cbv beta iota zeta.
  rewrite try_catch_unfold, H. done.
Qed.

Lemma onMessage_throw clientId data w s s' l e :
  handleMessage clientId (socket_of clientId s) data w s = mkOutcome s' l (Throw e) →
  onMessage clientId (Parsed data) w s =
  mkOutcome s' (l ++ reply clientId (socket_of clientId s) "error" (PError e)) (Normal ()).
Proof.
  intros H. unfold onMessage.
  rewrite bind_unfold, get_state_run. cbv beta iota zeta.
  rewrite try_catch_unfold, H, send_log. done.
Qed.

Lemma onMessage_unparsable clientId e w s :
  onMessage clientId (Unparsable e) w s =
  mkOutcome s (reply clientId (socket_of clientId s) "error" (PError e)) (Normal ()).
Proof.
  unfold onMessage. rewrite bind_unfold, get_state_run. cbv beta iota zeta.
  rewrite try_catch_unfold. unfold throw. rewrite send_log. done.
Qed.

Lemma onMessage_keeps R `{!PreOrder R} clientId data w :
  (∀ ws, keeps R (handleMessage clientId ws data w)) →
  (∀ to ws type payload, keeps R (send to ws type payload)) →
  keeps R (onMessage clientId (Parsed data) w).
Proof. intros Hh Hs. unfold onMessage. keeps_tac; [apply Hh | apply Hs]. Qed.

Lemma onMessage_register clientId role dn w s c :
  clients s !! clientId = Some c →
  state (onMessage clientId (Parsed (Register role dn)) w s) = registered clientId c role dn s.
Proof.
  intros Hc.
  pose proof (register_run clientId (socket_of clientId s) role dn w s c Hc) as Hrun.
  cbv zeta in Hrun. unfold registered.
  destruct (decide (role = Some "streamer")).
  - by rewrite (onMessage_normal _ _ _ _ _ _ Hrun).
  - destruct (decide (role = Some "master")); by rewrite (onMessage_normal _ _ _ _ _ _ Hrun).
Qed.

Lemma the_client_absent clientId e s :
  clients s !! clientId = None → the_client clientId e s = mkOutcome s [] (Throw e).
Proof. intros Hc. unfold the_client. rewrite bind_unfold, get_state_run, Hc. done. Qed.

Lemma onMessage_needs_client clientId data w s :
  clients s !! clientId = None →
  (∃ role dn, data = Register role dn) ∨ data = StopStreaming →
  state (onMessage clientId (Parsed data) w s) = s.
Proof.
  intros Hc Hdata.
  assert (∃ e, handleMessage clientId (socket_of clientId s) data w s =
               mkOutcome s [] (Throw e)) as [e Hrun].
  { destruct Hdata as [(role & dn & ->)| ->]; eexists; unfold handleMessage;
      by rewrite bind_unfold, (the_client_absent _ _ _ Hc). }
  by rewrite (onMessage_throw _ _ _ _ _ _ _ Hrun).
Qed.

Lemma onMessage_stop_streaming clientId w s c :
  clients s !! clientId = Some c →
  state (onMessage clientId (Parsed StopStreaming) w s) = stopped_streaming clientId s.
Proof.
  intros Hc.
  destruct (stop_streaming_run clientId (socket_of clientId s) w s c Hc)
    as (l0 & _ & _ & Hrun).
  by rewrite (onMessage_normal _ _ _ _ _ _ Hrun).
Qed.

Lemma handleDisconnect_absent clientId w s :
  clients s !! clientId = None → handleDisconnect clientId w s = mkOutcome s [] (Normal ()).
Proof. intros Hc. unfold handleDisconnect. by rewrite bind_unfold, get_state_run, Hc. Qed.

Lemma handleDisconnect_state clientId w s c :
  clients s !! clientId = Some c →
  state (handleDisconnect clientId w s) = disconnected clientId s.
Proof.
  intros Hc.
  destruct (stop_loop (Mediasoup.getProducersByClient clientId (mediasoup s)) (stopEnv w) s)
    as (l1 & Hloop & _).
  unfold handleDisconnect.
  rewrite bind_unfold, get_state_run, Hc. cbv beta iota.
  rewrite bind_unfold, Hloop. cbv beta iota.
  rewrite bind_unfold. unfold in_mediasoup. rewrite zoom_unfold.
  cbn [mediasoup set_recorder].
  unfold disconnected.
  destruct (Mediasoup.cleanupClient clientId (mediasoup s)) as [ms' lc cc] eqn:Hclean.
  assert (cc = Normal ()) as ->
    by (by rewrite <- (cleanupClient_completes clientId (mediasoup s)), Hclean).
  cbv beta iota.
  rewrite bind_unfold, get_state_run. cbv beta iota.
  exec_m. unfold jm_has.
  destruct (jm_get clientId (streamers s)) as [st|] eqn:Hst.
  - rewrite broadcastToMasters_run. exec_m. done.
  - exec_m. by rewrite (jm_delete_absent _ _ Hst).
Qed.
End Events.

(** ** What every reachable state satisfies *)

Section Invariant.
Import Websocket.

Local Ltac fields :=
  cbn [clients streamers masters mediasoup recorder connected order
       role registered_client unregistered].

Lemma set_add_NoDup id l : NoDup l → NoDup (set_add id l).
Proof.
  intros Hnd. unfold set_add. destruct (decide (id ∈ l)); [done|].
  apply NoDup_app. split; [done|]. split; [|apply NoDup_singleton].
  by intros x Hx ->%list_elem_of_singleton.
Qed.

Lemma jm_keys_set {V} k (v : V) m :
  jm_keys (jm_set k v m) = if decide (k ∈ jm_keys m) then jm_keys m else jm_keys m ++ [k].
Proof.
  destruct (decide (k ∈ jm_keys m)) as [Hin|Hnot].
  - apply jm_keys_set_present. by intros Hn%jm_get_None_keys.
  - apply jm_keys_set_fresh. by apply jm_get_None_keys.
Qed.

Lemma same_registry_inv g s s' :
  same_registry s s' → registry_inv g s → registry_inv g s'.
Proof. intros (Hc & Hk & Hm) [Hdom Hkeys]. split; congruence. Qed.

Lemma same_registry_well_formed s s' :
  same_registry s s' → well_formed s → well_formed s'.
Proof.
  intros (Hc & Hk & Hm) (Hmasters & Hkeys & Hrole). unfold well_formed.
  rewrite Hc, Hk, Hm.
  split; [done|]. split; [done|]. intros id c Hid Hr.
  rewrite jm_get_None_keys, Hk, <- jm_get_None_keys. by eapply Hrole.
Qed.

Lemma on_event_invariant g s ev :
  registry_inv g s → well_formed s →
  registry_inv (registry_step g ev) (state (on_event ev s)) ∧
  well_formed (state (on_event ev s)).
Proof.
  intros [Hdom Hkeys] (Hmasters & Hnodup & Hrole).
  assert (∀ id, id ∈ connected g ↔ is_Some (clients s !! id)) as Hconn.
  { intros id. by rewrite <- Hdom, elem_of_dom. }
  destruct ev as [c ip|c [e|data] w|c w|c rs|ev|env]; cbn [on_event registry_step].
  - (* a connection *)
    unfold onConnection. exec_m. rewrite send_log. cbn [state].
    split; [split; fields; [by rewrite dom_insert_L, Hdom | done]|].
    split; [done|]. split; [done|]. fields. intros id cl.
    destruct (decide (c = id)) as [->|Hne].
    + rewrite lookup_insert_eq. by intros [= <-].
    + rewrite lookup_insert_ne by done. apply Hrole.
  - (* a frame that does not parse *)
    rewrite onMessage_unparsable. cbn [state]. by repeat split.
  - (* a message *)
    assert (∀ d, (∀ role dn, d ≠ Register role dn) → d ≠ StopStreaming →
            registry_inv g (state (onMessage c (Parsed d) w s)) ∧
            well_formed (state (onMessage c (Parsed d) w s))) as Hother.
    { intros d Hnoreg Hnostop.
      assert (same_registry s (state (onMessage c (Parsed d) w s))) as Hsame.
      { apply onMessage_keeps; [apply _| |apply send_keeps_registry].
        intros ws. by apply handleMessage_keeps_registry. }
      split; [by eapply same_registry_inv | by eapply same_registry_well_formed]. }
    destruct data as [role dn| | | | | | | | | | | |];
      try (apply Hother; [intros ? ?; discriminate | discriminate]).
    + (* register *)
      destruct (clients s !! c) as [cl|] eqn:Hc.
      * rewrite (onMessage_register _ _ _ _ _ _ Hc).
        assert (c ∈ connected g) as Hin by (apply Hconn; by rewrite Hc).
        assert ({[c]} ∪ connected g = connected g) as Hsame
          by (apply subseteq_union_1_L; by apply singleton_subseteq_l).
        unfold registered.
        destruct (decide (role = Some "streamer")) as [->|Hr].
        -- rewrite (decide_True (P := _ ∧ _)) by done.
           split; [split|split; [|split]]; fields.
           ++ by rewrite dom_insert_L, Hdom.
           ++ by rewrite jm_keys_set, Hkeys.
           ++ done.
           ++ by apply jm_set_NoDup.
           ++ intros id cl'. destruct (decide (c = id)) as [->|Hne].
              ** intros _ _. by rewrite jm_get_set_eq.
              ** rewrite lookup_insert_ne by done. intros Hid Hr.
                 rewrite jm_get_set_ne by done. by eapply Hrole.
        -- rewrite (decide_False (P := _ ∧ _)) by (intros [_ ?]; done).
           split; [split|split; [|split]]; fields.
           ++ by rewrite dom_insert_L, Hdom.
           ++ done.
           ++ destruct (decide (role = Some "master")); [by apply set_add_NoDup | done].
           ++ done.
           ++ intros id cl'. destruct (decide (c = id)) as [->|Hne].
              ** rewrite lookup_insert_eq. intros [= <-]. cbn. done.
              ** rewrite lookup_insert_ne by done. apply Hrole.
      * rewrite onMessage_needs_client by eauto.
        rewrite decide_False; [by repeat split|].
        intros [Hin _]. apply Hconn in Hin. rewrite Hc in Hin. by destruct Hin.
    + (* stop-streaming *)
      destruct (clients s !! c) as [cl|] eqn:Hc.
      * rewrite (onMessage_stop_streaming _ _ _ _ Hc).
        rewrite decide_True by (apply Hconn; by rewrite Hc).
        unfold stopped_streaming. split; [split|split; [|split]]; fields.
        -- rewrite <- Hdom. apply set_eq. intros id. rewrite !elem_of_dom.
           rewrite lookup_alter. destruct (decide (c = id)) as [->|]; [|done].
           rewrite Hc. cbn. split; eauto.
        -- by rewrite jm_keys_delete, Hkeys.
        -- done.
        -- by apply jm_delete_NoDup.
        -- intros id cl'. rewrite lookup_alter.
           destruct (decide (c = id)) as [->|Hne].
           ++ rewrite Hc. cbn. by intros [= <-].
           ++ intros Hid Hr. rewrite jm_get_delete_ne by done. by eapply Hrole.
      * rewrite onMessage_needs_client by eauto.
        rewrite decide_False; [by repeat split|].
        intros Hin. apply Hconn in Hin. rewrite Hc in Hin. by destruct Hin.
  - (* the connection closes *)
    destruct (clients s !! c) as [cl|] eqn:Hc.
    + rewrite (handleDisconnect_state _ _ _ _ Hc).
      rewrite decide_True by (apply Hconn; by rewrite Hc).
      unfold disconnected. split; [split|split; [|split]]; fields.
      * by rewrite dom_delete_L, Hdom.
      * by rewrite jm_keys_delete, Hkeys.
      * by apply NoDup_filter.
      * by apply jm_delete_NoDup.
      * intros id cl'. destruct (decide (c = id)) as [->|Hne].
        -- by rewrite lookup_delete_eq.
        -- rewrite lookup_delete_ne by done. intros Hid Hr.
           rewrite jm_get_delete_ne by done. by eapply Hrole.
    + rewrite handleDisconnect_absent by done.
      rewrite decide_False; [by repeat split|].
      intros Hin. apply Hconn in Hin. rewrite Hc in Hin. by destruct Hin.
  - (* the state of a socket changes *)
    exec_m. split; [split|split; [|split]]; fields; [|done..|].
    + rewrite <- Hdom. apply set_eq. intros id. rewrite !elem_of_dom, lookup_alter.
      destruct (decide (c = id)) as [->|]; [|done].
      destruct (clients s !! id); cbn; split; eauto; intros [? ?]; done.
    + intros id cl'. rewrite lookup_alter.
      destruct (decide (c = id)) as [->|Hne]; [|apply Hrole].
      destruct (clients s !! id) as [cl|] eqn:Hc; [|done]. cbn. intros [= <-]. cbn.
      by apply Hrole.
  - (* the engine reports *)
    exec_m. by repeat split.
  - (* the process is told to stop *)
    pose proof (in_recorder_keeps_registry (Recorder.stopAllRecordings env) s) as Hsame.
    split; [by eapply same_registry_inv | by eapply same_registry_well_formed].
Qed.
Lemma run_invariant events : ∀ g s,
  registry_inv g s → well_formed s →
  registry_inv (foldl registry_step g events) (run_from s events) ∧
  well_formed (run_from s events).
Proof.
  induction events as [|ev events IH]; intros g s Hg Hwf; cbn [foldl run_from]; [done|].
  destruct (on_event_invariant g s ev Hg Hwf) as [Hg' Hwf'].
  by apply IH.
Qed.

Lemma reachable_invariant ffmpegFound events :
  let s := run_from (initial ffmpegFound) events in
  jm_keys (streamers s) = listing_order events ∧ well_formed s.
Proof.
  destruct (run_invariant events {| connected := ∅; order := [] |} (initial ffmpegFound))
    as [[_ Hkeys] Hwf].
  - split; [apply dom_empty_L | done].
  - split; [apply NoDup_nil_2|]. split; [apply NoDup_nil_2|]. intros id c. cbn.
    by rewrite lookup_empty.
  - done.
Qed.




End Invariant.

(** ** The media registry's properties *)

Section RegistryClaims.
Import Mediasoup.

(** C7. [cleanupClient] never throws; after it nothing in the registry
    belongs to the client; calling it again changes nothing and closes
    nothing; and for a client that owns nothing the first call already does
    nothing. *)
Theorem cleanupClient_idempotent clientId s :
  let first := cleanupClient clientId s in
  let second := cleanupClient clientId (state first) in
  completion first = Normal () ∧
  owns_nothing clientId (state first) ∧
  second = mkOutcome (state first) [] (Normal ()) ∧
  (owns_nothing clientId s → first = mkOutcome s [] (Normal ())).
Proof.
  cbv zeta. split; [done|]. split; [apply cleanupClient_owns_nothing|].
  split; [|apply cleanupClient_nothing].
  apply cleanupClient_nothing, cleanupClient_owns_nothing.
Qed.

Lemma cleanupClient_idempotent_witness :
  owns_nothing Sample.late (Websocket.mediasoup Sample.streaming) ∧
  cleanupClient Sample.late (Websocket.mediasoup Sample.streaming) =
    mkOutcome (Websocket.mediasoup Sample.streaming) [] (Normal ()).
Proof.
  assert (owns_nothing Sample.late (Websocket.mediasoup Sample.streaming)) as Hnone.
  { repeat split; vm_compute; repeat constructor; discriminate. }
  split; [exact Hnone|].
  apply (cleanupClient_idempotent Sample.late (Websocket.mediasoup Sample.streaming)).
  exact Hnone.
Defined.

End RegistryClaims.

(** ** The recorder's properties *)

Section RecorderClaims.
Import Recorder.

(** C9. Seen from any state the server can reach, [getNextPort] returns an
    even port between 20000 and 30000, so the RTCP port next to it is at
    most 30001; the call after it returns the port two higher, or 20000
    again once 30000 has been handed out. *)
Theorem getNextPort_range (ffmpegFound : bool) (events : list Websocket.Event) :
  let s := Websocket.recorder (Websocket.run_from (Websocket.initial ffmpegFound) events) in
  ∃ port,
    completion (getNextPort s) = Normal port ∧
    Z.even port = true ∧ 20000 ≤ port ≤ 30000 ∧ port + 1 ≤ 30001 ∧
    completion (getNextPort (state (getNextPort s))) =
      Normal (if port <? 30000 then port + 2 else 20000).
Proof.
  intros s.
  assert (port_in_range s) as (j & Hj & Hs).
  { apply (run_keeps_recorder (preserving port_in_range)).
    - apply startRecording_keeps_range.
    - apply stopRecording_keeps_range.
    - exists 0. split; [lia | reflexivity]. }
  exists (nextRtpPort s). cbn. rewrite Hs.
  split; [done|]. split; [by rewrite Z.even_add_mul_2|]. split; [lia|]. split; [lia|].
  f_equal. destruct (30000 <? 20000 + 2 * j + 2) eqn:E1;
    destruct (20000 + 2 * j <? 30000) eqn:E2; lia.
Qed.

(** C10. [stopRecording] for a producer id that has no entry in
    [recordings] returns [null], changes no state and does nothing to the
    outside world. *)
Theorem stopRecording_unknown_producer producerId env s :
  jm_get producerId (recordings s) = None →
  stopRecording producerId env s = mkOutcome s [] (Normal None).
Proof. apply stopRecording_absent. Qed.

Lemma stopRecording_unknown_producer_witness :
  jm_get "no-such-producer" (recordings (Websocket.recorder Sample.streaming)) = None ∧
  stopRecording "no-such-producer"
    {| stop_now := 1704164705678; consumerClosed := false |}
    (Websocket.recorder Sample.streaming) =
  mkOutcome (Websocket.recorder Sample.streaming) [] (Normal None).
Proof.
  split; [reflexivity|].
  apply (stopRecording_unknown_producer "no-such-producer"). reflexivity.
Defined.

(** C3. When no encoder was found at startup, whatever has happened since:
    [recordings] is empty, [startRecording] returns [null] without changing
    anything or throwing, [isRecordingEnabled] is false,
    [getActiveRecordings] is the empty list, and the recordings query
    answers [enabled: false] with no active recording. *)
Theorem recording_disabled_without_encoder (events : list Websocket.Event)
    producerId deviceName env ms now dirExists listing :
  let s := Websocket.recorder (Websocket.run_from (Websocket.initial false) events) in
  let answer := Index.getRecordings dirExists listing now s in
  recordings s = [] ∧
  startRecording producerId deviceName env ms s = mkOutcome s [] (Normal None) ∧
  isRecordingEnabled s = false ∧
  getActiveRecordings now s = [] ∧
  Index.enabled answer = false ∧
  default [] (Index.active answer) = [].
Proof.
  intros s answer.
  assert (disabled s) as [Hoff Hnil].
  { apply (run_keeps_recorder (preserving disabled)).
    - apply startRecording_keeps_disabled.
    - apply stopRecording_keeps_disabled.
    - done. }
  assert (getActiveRecordings now s = []) as Hactive
    by (unfold getActiveRecordings; by rewrite Hnil).
  split; [done|]. split; [by apply startRecording_disabled|]. split; [done|].
  split; [done|]. subst answer. unfold Index.getRecordings.
  destruct dirExists; [|done]. destruct listing; [|done].
  cbn [negb Index.enabled Index.active default]. by rewrite Hactive.
Qed.

(** C2, as the specification words it, fails: with a session for [p1]
    stored, a second start for [p1] spawns another encoder. *)
Lemma start_is_noop_fails :
  ¬ start_is_noop "p1" (Some "Front Door") Sample.env_again
      (Websocket.mediasoup Sample.streaming) (Websocket.recorder Sample.streaming).
Proof.
  intros H. destruct H as [_ Hspawned]; [by vm_compute|].
  vm_compute in Hspawned. discriminate.
Qed.

(** C2, amended. In every state the server can reach, [recordings] has at
    most one session per producer id.  [startRecording] does not look for
    an existing session: with the encoder available, the producer in the
    registry and no step failing, a start for a producer id that already
    has a session runs the whole start sequence again and nothing else (the
    stored session's consumer, transport and encoder are not touched),
    spawns one new encoder, puts the new session in the place of the stored
    one and returns the new file. *)
Theorem startRecording_replaces_session (ffmpegFound : bool)
    (events : list Websocket.Event) producerId deviceName env ms producerData existing :
  let s := Websocket.recorder (Websocket.run_from (Websocket.initial ffmpegFound) events) in
  let r := startRecording producerId deviceName env ms s in
  let new := session producerId deviceName env (nextRtpPort s) in
  one_session_each s ∧
  (ffmpegAvailable s = true →
   jm_get producerId (Mediasoup.producers ms) = Some producerData →
   failsAt env = None →
   jm_get producerId (recordings s) = Some existing →
   log r = start_sequence producerId deviceName env producerData (nextRtpPort s) ∧
   spawned (log r) = [newProcess env] ∧
   jm_get producerId (recordings (state r)) = Some new ∧
   jm_keys (recordings (state r)) = jm_keys (recordings s) ∧
   one_session_each (state r) ∧
   completion r =
     Normal (Some {| started_filepath := filepath new;
                     started_filename := safeDeviceName deviceName +:+ "_" +:+
                                         timestamp (isoNow env) +:+ ".mkv" |})).
Proof.
  intros s r new.
  assert (one_session_each s) as Hone.
  { apply (run_keeps_recorder (preserving one_session_each)).
    - apply startRecording_keeps_sessions.
    - apply stopRecording_keeps_sessions.
    - apply NoDup_nil_2. }
  split; [done|]. intros Hon Hp Hok Hexisting.
  destruct (startRecording_runs producerId deviceName env ms s producerData Hon Hp Hok)
    as (Hrec & Hlog & Hret).
  fold r in Hrec, Hlog, Hret. fold new in Hrec, Hret.
  split; [done|]. split; [by rewrite Hlog, start_sequence_spawned|].
  split; [by rewrite Hrec, jm_get_set_eq|].
  split; [rewrite Hrec; apply jm_keys_set_present; congruence|].
  split; [|done]. unfold one_session_each. rewrite Hrec. by apply jm_set_NoDup.
Qed.

Lemma startRecording_replaces_session_witness :
  let s := Websocket.recorder Sample.streaming in
  let r := startRecording "p1" (Some "Front Door") Sample.env_again
             (Websocket.mediasoup Sample.streaming) s in
  ffmpegAvailable s = true ∧
  jm_get "p1" (recordings s) ≠ None ∧
  spawned (log r) = ["ffmpeg-2"] ∧
  jm_keys (recordings (state r)) = ["p1"; "p2"].
Proof.
  intros s r.
  destruct (startRecording_replaces_session true Sample.events "p1" (Some "Front Door")
              Sample.env_again (Websocket.mediasoup Sample.streaming)
              {| Mediasoup.producer := "p1"; Mediasoup.p_clientId := Sample.front;
                 Mediasoup.p_deviceName := Some "Front Door"; Mediasoup.p_kind := "video" |}
              (session "p1" (Some "Front Door") Sample.env 20000))
    as [_ H].
  destruct H as (_ & Hspawn & _ & Hkeys & _); [reflexivity..|].
  split; [reflexivity|]. split; [by vm_compute|]. split; [exact Hspawn|].
  etrans; [exact Hkeys | reflexivity].
Defined.
End RecorderClaims.

(** ** The dispatch's properties *)

Section DispatchClaims.
Import Websocket.


Lemma streamerList_ids s : map entry_clientId (streamerList s) = jm_keys (streamers s).
Proof.
  unfold streamerList, jm_keys. induction (streamers s) as [|[id st] l IH]; [done|].
  csimpl. by rewrite IH.
Qed.




(** A [pan-zoom] frame without payload, as the first streamer of the sample
    may send it. *)
Example pan_zoom_without_payload :
  log (onMessage Sample.front (Parsed (NoPayload TPanZoom JsUndefined)) (Sample.world "")
         Sample.streaming) =
  [WsSend Sample.front "error"
     (PError "Cannot destructure property 'targetClientId' of 'payload' as it is undefined.")].
Proof. vm_compute. reflexivity. Qed.

(** C4. A [consume] naming a producer id that is not in [producers]
    changes no state and writes at most one frame: an [error] to the sender
    saying that the transport or the producer was not found.  A [consume]
    that [canConsume] refuses changes no state and creates no consumer, and
    a consumer is only ever created after [canConsume] has returned true
    for a producer that exists. *)
Theorem consume_unknown_producer clientId w s transportId producerId :
  let r := onMessage clientId (Parsed (Consume transportId producerId)) w s in
  (jm_get producerId (Mediasoup.producers (mediasoup s)) = None →
   state r = s ∧
   ∃ message,
     (message = "Transport " +:+ transportId +:+ " not found" ∨
      message = "Producer " +:+ producerId +:+ " not found") ∧
     log r = if decide (socket_of clientId s = OPEN)
             then [WsSend clientId "error" (PError message)] else []) ∧
  (Mediasoup.canConsume (engine w) = false →
   state r = s ∧ consumers_created (log r) = []) ∧
  (consumers_created (log r) ≠ [] →
   Mediasoup.canConsume (engine w) = true ∧
   jm_get producerId (Mediasoup.producers (mediasoup s)) ≠ None).
Proof.
  unfold onMessage, handleMessage, Mediasoup.createConsumer. exec_m.
  destruct (jm_get transportId (Mediasoup.transports (mediasoup s))) as [td|]; exec_m.
  - destruct (jm_get producerId (Mediasoup.producers (mediasoup s))) as [pd|]; exec_m.
    + destruct (Mediasoup.canConsume (engine w)); exec_m.
      * split; [done|]. split; [done|]. done.
      * rewrite send_log, state_eta. unfold reply. exec_m.
        split; [done|]. split; [|by destruct (decide _)].
        split; [done | by destruct (decide _)].
    + rewrite send_log, state_eta. unfold reply. exec_m. split.
      * intros _. split; [done|]. eexists. split; [by right|]. done.
      * split; by destruct (decide _).
  - rewrite send_log, state_eta. unfold reply. exec_m. split.
    + intros _. split; [done|]. eexists. split; [by left|]. done.
    + split; by destruct (decide _).
Qed.

Lemma consume_unknown_producer_witness :
  let r := onMessage Sample.viewer (Parsed (Consume "t0" "no-such-producer"))
             (Sample.world "c1") Sample.streaming in
  jm_get "no-such-producer" (Mediasoup.producers (mediasoup Sample.streaming)) = None ∧
  state r = Sample.streaming.
Proof.
  intros r.
  assert (jm_get "no-such-producer" (Mediasoup.producers (mediasoup Sample.streaming)) = None)
    as Hnone by (vm_compute; reflexivity).
  split; [exact Hnone|].
  destruct (consume_unknown_producer Sample.viewer (Sample.world "c1") Sample.streaming
              "t0" "no-such-producer") as [H _].
  destruct (H Hnone) as [Hstate _]. exact Hstate.
Defined.





(** What the masters and the sender are sent when the first streamer of
    the sample registers again, as streamer and as master. *)
Example register_again_frames :
  log (onMessage Sample.front (Parsed (Register (Some "streamer") (Some "Porch")))
         (Sample.world "") Sample.streaming) =
  [ WsSend Sample.viewer "streamer-joined" (PStreamerJoined Sample.front "Porch");
    WsSend Sample.front "registered" (PRegistered (Some "streamer") "Porch") ] ∧
  log (onMessage Sample.front (Parsed (Register (Some "master") (Some "Porch")))
         (Sample.world "") Sample.streaming) =
  [ WsSend Sample.front "streamer-list"
      (PStreamerList
         [ {| entry_clientId := Sample.front; entry_deviceName := "Front Door";
              entry_producers := [{| ref_id := "p1"; ref_kind := "video" |}] |};
           {| entry_clientId := Sample.yard; entry_deviceName := "Device-bbbbbbbb";
              entry_producers := [{| ref_id := "p2"; ref_kind := "video" |}] |} ]);
    WsSend Sample.front "registered" (PRegistered (Some "master") "Porch") ].
Proof. split; vm_compute; reflexivity. Qed.




(** The scenario of the specification: the two streamers are listed, each
    with its producer, in the order in which they registered. *)
Example two_streamers_listed :
  sent_to Sample.late "streamer-list"
    (log (onMessage Sample.late (Parsed (Register (Some "master") None)) (Sample.world "")
            Sample.streaming)) =
  [PStreamerList
     [ {| entry_clientId := Sample.front; entry_deviceName := "Front Door";
          entry_producers := [{| ref_id := "p1"; ref_kind := "video" |}] |};
       {| entry_clientId := Sample.yard; entry_deviceName := "Device-bbbbbbbb";
          entry_producers := [{| ref_id := "p2"; ref_kind := "video" |}] |} ]] ∧
  registration_order Sample.events = [Sample.front; Sample.yard] ∧
  listing_order Sample.events = [Sample.front; Sample.yard].
Proof. repeat split; vm_compute; reflexivity. Qed.

(** After the first streamer has registered as master its role is
    [master], the one registered streamer is the second, and both are
    listed. *)
Example role_changed_listing :
  role <$> clients (run_from (initial true) Sample.role_changed) !! Sample.front =
    Some (Some "master") ∧
  registration_order Sample.role_changed = [Sample.yard] ∧
  listing_order Sample.role_changed = [Sample.front; Sample.yard].
Proof. repeat split; vm_compute; reflexivity. Qed.

(** The viewer of the sample is the one client that is told when the first
    streamer stops. *)
Example viewer_is_told_once :
  recipients Sample.streaming = [Sample.viewer] ∧
  frames (log (onMessage Sample.front (Parsed StopStreaming) (Sample.world "")
                 Sample.streaming)) =
  [ (Sample.viewer, "streamer-left", PStreamerLeft Sample.front (Some "Front Door"));
    (Sample.front, "streaming-stopped", PStreamingStopped true) ].
Proof. split; vm_compute; reflexivity. Qed.
End DispatchClaims.

(** ** JavaScript strings *)

Section StringFacts.

Lemma split_on_pieces sep s : split_on sep s ≠ [].
Proof.
  destruct s as [|c s]; cbn [split_on]; [done|].
  destruct (decide (c = sep)); [done|]. by destruct (split_on sep s).
Qed.

Lemma split_on_head sep s : ∃ piece pieces, split_on sep s = piece :: pieces.
Proof.
  pose proof (split_on_pieces sep s). destruct (split_on sep s) as [|p ps]; [done|]. eauto.
Qed.

Lemma split_on_free sep s :
  Forall (λ piece, sep ∉ chars piece) (split_on sep s).
Proof.
  induction s as [|c s IH]; cbn [split_on].
  - constructor; [|constructor]. cbn. apply not_elem_of_nil.
  - destruct (decide (c = sep)) as [->|Hne].
    + constructor; [|done]. cbn. apply not_elem_of_nil.
    + pose proof (split_on_pieces sep s) as Hsome.
      destruct (split_on sep s) as [|p ps]; [done|].
      inversion IH as [|? ? Hp Hps]; subst. constructor; [|done].
      cbn. rewrite not_elem_of_cons. split; [congruence | done].
Qed.

Lemma append_nil t : "" +:+ t = t.
Proof. done. Qed.

Lemma append_cons c s t : String c s +:+ t = String c (s +:+ t).
Proof. done. Qed.

Lemma chars_app s t : chars (s +:+ t) = chars s ++ chars t.
Proof.
  induction s as [|c s IH]; [done|]. rewrite append_cons. cbn [chars]. by rewrite IH.
Qed.

Lemma split_on_app_free sep s t :
  sep ∉ chars s →
  split_on sep (s +:+ String sep t) = s :: split_on sep t.
Proof.
  induction s as [|c s IH]; intros Hfree.
  - rewrite append_nil. cbn [split_on]. by rewrite decide_True.
  - apply not_elem_of_cons in Hfree as [Hc Hs].
    rewrite append_cons. cbn [split_on].
    rewrite decide_False by congruence. by rewrite IH.
Qed.

Lemma split_on_whole sep s : sep ∉ chars s → split_on sep s = [s].
Proof.
  induction s as [|c s IH]; cbn [chars split_on]; intros Hfree; [done|].
  apply not_elem_of_cons in Hfree as [Hc Hs].
  rewrite decide_False by congruence. by rewrite IH.
Qed.

Lemma prefix_append p s : String.prefix p s = true ↔ ∃ rest, s = p +:+ rest.
Proof.
  revert s. induction p as [|c p IH]; intros s.
  - cbn. split; [intros _; by exists s | by destruct s].
  - destruct s as [|d s]; [split; [done | intros [rest ?]; done]|].
    cbn [String.prefix].
    destruct (Ascii.ascii_dec c d) as [->|Hne].
    + rewrite IH. split; intros [rest Hrest]; exists rest.
      * by rewrite append_cons, Hrest.
      * rewrite append_cons in Hrest. congruence.
    + split; [done|]. intros [rest Hrest]. rewrite append_cons in Hrest. congruence.
Qed.

Lemma includes_char c s : includes (String c "") s = true ↔ c ∈ chars s.
Proof.
  induction s as [|d s IH]; cbn [includes chars String.prefix].
  - split; [done | by intros ?%elem_of_nil].
  - rewrite elem_of_cons, <- IH.
    destruct (Ascii.ascii_dec c d) as [->|Hne].
    + destruct s; cbn; split; auto.
    + cbn. split; [auto | intros [?|?]; done].
Qed.

End StringFacts.

Section MoreStringFacts.

Lemma endsWith_refl s : endsWith s s = true.
Proof. destruct s; cbn [endsWith]; by rewrite bool_decide_eq_true_2. Qed.

Lemma endsWith_append suffix s : endsWith suffix s = true ↔ ∃ stem, s = stem +:+ suffix.
Proof.
  induction s as [|c s IH]; cbn [endsWith].
  - rewrite orb_false_r, bool_decide_eq_true. split.
    + intros <-. by exists "".
    + intros [[|? ?] Hstem]; [done | by rewrite append_cons in Hstem].
  - rewrite orb_true_iff, bool_decide_eq_true, IH. split.
    + intros [<-|[stem ->]]; [by exists "" | by exists (String c stem)].
    + intros [[|d stem] Hstem]; [by left|]. right. exists stem.
      rewrite append_cons in Hstem. congruence.
Qed.

Lemma map_string_app f s t : map_string f (s +:+ t) = map_string f s +:+ map_string f t.
Proof.
  induction s as [|c s IH]; [done|].
  rewrite append_cons. cbn [map_string]. by rewrite IH, append_cons.
Qed.

Lemma map_string_split f s a b :
  map_string f s = a +:+ b →
  ∃ s1 s2, s = s1 +:+ s2 ∧ map_string f s1 = a ∧ map_string f s2 = b.
Proof.
  revert s. induction a as [|c a IH]; intros s Hs.
  - by exists "", s.
  - destruct s as [|d s]; [done|]. rewrite append_cons in Hs. cbn [map_string] in Hs.
    injection Hs as Hc Hrest. destruct (IH _ Hrest) as (s1 & s2 & -> & <- & <-).
    exists (String d s1), s2. cbn [map_string]. by rewrite append_cons, Hc.
Qed.

Lemma chars_map_string f s : chars (map_string f s) = map f (chars s).
Proof. induction s as [|c s IH]; cbn; [done|]. by rewrite IH. Qed.

(** Two dots in a row need a dot in the stem when the rest has only one
    and starts with it. *)
Lemma includes_dots_append stem rest :
  "."%char ∉ chars stem → includes ".." (String "."%char rest) = false →
  includes ".." (stem +:+ String "."%char rest) = false.
Proof.
  intros Hstem Hrest. induction stem as [|c stem IH]; [done|].
  cbn [chars] in Hstem. apply not_elem_of_cons in Hstem as [Hc Hstem].
  rewrite append_cons. cbn [includes String.prefix].
  destruct (Ascii.ascii_dec "." c) as [<-|_]; [done|]. by apply IH.
Qed.

Lemma includes_char_false c s : includes (String c "") s = false ↔ c ∉ chars s.
Proof. rewrite <- includes_char. by destruct (includes _ s). Qed.

End MoreStringFacts.

(** ** The connection handler *)

Section Connection.
Import Websocket.

Lemma basic_header_field h :
  startsWith "Basic " h = true →
  ∃ rest, h = "Basic " +:+ rest ∧
          split_on " "%char h !! 1%nat = head (split_on " "%char rest).
Proof.
  intros [rest ->]%prefix_append. exists rest. split; [done|].
  change ("Basic " +:+ rest) with ("Basic" +:+ String " "%char rest).
  rewrite split_on_app_free; [by destruct (split_on " "%char rest)|].
  cbn. intros H. repeat (apply elem_of_cons in H as [H|H]; [discriminate|]).
  by apply elem_of_nil in H.
Qed.

Lemma authenticate_run {S} auth decode header (s : S) :
  ∃ verdict,
    authenticate auth decode header s = mkOutcome s [] (Normal verdict) ∧
    (verdict = Accepted ∨ ∃ reason, verdict = Rejected 1008 reason).
Proof.
  unfold authenticate. destruct auth as [a|]; [|by eexists; split; [done | left]].
  destruct (auth_enabled a); [|by eexists; split; [done | left]].
  destruct (negb (truthy header) || negb (startsWith "Basic " (default "" header)))
    eqn:Hcheck; [by eexists; split; [done | right; eexists]|].
  apply orb_false_iff in Hcheck as [_ Hbasic]. apply negb_false_iff in Hbasic.
  destruct (basic_header_field _ Hbasic) as (rest & _ & ->).
  destruct (split_on_head " "%char rest) as (b64 & more & ->). cbn [head].
  cbv zeta.
  destruct (_ || _); eexists; (split; [done|]); [right; by eexists | by left].
Qed.

Lemma truthy_or_else a b : truthy b = true → truthy (or_else a b) = true.
Proof. intros Hb. unfold or_else. by destruct (truthy a) eqn:Ha. Qed.

Lemma requestClientIp_truthy req : requestClientIp req ≠ "".
Proof.
  unfold requestClientIp.
  set (v := or_else _ _).
  assert (truthy v = true) as Hv by (by do 2 apply truthy_or_else).
  destruct v as [ip|]; [|done]. cbn in *. intros ->. done.
Qed.

(** X1. The connection handler never throws.  A connection that fails the
    credential check is closed with code 1008 and leaves no trace: no
    client is stored and nothing is written.  A connection that passes it
    is stored under its fresh id with an open socket, no role, no device
    name and a client address that is never empty, and is sent [welcome]
    and nothing else.  When [auth] is missing or not enabled every
    connection passes. *)
Theorem connection_refused_or_welcomed auth decode req clientId s :
  let r := connectionHandler auth decode req clientId s in
  (∃ verdict, completion r = Normal verdict) ∧
  (∀ code reason, completion r = Normal (Rejected code reason) →
     code = 1008 ∧ state r = s ∧ log r = []) ∧
  (completion r = Normal Accepted →
     state r = set_clients (insert clientId
                 {| ws := OPEN; role := None; deviceName := None;
                    clientIp := requestClientIp req |}) s ∧
     log r = [WsSend clientId "welcome" (PWelcome clientId)] ∧
     requestClientIp req ≠ "") ∧
  (auth = None ∨ (∃ a, auth = Some a ∧ auth_enabled a = false) →
   completion r = Normal Accepted).
Proof.
  intros r. subst r. unfold connectionHandler. rewrite bind_unfold.
  destruct (authenticate_run auth decode (req_authorization req) s)
    as (verdict & Hrun & Hverdict).
  assert (auth = None ∨ (∃ a, auth = Some a ∧ auth_enabled a = false) →
          verdict = Accepted) as Hoff.
  { intros Hauth. unfold authenticate in Hrun.
    destruct Hauth as [->|(a & -> & Ha)]; [|rewrite Ha in Hrun];
      unfold ret in Hrun; by injection Hrun as <-. }
  rewrite Hrun. destruct Hverdict as [->|[reason ->]].
  - unfold onConnection. exec_m. rewrite send_log. unfold reply. exec_m.
    rewrite decide_True by done. exec_m.
    split; [by eexists|]. split; [done|]. split; [|done].
    intros _. split; [done|]. split; [done|]. apply requestClientIp_truthy.
  - exec_m. split; [by eexists|]. split; [by intros ? ? [= <- <-]|].
    split; [done|]. intros Hauth. by specialize (Hoff Hauth).
Qed.

End Connection.

Section Credentials.
Import Websocket.

Lemma not_in_chars_app c s t : c ∉ chars s → c ∉ chars t → c ∉ chars (s +:+ t).
Proof. rewrite chars_app, not_elem_of_app. tauto. Qed.

(** X2. With the check enabled and a user name and a password configured: the
    decoded credentials are cut at every colon and only the first two
    pieces are compared.  So when the configured user name or password
    contains a colon no connection is ever accepted; otherwise a header
    [Basic <text>] is accepted when the text decodes to [user:password],
    and also when anything follows after one more colon. *)
Theorem basic_auth_fields {S} (a : Auth) decode (s : S) u p :
  auth_enabled a = true → auth_username a = Some u → auth_password a = Some p →
  (":"%char ∈ chars u ∨ ":"%char ∈ chars p →
   ∀ header, completion (authenticate (Some a) decode header s) ≠ Normal Accepted) ∧
  (":"%char ∉ chars u → ":"%char ∉ chars p →
   ∀ text more, " "%char ∉ chars text →
     decode text = u +:+ ":" +:+ p ∨ decode text = u +:+ ":" +:+ p +:+ ":" +:+ more →
     completion (authenticate (Some a) decode (Some ("Basic " +:+ text)) s) =
       Normal Accepted).
Proof.
  intros Hon Hu Hp. split.
  - intros Hcolon header. unfold authenticate. rewrite Hon, Hu, Hp.
    destruct (negb (truthy header) || negb (startsWith "Basic " (default "" header)));
      [done|].
    destruct (split_on " "%char (default "" header) !! 1%nat) as [text|]; [|done].
    cbv zeta. pose proof (split_on_free ":"%char (decode text)) as Hfree.
    destruct (split_on ":"%char (decode text)) as [|f0 [|f1 fields]].
    + cbn. done.
    + cbn. rewrite (bool_decide_eq_false_2 (None = Some p)) by done.
      by rewrite orb_true_r.
    + apply Forall_cons in Hfree as [H0 [H1 _]%Forall_cons]. cbn [lookup list_lookup].
      destruct Hcolon as [Hc|Hc].
      * rewrite (bool_decide_eq_false_2 (Some f0 = Some u)); [done|].
        intros [= ->]. done.
      * rewrite (bool_decide_eq_false_2 (Some f1 = Some p)); [by rewrite orb_true_r|].
        intros [= ->]. done.
  - intros Hfu Hfp text more Hspace Hdecode. unfold authenticate. rewrite Hon, Hu, Hp.
    assert (startsWith "Basic " ("Basic " +:+ text) = true) as Hbasic
      by (apply prefix_append; by eexists).
    cbn [truthy default from_option id]. rewrite Hbasic.
    rewrite bool_decide_eq_false_2 by done. cbn [negb orb].
    destruct (basic_header_field _ Hbasic) as (rest & Hrest & ->).
    apply (inj (String.append "Basic ")) in Hrest as <-.
    rewrite (split_on_whole _ _ Hspace). cbn [head]. cbv zeta.
    assert (∃ others, split_on ":"%char (decode text) = u :: p :: others) as [others ->].
    { destruct Hdecode as [-> | ->].
      - change (u +:+ ":" +:+ p) with (u +:+ String ":"%char p).
        rewrite split_on_app_free, (split_on_whole _ p) by done. by eexists.
      - change (u +:+ ":" +:+ p +:+ ":" +:+ more)
          with (u +:+ String ":"%char (p +:+ String ":"%char more)).
        rewrite !split_on_app_free by done. by eexists. }
    cbn [lookup list_lookup]. by rewrite !bool_decide_eq_true_2.
Qed.

Lemma basic_auth_fields_witness :
  completion (authenticate (S := State) (Some Sample.auth) Sample.decode
                (Some ("Basic " +:+ "YWRtaW46czNjcmV0")) (initial true)) =
  Normal Accepted.
Proof.
  destruct (basic_auth_fields Sample.auth Sample.decode (initial true) "admin" "s3cret"
              eq_refl eq_refl eq_refl) as [_ Hpass].
  apply Hpass with (more := "");
    [apply (bool_decide_unpack _); vm_compute; exact I ..| left; reflexivity].
Defined.

Lemma connection_refused_or_welcomed_witness :
  let r := connectionHandler None Sample.decode Sample.request "4f1c-new" (initial true) in
  completion r = Normal Accepted ∧
  log r = [WsSend "4f1c-new" "welcome" (PWelcome "4f1c-new")].
Proof.
  intros r.
  destruct (connection_refused_or_welcomed None Sample.decode Sample.request "4f1c-new"
              (initial true)) as (_ & _ & Hwelcome & Hopen).
  assert (completion r = Normal Accepted) as Hdone by (apply Hopen; by left).
  split; [exact Hdone|]. destruct (Hwelcome Hdone) as (_ & Hlog & _). exact Hlog.
Defined.

End Credentials.

(** ** The recordings on disk *)

Section IndexFacts.
Import Index.

Lemma lower_dot c :
  (let n := nat_of_ascii c in
   if ((65 <=? n) && (n <=? 90))%nat then ascii_of_nat (n + 32) else c) = "."%char →
  c = "."%char.
Proof.
  destruct c as [[] [] [] [] [] [] [] []]; intros H; vm_compute in H;
    first [discriminate | reflexivity].
Qed.

Lemma lower_extension suffix f :
  endsWith (String "."%char suffix) (toLowerCase f) = true →
  ∃ stem extension, f = stem +:+ "." +:+ extension ∧ toLowerCase extension = suffix.
Proof.
  intros [stem Hstem]%endsWith_append.
  apply map_string_split in Hstem as (s1 & s2 & -> & _ & Hs2).
  destruct s2 as [|c extension]; [done|]. cbn [map_string] in Hs2.
  injection Hs2 as Hc Hext. apply lower_dot in Hc as ->.
  by exists s1, extension.
Qed.

Lemma hasVideoExtension_cases filename :
  hasVideoExtension filename = true →
  ∃ stem extension, filename = stem +:+ "." +:+ extension ∧
                    toLowerCase extension ∈ ["mp4"; "webm"; "mkv"].
Proof.
  unfold hasVideoExtension. cbv zeta.
  intros [[H|H]%orb_true_iff|H]%orb_true_iff;
    apply lower_extension in H as (stem & extension & -> & Hlower);
    exists stem, extension; (split; [done|]); rewrite Hlower; set_solver.
Qed.

(** X3. The delete handler calls [fs.unlinkSync] only on a file directly
    inside the recordings directory: on [recordingsDir/filename] where
    [filename] has no [/], no backslash and no two dots in a row, ends in
    [.mp4], [.webm] or [.mkv] in any letter case, and only when the file
    exists.  It answers 200 exactly when [unlinkSync] was called and
    returned; a name with a separator or with two dots in a row is answered
    400 whatever else holds. *)
Theorem deleteRecording_stays_in_directory recordingsDir filename fileExists unlinkSync :
  let r := deleteRecording recordingsDir filename fileExists unlinkSync in
  (∀ path, unlinked r = Some path →
     path = Recorder.path_join recordingsDir filename ∧
     ("/"%char ∉ chars filename) ∧ ("\"%char ∉ chars filename) ∧
     includes ".." filename = false ∧
     (∃ stem extension, filename = stem +:+ "." +:+ extension ∧
                        toLowerCase extension ∈ ["mp4"; "webm"; "mkv"]) ∧
     fileExists = true) ∧
  (status r = 200 ↔ unlinked r ≠ None ∧ unlinkSync = Normal ()) ∧
  (status r = 200 ∨ status r = 400 ∨ status r = 404 ∨ status r = 500) ∧
  ("/"%char ∈ chars filename ∨ "\"%char ∈ chars filename ∨ includes ".." filename = true →
   r = {| status := 400; body := ErrorBody "Invalid filename"; unlinked := None |}).
Proof.
  intros r. subst r. unfold deleteRecording.
  destruct (includes ".." filename) eqn:Hdots; cbn [orb].
  { cbn. split; [done|]. split; [split; [done | by intros [? _]]|]. by auto. }
  destruct (includes "/" filename) eqn:Hslash; cbn [orb].
  { cbn. split; [done|]. split; [split; [done | by intros [? _]]|]. by auto. }
  destruct (includes "\" filename) eqn:Hback; cbn [orb].
  { cbn. split; [done|]. split; [split; [done | by intros [? _]]|]. by auto. }
  apply includes_char_false in Hslash, Hback.
  assert (¬ ("/"%char ∈ chars filename ∨ "\"%char ∈ chars filename ∨ false = true))
    as Hvalid by (intros [?|[?|?]]; done).
  cbv zeta.
  destruct (hasVideoExtension filename) eqn:Hext; cbn [negb].
  2: { cbn. split; [done|]. split; [split; [done | by intros [? _]]|].
       split; [by auto 6 | intros H; by destruct (Hvalid H)]. }
  destruct fileExists; cbn [negb].
  2: { cbn. split; [done|]. split; [split; [done | by intros [? _]]|].
       split; [by auto 6 | intros H; by destruct (Hvalid H)]. }
  apply hasVideoExtension_cases in Hext.
  destruct unlinkSync as [[]|e]; cbn.
  - split; [by intros path [= <-]|]. split; [done|].
    split; [by auto 6 | intros H; by destruct (Hvalid H)].
  - split; [by intros path [= <-]|]. split; [split; [done | by intros [_ ?]]|].
    split; [by auto 6 | intros H; by destruct (Hvalid H)].
Qed.

Lemma deleteRecording_stays_in_directory_witness :
  let r := deleteRecording "/srv/recordings" "yard.MKV" true (Normal ()) in
  unlinked r = Some "/srv/recordings/yard.MKV" ∧ status r = 200 ∧
  ("/"%char ∉ chars "yard.MKV").
Proof.
  intros r.
  destruct (deleteRecording_stays_in_directory "/srv/recordings" "yard.MKV" true
              (Normal ())) as (Hsafe & _).
  destruct (Hsafe "/srv/recordings/yard.MKV" eq_refl) as (_ & Hslash & _).
  split; [reflexivity|]. split; [reflexivity | exact Hslash].
Defined.

Lemma insertNewestFirst_perm a l : insertNewestFirst a l ≡ₚ a :: l.
Proof.
  induction l as [|b l IH]; cbn [insertNewestFirst]; [done|].
  destruct (_ <=? 0); [done|]. by rewrite IH, Permutation_swap.
Qed.

Lemma sortNewestFirst_perm l : sortNewestFirst l ≡ₚ l.
Proof.
  unfold sortNewestFirst. induction l as [|a l IH]; cbn [foldr]; [done|].
  by rewrite insertNewestFirst_perm, IH.
Qed.

Lemma insertNewestFirst_sorted a l : newestFirst l → newestFirst (insertNewestFirst a l).
Proof.
  induction l as [|b l IH]; cbn [insertNewestFirst newestFirst]; [done|].
  intros [Hb Hl]. destruct (file_modified b - file_modified a <=? 0) eqn:Hcmp.
  - cbn [newestFirst]. split; [|done]. constructor; [lia|].
    eapply Forall_impl; [exact Hb|]. cbn. intros c Hc. lia.
  - cbn [newestFirst]. split; [|by apply IH].
    rewrite insertNewestFirst_perm. constructor; [lia | done].
Qed.

Lemma sortNewestFirst_sorted l : newestFirst (sortNewestFirst l).
Proof.
  unfold sortNewestFirst. induction l as [|a l IH]; cbn [foldr]; [done|].
  by apply insertNewestFirst_sorted.
Qed.

Lemma insertNewestFirst_stable t a l :
  modifiedAt t (insertNewestFirst a l) = modifiedAt t (a :: l).
Proof.
  unfold modifiedAt. induction l as [|b l IH]; cbn [insertNewestFirst]; [done|].
  destruct (file_modified b - file_modified a <=? 0) eqn:Hcmp; [done|].
  rewrite filter_cons, IH, !filter_cons.
  apply Z.leb_gt in Hcmp.
  destruct (decide (file_modified b = t)) as [Hb|Hb]; [|done].
  repeat case_decide; first [done | lia].
Qed.

Lemma sortNewestFirst_stable t l : modifiedAt t (sortNewestFirst l) = modifiedAt t l.
Proof.
  unfold sortNewestFirst. induction l as [|a l IH]; cbn [foldr]; [done|].
  rewrite insertNewestFirst_stable. unfold modifiedAt in *. by rewrite !filter_cons, IH.
Qed.

Lemma statAll_infos recordingsDir statSync names infos :
  statAll recordingsDir statSync names = Normal infos →
  Forall2 (λ f info, ∃ stats,
             statSync (Recorder.path_join recordingsDir f) = Normal stats ∧
             info = fileInfo f stats) names infos.
Proof.
  revert infos. induction names as [|f names IH]; intros infos; cbn [statAll].
  - intros [= <-]. constructor.
  - destruct (statSync _) as [stats|e] eqn:Hstat; [|done].
    destruct (statAll _ _ names) as [rest|e]; [|done]. intros [= <-].
    constructor; [by exists stats | by apply IH].
Qed.

Lemma statAll_ext recordingsDir statSync statSync' names :
  Forall (λ f, statSync (Recorder.path_join recordingsDir f) =
               statSync' (Recorder.path_join recordingsDir f)) names →
  statAll recordingsDir statSync names = statAll recordingsDir statSync' names.
Proof.
  induction 1 as [|f names Hf _ IH]; cbn [statAll]; [done|]. by rewrite Hf, IH.
Qed.

Lemma isVideoFile_video_name f : isVideoFile f = true ↔ video_name f.
Proof.
  unfold isVideoFile, video_name. rewrite !orb_true_iff, !endsWith_append. split.
  - intros [[[stem ->]|[stem ->]]|[stem ->]]; exists stem; auto.
  - intros [stem [-> | [-> | ->]]]; [left; left|left; right|right]; by exists stem.
Qed.

Global Instance video_name_dec f : Decision (video_name f).
Proof.
  refine (cast_if (decide (isVideoFile f = true))); by rewrite <- isVideoFile_video_name.
Defined.

Lemma filter_video_names (names : list string) :
  filter (λ f, isVideoFile f = true) names = filter video_name names.
Proof. apply list_filter_iff. intros f. apply isVideoFile_video_name. Qed.

Lemma statAll_throws recordingsDir statSync names f e :
  f ∈ names → statSync (Recorder.path_join recordingsDir f) = Throw e →
  ∃ e', statAll recordingsDir statSync names = Throw e'.
Proof.
  intros Hin Hf. induction names as [|g names IH]; [by apply elem_of_nil in Hin|].
  cbn [statAll]. destruct (statSync (Recorder.path_join recordingsDir g)) as [stats|e0] eqn:Hg;
    [|by eexists].
  apply elem_of_cons in Hin as [->|Hin]; [congruence|].
  destruct (IH Hin) as [e' ->]. by eexists.
Qed.

(** X4. The recordings query lists exactly the entries of the directory
    whose name ends in [.mp4], [.webm] or [.mkv], each with what
    [statSync] tells about it, newest first, files modified at the same
    time staying in the order of the directory; it tells whether the
    encoder was found and which recordings are active.  Entries with
    another name are never looked at, so whatever [statSync] does on them
    changes nothing.  When [readdirSync] throws, or [statSync] throws on
    one of those files, the query answers with a message, no recordings
    and [enabled: false]; when the directory does not exist it answers
    with no recordings and [enabled: false]. *)
Theorem recordings_listed_newest_first recordingsDir readdirSync statSync now recorder :
  let listing := listRecordings recordingsDir readdirSync statSync in
  let reply := recordingsQuery recordingsDir true readdirSync statSync now recorder in
  let failed e := {| recordings := []; enabled := false; active := None; error := Some e |} in
  (∀ names files, readdirSync = Normal names → listing = Normal files →
     ∃ infos,
       Forall2 (λ f info, ∃ stats,
                  statSync (Recorder.path_join recordingsDir f) = Normal stats ∧
                  info = fileInfo f stats) (filter video_name names) infos ∧
       files ≡ₚ infos ∧
       newestFirst files ∧
       (∀ t, modifiedAt t files = modifiedAt t infos) ∧
       reply = {| recordings := files;
                  enabled := Recorder.ffmpegAvailable recorder;
                  active := Some (Recorder.getActiveRecordings now recorder);
                  error := None |}) ∧
  (∀ names statSync', readdirSync = Normal names →
     Forall (λ f, statSync' (Recorder.path_join recordingsDir f) =
                  statSync (Recorder.path_join recordingsDir f))
            (filter video_name names) →
     listRecordings recordingsDir readdirSync statSync' = listing) ∧
  (∀ e, readdirSync = Throw e → reply = failed e) ∧
  (∀ names f e, readdirSync = Normal names → f ∈ names → video_name f →
     statSync (Recorder.path_join recordingsDir f) = Throw e →
     ∃ e', reply = failed e') ∧
  (∀ e, listing = Throw e → reply = failed e) ∧
  recordingsQuery recordingsDir false readdirSync statSync now recorder =
    {| recordings := []; enabled := false; active := None; error := None |}.
Proof.
  intros listing reply failed. subst listing reply failed.
  unfold recordingsQuery, listRecordings.
  split; [|split; [|split; [|split; [|split]]]].
  - intros names files -> Hfiles. rewrite filter_video_names in Hfiles |- *.
    destruct (statAll recordingsDir statSync (filter video_name names))
      as [infos|e] eqn:Hstat; [|done].
    injection Hfiles as <-. exists infos.
    split; [by apply statAll_infos|]. split; [apply sortNewestFirst_perm|].
    split; [apply sortNewestFirst_sorted|]. split; [intros t; apply sortNewestFirst_stable|].
    done.
  - intros names statSync' -> Hsame. rewrite filter_video_names.
    by rewrite (statAll_ext _ statSync' statSync).
  - by intros e ->.
  - intros names f e -> Hin Hvideo Hthrows. rewrite filter_video_names.
    destruct (statAll_throws recordingsDir statSync (filter video_name names) f e)
      as [e' ->]; [by apply list_elem_of_filter | done |]. by exists e'.
  - intros e He. by rewrite He.
  - done.
Qed.

Lemma recordings_listed_newest_first_witness :
  let statSync := λ path,
    if decide (path = "/srv/recordings/yard.mkv")
    then Normal {| size := 10; birthtime := 100; mtime := 300 |}
    else if decide (path = "/srv/recordings/notes.txt") then Throw "EACCES"
    else Normal {| size := 20; birthtime := 50; mtime := 200 |} in
  map file_name
    (recordings (recordingsQuery "/srv/recordings" true
                   (Normal ["front.mkv"; "notes.txt"; "yard.mkv"]) statSync 0
                   (Recorder.initial true))) = ["yard.mkv"; "front.mkv"].
Proof.
  intros statSync.
  destruct (recordings_listed_newest_first "/srv/recordings"
              (Normal ["front.mkv"; "notes.txt"; "yard.mkv"]) statSync 0
              (Recorder.initial true))
    as (Hlisted & _).
  destruct (Hlisted ["front.mkv"; "notes.txt"; "yard.mkv"]
              [fileInfo "yard.mkv" {| size := 10; birthtime := 100; mtime := 300 |};
               fileInfo "front.mkv" {| size := 20; birthtime := 50; mtime := 200 |}]
              eq_refl eq_refl) as (infos & _ & _ & _ & _ & ->).
  reflexivity.
Defined.

End IndexFacts.

(** ** How a start and a stop of a recording end *)

Section RecorderOutcomes.
Import Recorder.

Lemma jm_delete_set {V} k (v : V) m : jm_delete k (jm_set k v m) = jm_delete k m.
Proof.
  induction m as [|[k' v'] m IH]; cbn [jm_set jm_delete].
  - by rewrite decide_True.
  - destruct (decide (k' = k)) as [->|Hne]; cbn [jm_delete].
    + by rewrite decide_True.
    + by rewrite decide_False, IH.
Qed.

(** The five ways in which [startRecording] ends. *)
Lemma startRecording_cases producerId deviceName env ms s :
  let r := startRecording producerId deviceName env ms s in
  let new := session producerId deviceName env (nextRtpPort s) in
  let made := if dirExists env then [] else [Mkdir (recordingsDir env)] in
  (ffmpegAvailable s = false ∧ r = mkOutcome s [] (Normal None)) ∨
  (∃ e, ffmpegAvailable s = true ∧ dirExists env = false ∧
        failsAt env = Some (AtMkdir, e) ∧ r = mkOutcome s [] (Throw e)) ∨
  (ffmpegAvailable s = true ∧ jm_get producerId (Mediasoup.producers ms) = None ∧
   r = mkOutcome s made (Normal None)) ∨
  (∃ at_ message l,
     ffmpegAvailable s = true ∧ jm_get producerId (Mediasoup.producers ms) ≠ None ∧
     failsAt env = Some (at_, message) ∧ at_ ≠ AtMkdir ∧
     r = mkOutcome (port_drawn s) l (Normal None) ∧
     spawned l = if decide (at_ = AtResume) then [newProcess env] else []) ∨
  (∃ producerData,
     ffmpegAvailable s = true ∧
     jm_get producerId (Mediasoup.producers ms) = Some producerData ∧
     (∀ at_ message, failsAt env = Some (at_, message) → at_ = AtMkdir ∧ dirExists env = true) ∧
     r = mkOutcome (set_recordings (jm_set producerId new) (port_drawn s))
           (start_sequence producerId deviceName env producerData (nextRtpPort s))
           (Normal (Some {| started_filepath := filepath new;
                            started_filename := recording_filename deviceName env |}))).
Proof.
  intros r new made. subst r new made.
  unfold startRecording, step, start_sequence, port_drawn, recording_filename. exec_m.
  destruct (ffmpegAvailable s) eqn:Hon; exec_m; [|by left].
  right.
  destruct (failsAt env) as [[at_ message]|] eqn:Hfail.
  - destruct (dirExists env) eqn:Hdir;
      destruct (jm_get producerId (Mediasoup.producers ms)) as [pd|] eqn:Hpd;
      destruct at_;
      repeat first [rewrite decide_True by done | rewrite decide_False by done];
      exec_m; rewrite ?Hon;
      first
        [ (* the directory cannot be made *)
          left; by exists message
        | (* the producer is not known *)
          right; left; by repeat split
        | (* a later step fails *)
          right; right; left; eexists _, _, _; by repeat split
        | (* the step that would fail is not taken *)
          right; right; right; exists pd;
          split; [done|]; split; [done|]; split; [by intros ? ? [= <- <-] | done] ].
  - destruct (dirExists env) eqn:Hdir;
      destruct (jm_get producerId (Mediasoup.producers ms)) as [pd|] eqn:Hpd; exec_m;
      rewrite ?Hon;
      first [ right; left; by repeat split
            | right; right; right; exists pd;
              split; [done|]; split; [done|]; split; [by intros ? ? [=] | done] ].
Qed.

End RecorderOutcomes.

Section RecorderProperties.
Import Recorder.

Lemma startRecording_mkdir_fails producerId deviceName env ms s e :
  ffmpegAvailable s = true → dirExists env = false → failsAt env = Some (AtMkdir, e) →
  startRecording producerId deviceName env ms s = mkOutcome s [] (Throw e).
Proof.
  intros Hon Hdir Hfail. unfold startRecording, step. exec_m.
  rewrite Hon, Hdir, Hfail. exec_m. by rewrite decide_True.
Qed.

Lemma startRecording_throw_changes_nothing producerId deviceName env ms s e :
  completion (startRecording producerId deviceName env ms s) = Throw e →
  state (startRecording producerId deviceName env ms s) = s ∧
  log (startRecording producerId deviceName env ms s) = [].
Proof.
  pose proof (startRecording_cases producerId deviceName env ms s) as Hcases.
  cbv zeta in Hcases.
  destruct Hcases as [[_ Hr]|[(e' & Hon & Hdir & Hfail & Hr)|[(_ & _ & Hr)|
    [(? & ? & ? & _ & _ & _ & _ & Hr & _)|(? & _ & _ & _ & Hr)]]]];
    rewrite Hr; cbn [completion state log]; done.
Qed.

(** X5. [startRecording] throws only when the recordings directory is missing
    and cannot be made, and then nothing else has been done.  Every other
    failure, at whichever step, is swallowed and ends in [null] with
    [recordings] as it was; unless it is the last step that fails, no
    encoder has been spawned.  A session is stored only by a
    start that returns the file; a start that returns nothing leaves
    [recordings] as it was.  At most one encoder is spawned.  When the last
    step, resuming the consumer, fails, the encoder is already running and
    no session refers to it. *)
Theorem startRecording_failures producerId deviceName env ms s :
  let r := startRecording producerId deviceName env ms s in
  let new := session producerId deviceName env (nextRtpPort s) in
  (∀ e, completion r = Throw e ↔
        ffmpegAvailable s = true ∧ dirExists env = false ∧
        failsAt env = Some (AtMkdir, e)) ∧
  (∀ e, completion r = Throw e → state r = s ∧ log r = []) ∧
  (∀ at_ message,
     failsAt env = Some (at_, message) → at_ ≠ AtMkdir →
     completion r = Normal None ∧ recordings (state r) = recordings s ∧
     (at_ ≠ AtResume → spawned (log r) = [])) ∧
  ((∃ started, completion r = Normal (Some started)) ∧
   recordings (state r) = jm_set producerId new (recordings s) ∧
   spawned (log r) = [newProcess env]
   ∨
   (∀ started, completion r ≠ Normal (Some started)) ∧
   recordings (state r) = recordings s ∧
   (spawned (log r) = [] ∨ spawned (log r) = [newProcess env])) ∧
  (∀ message,
     ffmpegAvailable s = true → jm_get producerId (Mediasoup.producers ms) ≠ None →
     failsAt env = Some (AtResume, message) →
     completion r = Normal None ∧ spawned (log r) = [newProcess env] ∧
     recordings (state r) = recordings s).
Proof.
  intros r new.
  pose proof (startRecording_cases producerId deviceName env ms s) as Hcases.
  cbv zeta in Hcases. fold r new in Hcases.
  split; [|split; [|split; [|split]]].
  - intros e. split.
    + destruct Hcases as [[_ Hr]|[(e' & Hon & Hdir & Hfail & Hr)|[(_ & _ & Hr)|
        [(? & ? & ? & _ & _ & _ & _ & Hr & _)|(? & _ & _ & _ & Hr)]]]];
        rewrite Hr; cbn [completion]; try done. by intros [= <-].
    + intros (Hon & Hdir & Hfail). subst r.
      by rewrite (startRecording_mkdir_fails _ _ _ _ _ e) by done.
  - intros e. apply startRecording_throw_changes_nothing.
  - intros at_ message Hfail Hat.
    destruct Hcases as [[_ Hr]|[(e' & _ & _ & Hfail' & _)|[(_ & _ & Hr)|
      [(at' & ? & l & _ & _ & Hfail' & _ & Hr & Hspawn)|(pd & _ & _ & Hfail' & _)]]]].
    + rewrite Hr. cbn [completion state log]. done.
    + congruence.
    + rewrite Hr. cbn [completion state log]. split; [done|]. split; [done|].
      intros _. by destruct (dirExists env).
    + rewrite Hfail in Hfail'. injection Hfail' as <- <-.
      rewrite Hr. cbn [completion state log]. split; [done|]. split; [done|].
      intros Hne. by rewrite Hspawn, decide_False.
    + by destruct (Hfail' _ _ Hfail).
  - destruct Hcases as [[_ Hr]|[(e' & Hon & Hdir & Hfail & Hr)|[(_ & _ & Hr)|
      [(at_ & ? & l & _ & _ & _ & _ & Hr & Hspawn)|(pd & _ & _ & _ & Hr)]]]];
      rewrite Hr; cbn [completion state log].
    + right. split; [done|]. split; [done|]. by left.
    + right. split; [done|]. split; [done|]. by left.
    + right. split; [done|]. split; [done|]. left. by destruct (dirExists env).
    + right. split; [done|]. split; [done|]. rewrite Hspawn. destruct (decide _); by auto.
    + left. split; [by eexists|]. split; [done|]. apply start_sequence_spawned.
  - intros message Hon Hpd Hfail.
    destruct Hcases as [[Hoff _]|[(e' & _ & _ & Hfail' & _)|[(_ & Hpd' & _)|
      [(at_ & ? & l & _ & _ & Hfail' & _ & Hr & Hspawn)|(pd & _ & _ & Hfail' & _)]]]].
    + congruence.
    + congruence.
    + congruence.
    + rewrite Hfail in Hfail'. injection Hfail' as <- <-.
      rewrite Hr. cbn [completion state log]. by rewrite Hspawn, decide_True.
    + by destruct (Hfail' _ _ Hfail).
Qed.

Lemma startRecording_failures_witness :
  let r := startRecording "p1" (Some "Front Door") Sample.env_resume_fails
             (Websocket.mediasoup Sample.streaming) (initial true) in
  completion r = Normal None ∧ spawned (log r) = ["ffmpeg-1"] ∧ recordings (state r) = [].
Proof.
  intros r.
  destruct (startRecording_failures "p1" (Some "Front Door") Sample.env_resume_fails
              (Websocket.mediasoup Sample.streaming) (initial true))
    as (_ & _ & _ & _ & Horphan).
  apply (Horphan "consumer closed"); [reflexivity | by vm_compute | reflexivity].
Defined.

(** X6. A recording that was started and is then stopped: [stopRecording]
    returns the file that [startRecording] returned, with the device name
    and the time between the two calls rounded to whole seconds; it closes
    the consumer of the recording unless the engine already closed it, and
    arranges one delayed shutdown of its encoder; the session is gone, and
    when the producer had no session before the start, [recordings] is
    again what it was. *)
Theorem stop_after_start producerId deviceName env ms s started stopEnv :
  let begun := startRecording producerId deviceName env ms s in
  let r := stopRecording producerId stopEnv (state begun) in
  let elapsed := stop_now stopEnv - now env in
  completion begun = Normal (Some started) →
  completion r = Normal (Some {| stopped_filepath := started_filepath started;
                                 stopped_duration := round_seconds elapsed;
                                 stopped_deviceName := deviceName |}) ∧
  log r = stop_sequence (session producerId deviceName env (nextRtpPort s)) stopEnv ∧
  recordings (state r) = jm_delete producerId (recordings s) ∧
  (jm_get producerId (recordings s) = None → recordings (state r) = recordings s) ∧
  (0 ≤ elapsed →
   0 ≤ round_seconds elapsed ∧ -500 < 1000 * round_seconds elapsed - elapsed ≤ 500).
Proof.
  intros begun r elapsed Hbegun.
  pose proof (startRecording_cases producerId deviceName env ms s) as Hcases.
  cbv zeta in Hcases. fold begun in Hcases.
  destruct Hcases as [[_ Hr]|[(e' & Hon & Hdir & Hfail & Hr)|[(_ & _ & Hr)|
      [(? & ? & ? & _ & _ & _ & _ & Hr & _)|(pd & _ & _ & _ & Hr)]]]];
    rewrite Hr in Hbegun; cbn [completion] in Hbegun; try done.
  injection Hbegun as <-. subst r. rewrite Hr. cbn [state started_filepath].
  set (new := session producerId deviceName env (nextRtpPort s)).
  unfold stopRecording. rewrite bind_unfold, get_state_run. cbv beta iota.
  cbn [recordings set_recordings]. rewrite jm_get_set_eq.
  assert (recordings (port_drawn s) = recordings s) as Hsame by done.
  split; [|split; [|split; [|split]]].
  - destruct (consumerClosed stopEnv); by exec_m.
  - unfold stop_sequence. destruct (consumerClosed stopEnv); by exec_m.
  - destruct (consumerClosed stopEnv); exec_m; by rewrite jm_delete_set.
  - intros Hnone. destruct (consumerClosed stopEnv); exec_m;
      by rewrite jm_delete_set, jm_delete_absent.
  - intros Hpos. unfold round_seconds.
    pose proof (Z.div_mod (elapsed + 500) 1000 ltac:(lia)) as Hdiv.
    pose proof (Z.mod_pos_bound (elapsed + 500) 1000 ltac:(lia)) as Hmod.
    split; [apply Z.div_pos; lia | lia].
Qed.

Lemma stop_after_start_witness :
  let begun := startRecording "p1" (Some "Front Door") Sample.env
                 (Websocket.mediasoup Sample.streaming) (initial true) in
  let r := stopRecording "p1" {| stop_now := 1704164705678; consumerClosed := false |}
             (state begun) in
  recordings (state r) = [] ∧
  completion r =
    Normal (Some {| stopped_filepath :=
                      "/srv/recordings/Front_Door_2024-01-02T03-04-05-678Z.mkv";
                    stopped_duration := 60;
                    stopped_deviceName := Some "Front Door" |}).
Proof.
  intros begun r.
  destruct (stop_after_start "p1" (Some "Front Door") Sample.env
              (Websocket.mediasoup Sample.streaming) (initial true)
              {| started_filepath :=
                   "/srv/recordings/Front_Door_2024-01-02T03-04-05-678Z.mkv";
                 started_filename := "Front_Door_2024-01-02T03-04-05-678Z.mkv" |}
              {| stop_now := 1704164705678; consumerClosed := false |})
    as (Hdone & _ & Hgone & _); [reflexivity|].
  split; [exact Hgone | exact Hdone].
Defined.

End RecorderProperties.

(** ** The files of the recorder and the delete handler *)

Section RecordedFiles.
Import Recorder.

Lemma append_assoc s t u : (s +:+ t) +:+ u = s +:+ t +:+ u.
Proof. induction s as [|c s IH]; [done|]. by rewrite !append_cons, IH. Qed.

Lemma chars_map_chars f s : chars (map_chars f s) = map f (chars s).
Proof. induction s as [|c s IH]; cbn; [done|]. by rewrite IH. Qed.

Lemma word_char_plain c :
  is_word_char c = true → c ≠ "."%char ∧ c ≠ "/"%char ∧ c ≠ "\"%char.
Proof.
  destruct c as [[] [] [] [] [] [] [] []]; intros H; vm_compute in H;
    first [discriminate | by repeat split].
Qed.

Lemma safeDeviceName_chars deviceName :
  Forall (λ c, is_word_char c = true) (chars (safeDeviceName deviceName)).
Proof.
  unfold safeDeviceName. cbv zeta. rewrite chars_map_chars. apply Forall_map.
  apply Forall_forall. intros c _. cbn.
  destruct (is_word_char c) eqn:Hc; [done | reflexivity].
Qed.

Lemma safeDeviceName_free deviceName c :
  c = "."%char ∨ c = "/"%char ∨ c = "\"%char → c ∉ chars (safeDeviceName deviceName).
Proof.
  intros Hc Hin.
  pose proof (safeDeviceName_chars deviceName) as Hword.
  rewrite Forall_forall in Hword. apply Hword, word_char_plain in Hin.
  destruct Hin as (? & ? & ?). by destruct Hc as [->|[->| ->]].
Qed.

Lemma timestamp_free iso c :
  c = "."%char ∨ (c ≠ "-"%char ∧ c ∉ chars iso) → c ∉ chars (timestamp iso).
Proof.
  unfold timestamp. rewrite chars_map_chars. intros Hc Hin.
  apply list_elem_of_fmap in Hin as (d & Hd & Hin).
  destruct (decide (d = ":"%char ∨ d = "."%char)) as [Hsep|Hplain].
  - destruct Hc as [->|[? _]]; done.
  - destruct Hc as [->|[_ ?]]; [|by subst]. apply Hplain. by right.
Qed.

Lemma recording_filename_free deviceName env c :
  c = "."%char ∨ (c = "/"%char ∨ c = "\"%char) ∧ c ∉ chars (isoNow env) →
  c ∉ chars (safeDeviceName deviceName +:+ "_" +:+ timestamp (isoNow env)).
Proof.
  intros Hc. rewrite !chars_app, !not_elem_of_app. split; [|split].
  - apply safeDeviceName_free. destruct Hc as [->|[[->| ->] _]]; by auto.
  - cbn. intros [->|?%elem_of_nil]%elem_of_cons; [|done].
    destruct Hc as [?|[[?|?] _]]; done.
  - apply timestamp_free. destruct Hc as [->|[[->| ->] ?]]; by auto.
Qed.

(** X7. The file of a recording is always a file of the recordings directory,
    whatever device name the client has chosen: its name has no path
    separator.  It is one of the files that the recordings query lists, and
    the delete handler accepts its name and unlinks exactly the path that
    [startRecording] returned. *)
Theorem recorded_file_can_be_deleted producerId deviceName env ms s started :
  "/"%char ∉ chars (isoNow env) → "\"%char ∉ chars (isoNow env) →
  completion (startRecording producerId deviceName env ms s) = Normal (Some started) →
  started_filepath started = path_join (recordingsDir env) (started_filename started) ∧
  ("/"%char ∉ chars (started_filename started)) ∧
  ("\"%char ∉ chars (started_filename started)) ∧
  Index.isVideoFile (started_filename started) = true ∧
  Index.deleteRecording (recordingsDir env) (started_filename started) true (Normal ()) =
    {| Index.status := 200; Index.body := Index.SuccessBody "Recording deleted";
       Index.unlinked := Some (started_filepath started) |}.
Proof.
  intros Hslash Hback Hstarted.
  pose proof (startRecording_cases producerId deviceName env ms s) as Hcases.
  cbv zeta in Hcases.
  destruct Hcases as [[_ Hr]|[(e' & Hon & Hdir & Hfail & Hr)|[(_ & _ & Hr)|
      [(? & ? & ? & _ & _ & _ & _ & Hr & _)|(pd & _ & _ & _ & Hr)]]]];
    rewrite Hr in Hstarted; cbn [completion] in Hstarted; try done.
  injection Hstarted as <-. cbn [started_filepath started_filename session filepath].
  unfold recording_filename.
  set (stem := safeDeviceName deviceName +:+ "_" +:+ timestamp (isoNow env)).
  assert (safeDeviceName deviceName +:+ "_" +:+ timestamp (isoNow env) +:+ ".mkv" =
          stem +:+ ".mkv") as -> by (unfold stem; by rewrite !append_assoc).
  assert ("."%char ∉ chars stem) as Hdot by (apply recording_filename_free; by left).
  assert ("/"%char ∉ chars stem) as Hs by (apply recording_filename_free; by auto).
  assert ("\"%char ∉ chars stem) as Hb by (apply recording_filename_free; by auto).
  assert ("/"%char ∉ chars (stem +:+ ".mkv")) as Hs'.
  { rewrite chars_app, not_elem_of_app. split; [done|]. by apply (bool_decide_unpack _). }
  assert ("\"%char ∉ chars (stem +:+ ".mkv")) as Hb'.
  { rewrite chars_app, not_elem_of_app. split; [done|]. by apply (bool_decide_unpack _). }
  assert (Index.isVideoFile (stem +:+ ".mkv") = true) as Hvideo.
  { unfold Index.isVideoFile.
    rewrite (proj2 (endsWith_append ".mkv" _)) by (by eexists). by rewrite orb_true_r. }
  assert (Index.hasVideoExtension (stem +:+ ".mkv") = true) as Hext.
  { unfold Index.hasVideoExtension, toLowerCase. cbv zeta. rewrite map_string_app.
    change (map_string _ ".mkv") with ".mkv".
    rewrite (proj2 (endsWith_append ".mkv" _)) by (by eexists). by rewrite orb_true_r. }
  split; [done|]. split; [done|]. split; [done|]. split; [done|].
  unfold Index.deleteRecording.
  rewrite (includes_dots_append stem "mkv") by done.
  rewrite (proj2 (includes_char_false _ _) Hs'), (proj2 (includes_char_false _ _) Hb').
  cbn [orb]. cbv zeta. by rewrite Hext.
Qed.

Lemma recorded_file_can_be_deleted_witness :
  Index.deleteRecording "/srv/recordings" "______etc_passwd_2024-01-02T03-04-05-678Z.mkv"
    true (Normal ()) =
  {| Index.status := 200; Index.body := Index.SuccessBody "Recording deleted";
     Index.unlinked :=
       Some "/srv/recordings/______etc_passwd_2024-01-02T03-04-05-678Z.mkv" |}.
Proof.
  apply (recorded_file_can_be_deleted "p1" (Some "../../etc/passwd") Sample.env
           (Websocket.mediasoup Sample.streaming) (initial true)
           {| started_filepath :=
                "/srv/recordings/______etc_passwd_2024-01-02T03-04-05-678Z.mkv";
              started_filename := "______etc_passwd_2024-01-02T03-04-05-678Z.mkv" |}).
  - apply (bool_decide_unpack _). vm_compute. exact I.
  - apply (bool_decide_unpack _). vm_compute. exact I.
  - reflexivity.
Defined.

End RecordedFiles.

Section RecorderRuns.
Import Recorder.

Lemma reachable_port_in_range ffmpegFound events :
  port_in_range (Websocket.recorder
                   (Websocket.run_from (Websocket.initial ffmpegFound) events)).
Proof.
  apply (run_keeps_recorder (preserving port_in_range)).
  - apply startRecording_keeps_range.
  - apply stopRecording_keeps_range.
  - exists 0. split; [lia | reflexivity].
Qed.

Lemma reachable_one_session_each ffmpegFound events :
  one_session_each (Websocket.recorder
                      (Websocket.run_from (Websocket.initial ffmpegFound) events)).
Proof.
  apply (run_keeps_recorder (preserving one_session_each)).
  - apply startRecording_keeps_sessions.
  - apply stopRecording_keeps_sessions.
  - apply NoDup_nil_2.
Qed.

(** X8. Seen from any state the server can reach, the ports that [getNextPort]
    hands out repeat with period 5001 and not earlier: two calls fewer than
    5001 calls apart return different ports, and the RTCP port next to one
    is never the RTP port of the other; the call 5001 calls later returns
    the same port again. *)
Theorem getNextPort_period (ffmpegFound : bool) (events : list Websocket.Event)
    (n m : nat) :
  let s := Websocket.recorder (Websocket.run_from (Websocket.initial ffmpegFound) events) in
  let port k := completion (getNextPort (after_calls k s)) in
  (∃ p q, port n = Normal p ∧ port m = Normal q ∧
          (0 < Z.of_nat m - Z.of_nat n < 5001 → p ≠ q ∧ p + 1 ≠ q ∧ q + 1 ≠ p)) ∧
  port (n + Z.to_nat 5001)%nat = port n.
Proof.
  intros s port.
  destruct (reachable_port_in_range ffmpegFound events) as (j & Hj & Hs). fold s in Hs.
  assert (∀ k, port k = Normal (20000 + 2 * ((j + Z.of_nat k) `mod` 5001))) as Hport.
  { intros k. subst port. cbn. by rewrite (after_calls_port k s j). }
  split.
  - eexists _, _. split; [apply Hport|]. split; [apply Hport|]. intros Hnm.
    pose proof (Z.div_mod (j + Z.of_nat n) 5001 ltac:(lia)) as Hn.
    pose proof (Z.mod_pos_bound (j + Z.of_nat n) 5001 ltac:(lia)) as Hn'.
    pose proof (Z.div_mod (j + Z.of_nat m) 5001 ltac:(lia)) as Hm.
    pose proof (Z.mod_pos_bound (j + Z.of_nat m) 5001 ltac:(lia)) as Hm'.
    repeat split; lia.
  - rewrite !Hport. do 3 f_equal.
    replace (j + Z.of_nat (n + Z.to_nat 5001)) with (j + Z.of_nat n + 1 * 5001) by lia.
    by rewrite Z_mod_plus_full.
Qed.

Lemma getNextPort_period_witness :
  let s := Websocket.recorder Sample.streaming in
  ∃ p q, completion (getNextPort (after_calls 0 s)) = Normal p ∧
         completion (getNextPort (after_calls 1 s)) = Normal q ∧ p ≠ q.
Proof.
  intros s.
  destruct (getNextPort_period true Sample.events 0 1) as [(p & q & Hp & Hq & Hnew) _].
  exists p, q. split; [exact Hp|]. split; [exact Hq|]. apply Hnew. lia.
Defined.

Lemma stopRecording_present producerId env s rec :
  jm_get producerId (recordings s) = Some rec →
  stopRecording producerId env s =
  mkOutcome (set_recordings (jm_delete producerId) s) (stop_sequence rec env)
    (Normal (Some {| stopped_filepath := filepath rec;
                     stopped_duration := round_seconds (stop_now env - startTime rec);
                     stopped_deviceName := deviceName rec |})).
Proof.
  intros Hrec. unfold stopRecording, stop_sequence, shutdown_of.
  rewrite bind_unfold, get_state_run. cbv beta iota. rewrite Hrec.
  destruct (consumerClosed env); by exec_m.
Qed.

Lemma stop_all_loop (env : string → StopEnv) : ∀ (entries : JsMap Recording) s,
  NoDup (jm_keys entries) → recordings s = entries →
  for_each (jm_keys entries)
    (λ producerId, exec stopRecording producerId (env producerId); ret ()) s =
  mkOutcome {| recordings := []; nextRtpPort := nextRtpPort s;
               ffmpegAvailable := ffmpegAvailable s |}
            (flat_map (λ '(producerId, rec), stop_sequence rec (env producerId)) entries)
            (Normal ()).
Proof.
  set (body := λ producerId : string, _).
  induction entries as [|[k rec] entries IH]; intros s Hnodup Hs.
  - cbn [jm_keys fmap list_fmap for_each flat_map]. unfold ret. destruct s. cbn in *.
    by rewrite Hs.
  - unfold jm_keys in *. rewrite fmap_cons in *. cbn [fst] in *.
    apply NoDup_cons in Hnodup as [Hk Hnodup].
    assert (jm_delete k entries = entries) as Hrest
      by (by apply jm_delete_absent, jm_get_None_keys).
    cbn [for_each flat_map]. rewrite bind_unfold. unfold body at 1.
    rewrite bind_unfold.
    rewrite (stopRecording_present k (env k) s rec)
      by (rewrite Hs; cbn [jm_get]; by rewrite decide_True).
    cbv beta iota. unfold ret at 1. cbv beta iota.
    rewrite (IH (set_recordings (jm_delete k) s) Hnodup).
    + cbn [app]. by rewrite app_nil_r.
    + cbn. rewrite Hs. cbn [jm_delete]. by rewrite decide_True.
Qed.

(** X9. When the process is told to stop, in whatever state the server is:
    [stopAllRecordings] stops every session, in the order of the
    [recordings] map: for each it closes the consumer unless the engine
    already closed it and arranges the delayed shutdown of its encoder;
    afterwards [recordings] is empty and [getActiveRecordings] returns
    nothing.  It never throws and leaves the port counter alone. *)
Theorem stopAllRecordings_stops_all (ffmpegFound : bool) (events : list Websocket.Event)
    env now :
  let s := Websocket.recorder (Websocket.run_from (Websocket.initial ffmpegFound) events) in
  let r := stopAllRecordings env s in
  completion r = Normal () ∧
  log r = flat_map (λ '(producerId, rec), stop_sequence rec (env producerId))
                   (recordings s) ∧
  recordings (state r) = [] ∧
  getActiveRecordings now (state r) = [] ∧
  nextRtpPort (state r) = nextRtpPort s ∧
  ffmpegAvailable (state r) = ffmpegAvailable s.
Proof.
  intros s r. subst r. unfold stopAllRecordings.
  rewrite bind_unfold, get_state_run. cbv beta iota.
  rewrite (stop_all_loop env (recordings s) s);
    [|apply reachable_one_session_each | done].
  cbn [app]. by repeat split.
Qed.

End RecorderRuns.

(** ** The media registry, entry by entry *)

Section RegistryEntries.
Import Mediasoup.

Lemma jm_delete_filter {V} k (m : list (string * V)) : jm_delete k m = filter (λ e, e.1 ≠ k) m.
Proof.
  induction m as [|[k' v] m IH]; [done|]. cbn [jm_delete]. rewrite filter_cons. cbn [fst].
  destruct (decide (k' = k)) as [->|Hne].
  - by rewrite decide_False by (intros H; by apply H).
  - by rewrite decide_True, IH.
Qed.

Lemma jm_get_elem {V} k (v : V) (m : list (string * V)) : jm_get k m = Some v → (k, v) ∈ m.
Proof.
  induction m as [|[k' v'] m IH]; cbn [jm_get]; [done|].
  destruct (decide (k' = k)) as [->|Hne].
  - intros [= ->]. apply list_elem_of_here.
  - intros H. by apply list_elem_of_further, IH.
Qed.

Lemma jm_elem_get {V} k (v : V) (m : list (string * V)) : NoDup (jm_keys m) → (k, v) ∈ m → jm_get k m = Some v.
Proof.
  unfold jm_keys. induction m as [|[k' v'] m IH]; [by intros _ ?%elem_of_nil|].
  rewrite fmap_cons. cbn [fst jm_get]. intros [Hk Hm]%NoDup_cons.
  intros [[= -> ->]|Hin]%elem_of_cons; [by rewrite decide_True|].
  rewrite decide_False; [by apply IH|]. intros ->. apply Hk.
  apply list_elem_of_fmap. by exists (k, v).
Qed.

Lemma filter_iff_in {A} (P Q : A → Prop) `{!∀ x, Decision (P x)} `{!∀ x, Decision (Q x)}
    (l : list A) :
  (∀ x, x ∈ l → P x ↔ Q x) → filter P l = filter Q l.
Proof.
  induction l as [|x l IH]; intros Hiff; [done|]. rewrite !filter_cons.
  rewrite IH by (intros y Hy; apply Hiff; by apply list_elem_of_further).
  pose proof (Hiff x (list_elem_of_here _ _)) as Hx.
  destruct (decide (P x)) as [HP|HP], (decide (Q x)) as [HQ|HQ]; tauto.
Qed.

Section CloseOwnedExactly.
Context {D : Type} (owner : D → string) (close : string → Action) (clientId : string).

Lemma close_owned_log entries : ∀ (m : list (string * D)),
  (close_owned owner close clientId entries m).2 =
  map close (owned_by owner clientId entries).
Proof.
  unfold owned_by, jm_keys.
  induction entries as [|[id data] rest IH]; intros m; cbn [close_owned]; [done|].
  rewrite filter_cons. cbn [snd].
  destruct (decide (owner data = clientId)); [|apply IH].
  cbn [snd]. rewrite fmap_cons. cbn [fst map]. by rewrite IH.
Qed.

Lemma close_owned_map entries : ∀ (m : list (string * D)),
  (close_owned owner close clientId entries m).1 =
  filter (λ e, e.1 ∉ owned_by owner clientId entries) m.
Proof.
  unfold owned_by, jm_keys.
  induction entries as [|[id data] rest IH]; intros m; cbn [close_owned].
  - cbn. induction m as [|e m IHm]; [done|].
    rewrite filter_cons, decide_True by apply not_elem_of_nil. by rewrite <- IHm.
  - rewrite filter_cons. cbn [snd].
    destruct (decide (owner data = clientId)); [|apply IH].
    cbn [fst]. rewrite IH, jm_delete_filter, fmap_cons. cbn [fst].
    rewrite list_filter_filter. apply list_filter_iff. intros [k d]. cbn [fst].
    rewrite not_elem_of_cons. tauto.
Qed.

Lemma close_owned_others (m : list (string * D)) :
  NoDup (jm_keys m) →
  (close_owned owner close clientId m m).1 = of_others owner clientId m.
Proof.
  intros Hnodup. rewrite close_owned_map. unfold of_others.
  apply filter_iff_in. intros [k d] Hin. cbn [fst snd].
  unfold owned_by, jm_keys. split.
  - intros Hk Hown. apply Hk. apply list_elem_of_fmap. exists (k, d).
    split; [done|]. by apply list_elem_of_filter.
  - intros Hother ((k' & d') & Hk & [Hown Hin']%list_elem_of_filter)%list_elem_of_fmap.
    cbn [fst snd] in *. subst k'.
    apply (jm_elem_get _ _ _ Hnodup) in Hin, Hin'. congruence.
Qed.
End CloseOwnedExactly.

Lemma cleanupClient_exactly clientId s :
  unique_ids s →
  cleanupClient clientId s =
  mkOutcome {| transports := of_others t_clientId clientId (transports s);
               producers := of_others p_clientId clientId (producers s);
               consumers := of_others c_clientId clientId (consumers s) |}
            (map ProducerClose (owned_by p_clientId clientId (producers s)) ++
             map ConsumerClose (owned_by c_clientId clientId (consumers s)) ++
             map TransportClose (owned_by t_clientId clientId (transports s)))
            (Normal ()).
Proof.
  intros (Ht & Hp & Hc). unfold cleanupClient. cbv zeta.
  by rewrite !close_owned_log, !close_owned_others.
Qed.

End RegistryEntries.

(** ** Invariants of the media registry under every event *)

Global Instance on_mediasoup_preorder Q `{!PreOrder Q} : PreOrder (on_mediasoup Q).
Proof.
  split.
  - intros s. unfold on_mediasoup. reflexivity.
  - intros s1 s2 s3. unfold on_mediasoup. apply transitivity.
Qed.

Section MediasoupOnly.
Import Websocket.
Context (Q : Mediasoup.State → Mediasoup.State → Prop) `{!PreOrder Q}.
Context (Htransport : ∀ clientId e, keeps Q (Mediasoup.createWebRtcTransport clientId e)).
Context (Hproducer : ∀ transportId kind clientId deviceName e,
           keeps Q (Mediasoup.createProducer transportId kind clientId deviceName e)).
Context (Hconsumer : ∀ transportId producerId clientId e,
           keeps Q (Mediasoup.createConsumer transportId producerId clientId e)).
Context (Hcleanup : ∀ clientId, keeps Q (Mediasoup.cleanupClient clientId)).
Context (Hengine : ∀ ev ms, Q ms (Mediasoup.onEngineEvent ev ms)).

Lemma modify_keeps_mediasoup (f : State → State) :
  (∀ s, mediasoup (f s) = mediasoup s) → keeps (on_mediasoup Q) (modify f).
Proof. intros Hf s. unfold on_mediasoup. cbn. rewrite Hf. reflexivity. Qed.

Lemma send_keeps_mediasoup to ws type payload :
  keeps (on_mediasoup Q) (send to ws type payload).
Proof. unfold send. keeps_tac. Qed.

Lemma in_recorder_keeps_mediasoup {A} (m : M Recorder.State A) :
  keeps (on_mediasoup Q) (in_recorder m).
Proof.
  apply (keeps_zoom _ (λ _ _, True)); [done|].
  intros s t _. unfold on_mediasoup. cbn. reflexivity.
Qed.

Lemma in_mediasoup_keeps_mediasoup {A} (m : M Mediasoup.State A) :
  keeps Q m → keeps (on_mediasoup Q) (in_mediasoup m).
Proof. intros Hm. by apply (keeps_zoom _ Q). Qed.

Lemma broadcast_keeps_mediasoup type payload :
  keeps (on_mediasoup Q) (broadcastToMasters type payload).
Proof. unfold broadcastToMasters. keeps_tac; apply send_keeps_mediasoup. Qed.

Lemma the_client_keeps_mediasoup clientId e :
  keeps (on_mediasoup Q) (the_client clientId e).
Proof. unfold the_client. keeps_tac. Qed.

Lemma connectTransport_keeps transportId e :
  keeps Q (Mediasoup.connectTransport transportId e).
Proof. unfold Mediasoup.connectTransport. keeps_tac. Qed.

Lemma resumeConsumer_keeps consumerId e :
  keeps Q (Mediasoup.resumeConsumer consumerId e).
Proof. unfold Mediasoup.resumeConsumer. keeps_tac. Qed.

Ltac mediasoup_leaves :=
  first [ apply send_keeps_mediasoup | apply broadcast_keeps_mediasoup
        | apply the_client_keeps_mediasoup | apply in_recorder_keeps_mediasoup
        | apply in_mediasoup_keeps_mediasoup;
          first [ apply Htransport | apply Hproducer | apply Hconsumer | apply Hcleanup
                | apply connectTransport_keeps | apply resumeConsumer_keeps ]
        | apply modify_keeps_mediasoup; intros ?; by repeat case_match ].

Lemma handleMessage_keeps_mediasoup clientId ws data w :
  keeps (on_mediasoup Q) (handleMessage clientId ws data w).
Proof. destruct data; cbn [handleMessage]; keeps_tac; mediasoup_leaves. Qed.

Lemma on_event_keeps_mediasoup ev : keeps (on_mediasoup Q) (on_event ev).
Proof.
  destruct ev as [c ip|c [e|data] w|c w|c rs|ev|env]; cbn [on_event].
  - unfold onConnection. keeps_tac; mediasoup_leaves.
  - unfold onMessage. keeps_tac; mediasoup_leaves.
  - unfold onMessage. keeps_tac; first [apply handleMessage_keeps_mediasoup | mediasoup_leaves].
  - unfold handleDisconnect. keeps_tac; mediasoup_leaves.
  - mediasoup_leaves.
  - intros s. unfold on_mediasoup. cbn. apply Hengine.
  - mediasoup_leaves.
Qed.

Lemma run_keeps_mediasoup events : ∀ s,
  Q (mediasoup s) (mediasoup (run_from s events)).
Proof.
  induction events as [|ev events IH]; intros s; cbn [run_from foldl].
  - reflexivity.
  - etrans; [apply (on_event_keeps_mediasoup ev s) | apply IH].
Qed.
End MediasoupOnly.

Section UniqueIds.
Import Mediasoup.

Lemma filter_keys_NoDup {V} (P : string * V → Prop) `{!∀ e, Decision (P e)}
    (m : list (string * V)) :
  NoDup (jm_keys m) → NoDup (jm_keys (filter P m)).
Proof.
  unfold jm_keys. intros Hm.
  eapply sublist_NoDup; [exact Hm | apply fmap_sublist, sublist_filter].
Qed.

Lemma modify_keeps_unique_ids (f : State → State) :
  (∀ s, unique_ids s → unique_ids (f s)) → keeps (preserving unique_ids) (modify f).
Proof. intros Hf s Hs. cbn. by apply Hf. Qed.

Ltac unique_ids_leaves :=
  apply modify_keeps_unique_ids; intros ? (? & ? & ?);
  repeat split; cbn; first [done | by apply jm_set_NoDup].

Lemma createWebRtcTransport_keeps_unique_ids clientId e :
  keeps (preserving unique_ids) (createWebRtcTransport clientId e).
Proof. unfold createWebRtcTransport. keeps_tac. unique_ids_leaves. Qed.

Lemma createProducer_keeps_unique_ids transportId kind clientId deviceName e :
  keeps (preserving unique_ids) (createProducer transportId kind clientId deviceName e).
Proof. unfold createProducer. keeps_tac. unique_ids_leaves. Qed.

Lemma createConsumer_keeps_unique_ids transportId producerId clientId e :
  keeps (preserving unique_ids) (createConsumer transportId producerId clientId e).
Proof. unfold createConsumer. keeps_tac. unique_ids_leaves. Qed.

Lemma cleanupClient_keeps_unique_ids clientId :
  keeps (preserving unique_ids) (cleanupClient clientId).
Proof.
  intros s Hs. rewrite cleanupClient_exactly by done. destruct Hs as (Ht & Hp & Hc).
  repeat split; cbn [state transports producers consumers]; by apply filter_keys_NoDup.
Qed.

Lemma onEngineEvent_keeps_unique_ids ev s :
  preserving unique_ids s (onEngineEvent ev s).
Proof.
  intros (Ht & Hp & Hc). destruct ev; repeat split; cbn; first [done | by apply jm_delete_NoDup].
Qed.

Lemma reachable_unique_ids ffmpegFound events :
  unique_ids (Websocket.mediasoup
                (Websocket.run_from (Websocket.initial ffmpegFound) events)).
Proof.
  apply (run_keeps_mediasoup (preserving unique_ids)).
  - apply createWebRtcTransport_keeps_unique_ids.
  - apply createProducer_keeps_unique_ids.
  - apply createConsumer_keeps_unique_ids.
  - apply cleanupClient_keeps_unique_ids.
  - apply onEngineEvent_keeps_unique_ids.
  - repeat split; apply NoDup_nil_2.
Qed.

Lemma getProducersByClient_of_others clientId other (m : list (string * ProducerData)) :
  other ≠ clientId →
  filter (λ e, p_clientId e.2 = other) (of_others p_clientId clientId m) =
  filter (λ e, p_clientId e.2 = other) m.
Proof.
  intros Hne. unfold of_others. rewrite list_filter_filter.
  apply list_filter_iff. intros [k d]. cbn. split; [tauto|]. intros <-. done.
Qed.

(** X10. In whatever state the server is, [cleanupClient] closes exactly the
    producers, consumers and transports of the client, each once: first
    its producers, then its consumers, then its transports, each group in
    the order of its map.  The entries of every other
    client stay, in their order, so [getProducersByClient] and
    [getProducers] tell the same about the others as before. *)
Theorem cleanupClient_closes_own (ffmpegFound : bool) (events : list Websocket.Event)
    clientId :
  let s := Websocket.mediasoup (Websocket.run_from (Websocket.initial ffmpegFound) events) in
  let r := cleanupClient clientId s in
  log r = map ProducerClose (owned_by p_clientId clientId (producers s)) ++
          map ConsumerClose (owned_by c_clientId clientId (consumers s)) ++
          map TransportClose (owned_by t_clientId clientId (transports s)) ∧
  producers (state r) = of_others p_clientId clientId (producers s) ∧
  consumers (state r) = of_others c_clientId clientId (consumers s) ∧
  transports (state r) = of_others t_clientId clientId (transports s) ∧
  (∀ other, other ≠ clientId →
     getProducersByClient other (state r) = getProducersByClient other s) ∧
  getProducers (state r) =
    filter (λ info, info_clientId info ≠ clientId) (getProducers s).
Proof.
  intros s r. subst r.
  rewrite cleanupClient_exactly by apply reachable_unique_ids.
  cbn [state log producers consumers transports].
  split; [done|]. split; [done|]. split; [done|]. split; [done|]. split.
  - intros other Hne. unfold getProducersByClient. cbn [producers].
    by rewrite getProducersByClient_of_others.
  - unfold getProducers, of_others. cbn [producers].
    induction (producers s) as [|[k d] m IH]; [done|].
    rewrite filter_cons. cbn [snd map]. rewrite filter_cons. cbn [info_clientId].
    destruct (decide (p_clientId d ≠ clientId)); cbn [map]; by rewrite IH.
Qed.

End UniqueIds.

Section RegistryCalls.
Import Mediasoup.

Lemma jm_delete_set_fresh {V} k (v : V) (m : list (string * V)) :
  jm_get k m = None → jm_delete k (jm_set k v m) = m.
Proof. intros Hk. by rewrite jm_delete_set, jm_delete_absent. Qed.

(** X11. [closeProducer] and [closeTransport] never throw.  For an id that is
    not in the map they do nothing.  For an id that is, they close that one
    engine object and drop that one entry; every other entry of the map
    stays, and nothing of the client remains listed under that id.  A
    second call for the same id does nothing. *)
Theorem close_removes_one_entry id s :
  let p := closeProducer id s in
  let t := closeTransport id s in
  (completion p = Normal () ∧
   log p = match jm_get id (producers s) with
           | Some data => [ProducerClose (producer data)]
           | None => []
           end ∧
   state p = set_producers (jm_delete id) s ∧
   (jm_get id (producers s) = None → state p = s) ∧
   jm_get id (producers (state p)) = None ∧
   (∀ other, other ≠ id →
      jm_get other (producers (state p)) = jm_get other (producers s)) ∧
   closeProducer id (state p) = mkOutcome (state p) [] (Normal ())) ∧
  (completion t = Normal () ∧
   log t = match jm_get id (transports s) with
           | Some data => [TransportClose (transport data)]
           | None => []
           end ∧
   state t = set_transports (jm_delete id) s ∧
   (jm_get id (transports s) = None → state t = s) ∧
   jm_get id (transports (state t)) = None ∧
   (∀ other, other ≠ id →
      jm_get other (transports (state t)) = jm_get other (transports s)) ∧
   closeTransport id (state t) = mkOutcome (state t) [] (Normal ())).
Proof.
  intros p t. subst p t. unfold closeProducer, closeTransport. split.
  - rewrite !bind_unfold, !get_state_run. cbv beta iota.
    destruct (jm_get id (producers s)) as [data|] eqn:Hid; exec_m.
    + rewrite jm_get_delete_eq. repeat split; try done.
      intros other Hne. by apply jm_get_delete_ne.
    + rewrite Hid, (jm_delete_absent _ _ Hid). destruct s. by repeat split.
  - rewrite !bind_unfold, !get_state_run. cbv beta iota.
    destruct (jm_get id (transports s)) as [data|] eqn:Hid; exec_m.
    + rewrite jm_get_delete_eq. repeat split; try done.
      intros other Hne. by apply jm_get_delete_ne.
    + rewrite Hid, (jm_delete_absent _ _ Hid). destruct s. by repeat split.
Qed.

Lemma close_removes_one_entry_witness :
  let s := Websocket.mediasoup Sample.streaming in
  jm_get "p9" (producers s) = None ∧ state (closeProducer "p9" s) = s.
Proof.
  intros s.
  destruct (close_removes_one_entry "p9" s) as [(_ & _ & _ & Hnone & _) _].
  split; [reflexivity | apply Hnone; reflexivity].
Defined.

(** X12. Closing what was just created gives back the registry as it was:
    after [createProducer] has stored the producer that the engine made
    under an id not in use, [closeProducer] of that id closes it and leaves
    [producers] as before the creation; the same holds for
    [createWebRtcTransport] and [closeTransport]. *)
Theorem close_undoes_create transportId kind clientId deviceName e id s :
  answer e = Normal id →
  (jm_get transportId (transports s) ≠ None → jm_get id (producers s) = None →
   let created := createProducer transportId kind clientId deviceName e s in
   completion created = Normal id ∧
   closeProducer id (state created) = mkOutcome s [ProducerClose id] (Normal ())) ∧
  (jm_get id (transports s) = None →
   let created := createWebRtcTransport clientId e s in
   completion created = Normal id ∧
   closeTransport id (state created) = mkOutcome s [TransportClose id] (Normal ())).
Proof.
  intros He. split.
  - intros Ht Hfresh created. subst created. unfold createProducer, closeProducer.
    rewrite !bind_unfold, !get_state_run. cbv beta iota.
    destruct (jm_get transportId (transports s)) as [td|]; [|done]. rewrite He.
    exec_m. split; [done|]. rewrite jm_get_set_eq. exec_m.
    rewrite (jm_delete_set_fresh _ _ _ Hfresh). by destruct s.
  - intros Hfresh created. subst created. unfold createWebRtcTransport, closeTransport.
    rewrite He. exec_m. split; [done|]. rewrite jm_get_set_eq. exec_m.
    rewrite (jm_delete_set_fresh _ _ _ Hfresh). by destruct s.
Qed.

Lemma close_undoes_create_witness :
  let s := Websocket.mediasoup Sample.streaming in
  let created := createProducer "t1" "audio" Sample.front (Some "Front Door")
                   {| answer := Normal "p3"; canConsume := true |} s in
  completion created = Normal "p3" ∧
  closeProducer "p3" (state created) = mkOutcome s [ProducerClose "p3"] (Normal ()).
Proof.
  intros s.
  destruct (close_undoes_create "t1" "audio" Sample.front (Some "Front Door")
              {| answer := Normal "p3"; canConsume := true |} "p3" s eq_refl)
    as [Hproducer _].
  apply Hproducer; [by vm_compute | reflexivity].
Defined.

Lemma truthy_or_else_r a b : truthy b = true → truthy (or_else a b) = true.
Proof. intros Hb. unfold or_else. by destruct (truthy a) eqn:Ha. Qed.

Lemma filter_none {A} (P : A → Prop) `{!∀ x, Decision (P x)} (l : list A) :
  Forall (λ x, ¬ P x) l → filter P l = [].
Proof.
  induction 1 as [|x l Hx _ IH]; [done|]. by rewrite filter_cons, decide_False, IH.
Qed.

Lemma getLocalIPs_first before name earlier iface later after :
  Forall (λ e, Forall (λ i, ¬ external_ipv4 i) e.2) before →
  Forall (λ i, ¬ external_ipv4 i) earlier →
  external_ipv4 iface →
  head (Config.getLocalIPs
          (Normal (before ++ (name, earlier ++ iface :: later) :: after))) =
  Some {| Config.ip_name := name; Config.ip_address := Config.address iface |}.
Proof.
  intros Hbefore Hearlier Hiface. unfold Config.getLocalIPs.
  rewrite flat_map_app. cbn [flat_map].
  assert (flat_map (λ '(name, addresses),
             map (λ iface, {| Config.ip_name := name;
                              Config.ip_address := Config.address iface |})
                 (filter (λ iface, Config.family iface = "IPv4" ∧
                                   Config.internal iface = false) addresses))
            before = []) as ->.
  { induction Hbefore as [|[n g] before Hg _ IH]; [done|]. cbn [flat_map].
    rewrite IH, app_nil_r. cbn [snd] in Hg.
    by rewrite (filter_none (λ iface, Config.family iface = "IPv4" ∧
                                      Config.internal iface = false)). }
  cbn [app]. rewrite filter_app, filter_cons, decide_True by done.
  by rewrite (filter_none (λ iface, Config.family iface = "IPv4" ∧
                                    Config.internal iface = false)).
Qed.

Lemma getLocalIPs_none interfaces :
  (∀ all, interfaces = Normal all →
          Forall (λ e, Forall (λ i, ¬ external_ipv4 i) e.2) all) →
  Config.getLocalIPs interfaces = [].
Proof.
  intros Hnone. destruct interfaces as [all|e]; [|done].
  specialize (Hnone all eq_refl). unfold Config.getLocalIPs.
  induction Hnone as [|[n g] rest Hg _ IH]; [done|]. cbn [flat_map].
  rewrite IH, app_nil_r. cbn [snd] in Hg.
  by rewrite (filter_none (λ iface, Config.family iface = "IPv4" ∧
                                    Config.internal iface = false)).
Qed.

(** X14. [getLocalIPs] reports exactly the addresses of the IPv4 interfaces
    that are not internal, each with the name of its interface, and nothing
    when the interfaces cannot be read.  The list that
    [createWebRtcTransport] hands to the router always announces an address
    in its first entry: it throws only when the configured list is empty
    and no address is given.  Called as the server calls it, with the
    configuration of [config.js], the address announced is the one of the
    first interface, in the order in which the system lists them, that is
    IPv4 and not internal; it is [127.0.0.1] when that address is empty,
    when there is no such interface and when the interfaces cannot be
    read. *)
Theorem listenIps_announce_an_address configured announced interfaces :
  let localIPs := Config.getLocalIPs interfaces in
  let given := listenIps configured announced localIPs in
  let by_default := listenIps Config.listenIps None localIPs in
  (∀ ip, ip ∈ localIPs ↔
         ∃ all group iface,
           interfaces = Normal all ∧ (Config.ip_name ip, group) ∈ all ∧
           iface ∈ group ∧ Config.family iface = "IPv4" ∧
           Config.internal iface = false ∧
           Config.ip_address ip = Config.address iface) ∧
  (∀ ips, given = Normal ips →
     ∃ first rest, ips = first :: rest ∧ truthy (Config.announcedIp first) = true) ∧
  ((∃ e, given = Throw e) ↔ configured = [] ∧ truthy announced = false) ∧
  (∀ before name earlier iface later after,
     interfaces = Normal (before ++ (name, earlier ++ iface :: later) :: after) →
     Forall (λ e, Forall (λ i, ¬ external_ipv4 i) e.2) before →
     Forall (λ i, ¬ external_ipv4 i) earlier →
     external_ipv4 iface →
     by_default =
       Normal [{| Config.ip := "0.0.0.0";
                  Config.announcedIp :=
                    Some (if decide (Config.address iface = "") then "127.0.0.1"
                          else Config.address iface) |}]) ∧
  ((∀ all, interfaces = Normal all →
           Forall (λ e, Forall (λ i, ¬ external_ipv4 i) e.2) all) →
   by_default =
     Normal [{| Config.ip := "0.0.0.0"; Config.announcedIp := Some "127.0.0.1" |}]).
Proof.
  intros localIPs given by_default. split; [|split; [|split; [|split]]].
  - subst localIPs. unfold Config.getLocalIPs. intros ip. split.
    + destruct interfaces as [all|e]; [|by intros ?%elem_of_nil].
      intros Hip. apply list_elem_of_In, in_flat_map in Hip.
      destruct Hip as ([name group] & Hgroup & Hip).
      apply list_elem_of_In in Hgroup.
      apply list_elem_of_In, list_elem_of_fmap in Hip as (iface & -> & Hin).
      apply list_elem_of_filter in Hin as [[Hfamily Hinternal] Hin].
      exists all, group, iface. by cbn.
    + intros (all & group & iface & -> & Hgroup & Hin & Hfamily & Hinternal & Haddress).
      apply list_elem_of_In, in_flat_map. exists (Config.ip_name ip, group).
      split; [by apply list_elem_of_In|].
      apply list_elem_of_In, list_elem_of_fmap. exists iface. split.
      * destruct ip as [n a]. cbn in *. by subst.
      * by apply list_elem_of_filter.
  - subst given. unfold listenIps. cbv zeta. intros ips.
    assert (truthy (or_else announced
                      (or_else (Config.ip_address <$> head localIPs) (Some "127.0.0.1")))
            = true) as Hdetected by (by do 2 apply truthy_or_else_r).
    destruct (truthy announced); [intros [= <-]; by eexists _, _|].
    destruct configured as [|first rest]; [done|].
    destruct (truthy (Config.announcedIp first)) eqn:Hfirst; cbn [negb];
      intros [= <-]; by eexists _, _.
  - subst given. unfold listenIps. cbv zeta.
    destruct (truthy announced).
    + split; [by intros [e ?] | by intros [_ ?]].
    + destruct configured as [|first rest].
      * split; [done | intros _; by eexists].
      * destruct (negb _); split; by intros [? ?].
  - intros before name earlier iface later after -> Hbefore Hearlier Hiface.
    subst by_default localIPs. unfold listenIps, Config.listenIps.
    rewrite (getLocalIPs_first _ _ _ _ _ _ Hbefore Hearlier Hiface). cbn.
    unfold or_else. cbn.
    destruct (decide (Config.address iface = "")) as [->|Hne]; [done|].
    by rewrite bool_decide_eq_false_2.
  - intros Hnone. subst by_default localIPs.
    by rewrite (getLocalIPs_none _ Hnone).
Qed.

Lemma listenIps_announce_an_address_witness :
  listenIps Config.listenIps None
    (Config.getLocalIPs
       (Normal [("lo", [{| Config.family := "IPv4"; Config.internal := true;
                           Config.address := "127.0.0.1" |}]);
                ("eth0", [{| Config.family := "IPv6"; Config.internal := false;
                             Config.address := "fe80::1" |};
                          {| Config.family := "IPv4"; Config.internal := false;
                             Config.address := "192.168.1.20" |}])])) =
  Normal [{| Config.ip := "0.0.0.0"; Config.announcedIp := Some "192.168.1.20" |}].
Proof.
  destruct (listenIps_announce_an_address Config.listenIps None
              (Normal [("lo", [{| Config.family := "IPv4"; Config.internal := true;
                                  Config.address := "127.0.0.1" |}]);
                       ("eth0", [{| Config.family := "IPv6"; Config.internal := false;
                                    Config.address := "fe80::1" |};
                                 {| Config.family := "IPv4"; Config.internal := false;
                                    Config.address := "192.168.1.20" |}])]))
    as (_ & _ & _ & Hfirst & _).
  apply (Hfirst [("lo", [{| Config.family := "IPv4"; Config.internal := true;
                            Config.address := "127.0.0.1" |}])]
                "eth0"
                [{| Config.family := "IPv6"; Config.internal := false;
                    Config.address := "fe80::1" |}]
                {| Config.family := "IPv4"; Config.internal := false;
                   Config.address := "192.168.1.20" |} [] []).
  - reflexivity.
  - repeat constructor; by intros [? ?].
  - repeat constructor; by intros [? ?].
  - by split.
Defined.

End RegistryCalls.

(** ** How a computation ends *)

Section Endings.
Context {S : Type}.









Lemma reads_only_ret {A} (a : A) : reads_only (S:=S) (ret a).
Proof. intros s. by eexists. Qed.

Lemma reads_only_throw {A} e : reads_only (S:=S) (throw (A:=A) e).
Proof. intros s. by eexists. Qed.








End Endings.


Section DispatchEndings.
Import Websocket.





Lemma the_client_reads_only clientId e : reads_only (the_client clientId e).
Proof.
  intros s. unfold the_client. rewrite bind_unfold, get_state_run.
  destruct (clients s !! clientId); by eexists.
Qed.











End DispatchEndings.

(** ** Who is written to *)

Section Silent.
Context {S : Type}.

Lemma silent_ret {A} (a : A) : silent (S:=S) (ret a).
Proof. done. Qed.

Lemma silent_throw {A} e : silent (S:=S) (throw (A:=A) e).
Proof. done. Qed.

Lemma silent_get_state : silent (S:=S) get_state.
Proof. done. Qed.

Lemma silent_modify (f : S → S) : silent (modify f).
Proof. done. Qed.

Lemma silent_emit a : frames [a] = [] → silent (S:=S) (emit a).
Proof. by intros Ha s. Qed.

Lemma silent_bind {A B} (m : M S A) (f : A → M S B) :
  silent m → (∀ a, silent (f a)) → silent (bind m f).
Proof.
  intros Hm Hf s. rewrite bind_unfold. specialize (Hm s).
  destruct (m s) as [s1 l1 [a|e]]; [|done].
  specialize (Hf a s1). destruct (f a s1) as [s2 l2 c]. cbn [log] in *.
  by rewrite frames_app, Hm, Hf.
Qed.

Lemma silent_try_catch {A} (m : M S A) h :
  silent m → (∀ e, silent (h e)) → silent (try_catch m h).
Proof.
  intros Hm Hh s. rewrite try_catch_unfold. specialize (Hm s).
  destruct (m s) as [s1 l1 [a|e]]; [done|].
  specialize (Hh e s1). destruct (h e s1) as [s2 l2 c]. cbn [log] in *.
  by rewrite frames_app, Hm, Hh.
Qed.

Lemma silent_for_each {A} (l : list A) body :
  (∀ x, silent (body x)) → silent (S:=S) (for_each l body).
Proof.
  intros Hb. induction l as [|x l IH]; cbn [for_each]; [apply silent_ret|].
  by apply silent_bind.
Qed.

Lemma silent_await {A} (answer : Completion A) done_ :
  (∀ a, frames [done_ a] = []) → silent (S:=S) (await answer done_).
Proof.
  intros Hdone. destruct answer as [a|e]; cbn [await]; [|apply silent_throw].
  apply silent_bind; [by apply silent_emit | intros _; apply silent_ret].
Qed.

End Silent.

Ltac silent_tac :=
  repeat first
    [ apply silent_ret
    | apply silent_throw
    | apply silent_get_state
    | apply silent_modify
    | apply silent_emit; reflexivity
    | apply silent_await; intros ?; reflexivity
    | apply silent_bind; [|intros ?]
    | apply silent_try_catch; [|intros ?]
    | apply silent_for_each; intros ?
    | match goal with
      | |- silent (match ?x with _ => _ end) => destruct x
      end ].

Section SilentModules.

Lemma createWebRtcTransport_silent clientId e :
  silent (Mediasoup.createWebRtcTransport clientId e).
Proof. unfold Mediasoup.createWebRtcTransport. silent_tac. Qed.

Lemma connectTransport_silent transportId e :
  silent (Mediasoup.connectTransport transportId e).
Proof. unfold Mediasoup.connectTransport. silent_tac. Qed.

Lemma createProducer_silent transportId kind clientId deviceName e :
  silent (Mediasoup.createProducer transportId kind clientId deviceName e).
Proof. unfold Mediasoup.createProducer. silent_tac. Qed.

Lemma createConsumer_silent transportId producerId clientId e :
  silent (Mediasoup.createConsumer transportId producerId clientId e).
Proof. unfold Mediasoup.createConsumer. silent_tac. Qed.

Lemma resumeConsumer_silent consumerId e :
  silent (Mediasoup.resumeConsumer consumerId e).
Proof. unfold Mediasoup.resumeConsumer. silent_tac. Qed.

Lemma cleanupClient_is_silent clientId : silent (Mediasoup.cleanupClient clientId).
Proof. intros s. apply cleanupClient_silent. Qed.

Lemma getNextPort_silent : silent Recorder.getNextPort.
Proof. done. Qed.

Lemma startRecording_silent producerId deviceName env ms :
  silent (Recorder.startRecording producerId deviceName env ms).
Proof.
  unfold Recorder.startRecording, Recorder.step.
  silent_tac; apply getNextPort_silent.
Qed.

Lemma stopRecording_silent producerId env :
  silent (Recorder.stopRecording producerId env).
Proof. unfold Recorder.stopRecording. silent_tac. Qed.

Lemma stopAllRecordings_silent env : silent (Recorder.stopAllRecordings env).
Proof. unfold Recorder.stopAllRecordings. silent_tac. Qed.

End SilentModules.

Section OpenSockets.
Import Websocket.
Context (s0 : State).

Lemma frames_nil_open l : frames l = [] → Forall (to_open_socket s0) l.
Proof.
  induction l as [|a l IH]; [done|]. destruct a; cbn; try done;
    intros H; constructor; by auto.
Qed.

Lemma writes_ret {A} (a : A) : writes_to_open s0 (ret a).
Proof. by intros s Hs. Qed.

Lemma writes_throw {A} e : writes_to_open s0 (throw (A:=A) e).
Proof. by intros s Hs. Qed.

Lemma writes_get_state : writes_to_open s0 get_state.
Proof. by intros s Hs. Qed.

Lemma writes_modify (f : State → State) :
  (∀ s, opens_none s (f s)) → writes_to_open s0 (modify f).
Proof.
  intros Hf s Hs. split; [|done]. cbn. intros id Hid. by apply Hs, Hf.
Qed.

Lemma writes_bind {A B} (m : M State A) (f : A → M State B) :
  writes_to_open s0 m → (∀ a, writes_to_open s0 (f a)) → writes_to_open s0 (bind m f).
Proof.
  intros Hm Hf s Hs. rewrite bind_unfold. destruct (Hm s Hs) as [Hs1 Hl1].
  destruct (m s) as [s1 l1 [a|e]]; [|done].
  destruct (Hf a s1 Hs1) as [Hs2 Hl2]. destruct (f a s1) as [s2 l2 c].
  cbn [state log] in *.
  split; [done|]. by apply Forall_app.
Qed.

Lemma writes_try_catch {A} (m : M State A) h :
  writes_to_open s0 m → (∀ e, writes_to_open s0 (h e)) → writes_to_open s0 (try_catch m h).
Proof.
  intros Hm Hh s Hs. rewrite try_catch_unfold. destruct (Hm s Hs) as [Hs1 Hl1].
  destruct (m s) as [s1 l1 [a|e]]; [done|].
  destruct (Hh e s1 Hs1) as [Hs2 Hl2]. destruct (h e s1) as [s2 l2 c].
  cbn [state log] in *.
  split; [done|]. by apply Forall_app.
Qed.

Lemma writes_for_each {A} (l : list A) body :
  (∀ x, writes_to_open s0 (body x)) → writes_to_open s0 (for_each l body).
Proof.
  intros Hb. induction l as [|x l IH]; cbn [for_each]; [apply writes_ret|].
  by apply writes_bind.
Qed.

Lemma writes_in_mediasoup {A} (m : M Mediasoup.State A) :
  silent m → writes_to_open s0 (in_mediasoup m).
Proof.
  intros Hm s Hs. unfold in_mediasoup. rewrite zoom_unfold. specialize (Hm (mediasoup s)).
  destruct (m (mediasoup s)) as [t l c]. cbn [state log] in *.
  split; [exact Hs | by apply frames_nil_open].
Qed.

Lemma writes_in_recorder {A} (m : M Recorder.State A) :
  silent m → writes_to_open s0 (in_recorder m).
Proof.
  intros Hm s Hs. unfold in_recorder. rewrite zoom_unfold. specialize (Hm (recorder s)).
  destruct (m (recorder s)) as [t l c]. cbn [state log] in *.
  split; [exact Hs | by apply frames_nil_open].
Qed.

Lemma writes_send to ws type payload :
  (ws = OPEN → socket_of to s0 = OPEN) → writes_to_open s0 (send to ws type payload).
Proof.
  intros Hws s Hs. rewrite send_log. cbn. split; [done|]. unfold reply.
  destruct (decide (ws = OPEN)); [|done]. constructor; [by apply Hws | done].
Qed.

Lemma writes_broadcast type payload : writes_to_open s0 (broadcastToMasters type payload).
Proof.
  intros s Hs. rewrite broadcastToMasters_run. cbn. split; [done|].
  apply Forall_forall. intros a (m & -> & Hm)%list_elem_of_fmap.
  unfold recipients in Hm. apply list_elem_of_filter in Hm as [Hopen _]. by apply Hs.
Qed.

Lemma writes_the_client clientId e : writes_to_open s0 (the_client clientId e).
Proof.
  intros s Hs. destruct (the_client_reads_only clientId e s) as [c ->]. by split.
Qed.

Lemma alter_opens_none clientId (f : Client → Client) s :
  (∀ c, ws (f c) = ws c) → opens_none s (set_clients (alter f clientId) s).
Proof.
  intros Hf id. unfold socket_of. cbn. rewrite lookup_alter.
  destruct (decide (clientId = id)) as [->|]; [|done].
  destruct (clients s !! id) as [c|]; [|done]. cbn. by rewrite Hf.
Qed.

End OpenSockets.

Ltac writes_tac :=
  repeat first
    [ apply writes_ret
    | apply writes_throw
    | apply writes_get_state
    | apply writes_the_client
    | apply writes_broadcast
    | apply writes_bind; [|intros ?]
    | apply writes_try_catch; [|intros ?]
    | apply writes_for_each; intros ?
    | match goal with
      | |- writes_to_open _ (match ?x with _ => _ end) => destruct x
      end ].

Section OpenSocketsOnly.
Import Websocket.

Lemma opens_none_refl s : opens_none s s.
Proof. by intros id. Qed.

Lemma writes_register s0 clientId ws0 role deviceName w :
  (ws0 = OPEN → socket_of clientId s0 = OPEN) →
  writes_to_open s0 (handleMessage clientId ws0 (Register role deviceName) w).
Proof.
  intros Hws s Hs.
  destruct (clients s !! clientId) as [c|] eqn:Hc.
  - rewrite (register_run _ _ _ _ _ _ _ Hc). cbv zeta.
    set (s1 := set_clients _ s).
    assert (∀ id, socket_of id s1 = socket_of id s) as Hsame.
    { intros id. unfold socket_of, s1. cbn. destruct (decide (clientId = id)) as [->|Hne].
      - by rewrite lookup_insert_eq, Hc.
      - by rewrite lookup_insert_ne. }
    assert (Forall (to_open_socket s0)
              (reply clientId ws0 "registered"
                 (PRegistered role (nameOrDefault deviceName clientId)))) as Hreply.
    { unfold reply. destruct (decide (ws0 = OPEN)); [|done].
      constructor; [by apply Hws | done]. }
    destruct (decide (role = Some "streamer")); [|destruct (decide (role = Some "master"))];
      cbn [state log]; (split; [intros id Hid; apply Hs; by rewrite <- Hsame|]).
    + apply Forall_app. split; [|done].
      apply Forall_forall. intros a (m & -> & Hm)%list_elem_of_fmap.
      unfold recipients in Hm. apply list_elem_of_filter in Hm as [Hopen _].
      apply Hs. by rewrite <- Hsame.
    + apply Forall_app. split; [|done]. unfold reply.
      destruct (decide (ws0 = OPEN)); [|done]. constructor; [by apply Hws | done].
    + done.
  - unfold handleMessage. rewrite bind_unfold, (the_client_absent _ _ _ Hc). by split.
Qed.

Lemma writes_pan_zoom s0 clientId ws0 target zoom panX panY w :
  writes_to_open s0 (handleMessage clientId ws0 (PanZoom target zoom panX panY) w).
Proof.
  intros s Hs. unfold handleMessage. rewrite bind_unfold, get_state_run. cbv beta iota.
  destruct target as [t|]; [|by split].
  destruct (clients s !! t) as [c|] eqn:Hc; [|by split].
  destruct (decide (ws c = OPEN)) as [Hopen|]; [|by split].
  rewrite send_log. unfold reply. rewrite decide_True by done. cbn [state log app].
  split; [done|]. constructor; [|done]. cbn. apply Hs. unfold socket_of. by rewrite Hc.
Qed.

Lemma writes_handleMessage s0 clientId ws0 data w :
  (ws0 = OPEN → socket_of clientId s0 = OPEN) →
  writes_to_open s0 (handleMessage clientId ws0 data w).
Proof.
  intros Hws.
  assert (∀ type payload, writes_to_open s0 (send clientId ws0 type payload)) as Hsend
    by (intros; by apply writes_send).
  destruct data as [role deviceName| | | | | |target zoom panX panY| | | | | |];
    [by apply writes_register|..|]; [..|apply writes_pan_zoom| | | | | |];
    cbn [handleMessage]; writes_tac;
    try apply Hsend;
    try (apply writes_modify; intros s;
         first [ apply opens_none_refl | by apply alter_opens_none
               | destruct (jm_get _ _); by intros id ]);
    try (apply writes_in_mediasoup;
         first [ apply createWebRtcTransport_silent | apply connectTransport_silent
               | apply createProducer_silent | apply createConsumer_silent
               | apply resumeConsumer_silent | apply cleanupClient_is_silent ]);
    try (apply writes_in_recorder;
         first [ apply startRecording_silent | apply stopRecording_silent ]).
Qed.

Lemma writes_handleDisconnect s0 clientId w :
  writes_to_open s0 (handleDisconnect clientId w).
Proof.
  unfold handleDisconnect. writes_tac;
    try (apply writes_modify; intros s; first [apply opens_none_refl | idtac]);
    try (apply writes_in_mediasoup, cleanupClient_is_silent);
    try (apply writes_in_recorder, stopRecording_silent).
  intros id. unfold socket_of. cbn. destruct (decide (clientId = id)) as [->|Hne].
  - by rewrite lookup_delete_eq.
  - by rewrite lookup_delete_ne.
Qed.

(** X16. No frame is ever written to a socket that is not open, nor on behalf
    of a client that is not connected: whatever happens to the server in
    whatever state, every frame it writes goes to a client of [clients]
    whose socket is open, or is the [welcome] to the client that is just
    connecting. *)
Theorem frames_go_to_open_sockets ev s to type payload :
  WsSend to type payload ∈ log (on_event ev s) →
  (socket_of to s = OPEN ∧ is_Some (clients s !! to)) ∨
  (∃ clientIp, ev = Connection to clientIp ∧ type = "welcome").
Proof.
  intros Hin.
  assert (Forall (to_open_socket s) (log (on_event ev s)) →
          socket_of to s = OPEN ∧ is_Some (clients s !! to)) as Hopen.
  { intros Hall. rewrite Forall_forall in Hall. specialize (Hall _ Hin). cbn in Hall.
    split; [done|]. unfold socket_of in Hall. by destruct (clients s !! to). }
  destruct ev as [c ip|c message w|c w|c rs|ev|env]; cbn [on_event] in *.
  - right. unfold onConnection in Hin. revert Hin. exec_m. rewrite send_log.
    unfold reply. rewrite decide_True by done. cbn [log app].
    intros [= <- <- _]%list_elem_of_singleton. by exists ip.
  - left. apply Hopen. unfold onMessage. rewrite bind_unfold, get_state_run.
    cbv beta iota zeta. set (m := try_catch _ _).
    assert (writes_to_open s m) as Hm.
    { apply writes_try_catch.
      - destruct message; [apply writes_throw | by apply writes_handleMessage].
      - intros e. by apply writes_send. }
    destruct (Hm s (opens_none_refl s)) as [_ Hlog]. by destruct (m s).
  - left. apply Hopen. by apply writes_handleDisconnect, opens_none_refl.
  - by apply elem_of_nil in Hin.
  - by apply elem_of_nil in Hin.
  - left. apply Hopen.
    by apply writes_in_recorder; [apply stopAllRecordings_silent | apply opens_none_refl].
Qed.

Lemma frames_go_to_open_sockets_witness :
  socket_of Sample.viewer Sample.streaming = OPEN ∧
  is_Some (clients Sample.streaming !! Sample.viewer).
Proof.
  destruct (frames_go_to_open_sockets
              (Incoming Sample.front (Parsed StopStreaming) (Sample.world ""))
              Sample.streaming Sample.viewer "streamer-left"
              (PStreamerLeft Sample.front (Some "Front Door")))
    as [Hopen|(ip & Hconnection & _)].
  - vm_compute. repeat first [apply list_elem_of_here | apply list_elem_of_further].
  - exact Hopen.
  - discriminate Hconnection.
Defined.

End OpenSocketsOnly.

(** ** Who is listed *)

Section ConnectedOnly.
Import Websocket.

Lemma same_registry_connected_only s s' :
  same_registry s s' → connected_only s → connected_only s'.
Proof.
  intros (Hc & Hk & Hm) [Hmasters Hstreamers]. unfold connected_only.
  by rewrite Hc, Hk, Hm.
Qed.

Lemma set_add_elem id x l : x ∈ set_add id l ↔ x = id ∨ x ∈ l.
Proof.
  unfold set_add. destruct (decide (id ∈ l)) as [Hin|Hnot].
  - split; [by right | intros [-> | ?]; done].
  - rewrite elem_of_app, list_elem_of_singleton. tauto.
Qed.

Lemma on_event_connected_only s ev :
  connected_only s → connected_only (state (on_event ev s)).
Proof.
  intros [Hmasters Hstreamers].
  destruct ev as [c ip|c [e|data] w|c w|c rs|ev|env]; cbn [on_event].
  - unfold onConnection. exec_m. rewrite send_log. cbn [state].
    split; cbn [masters streamers clients]; intros id Hid;
      (destruct (decide (c = id)) as [->|Hne];
       [by rewrite lookup_insert_eq | rewrite lookup_insert_ne by done; by auto]).
  - rewrite onMessage_unparsable. by split.
  - assert (∀ d, (∀ role dn, d ≠ Register role dn) → d ≠ StopStreaming →
              connected_only (state (onMessage c (Parsed d) w s))) as Hother.
    { intros d Hnoreg Hnostop.
      apply (same_registry_connected_only s); [|by split].
      apply onMessage_keeps; [apply _| |apply send_keeps_registry].
      intros ws. by apply handleMessage_keeps_registry. }
    destruct data as [role dn| | | | | | | | | | | |];
      try (apply Hother; [intros ? ?; discriminate | discriminate]).
    + destruct (clients s !! c) as [cl|] eqn:Hc.
      * rewrite (onMessage_register _ _ _ _ _ _ Hc). unfold registered.
        split; cbn [masters streamers clients]; intros id Hid;
          (destruct (decide (c = id)) as [->|Hne];
           [by rewrite lookup_insert_eq | rewrite lookup_insert_ne by done]).
        -- apply Hmasters. destruct (decide (role = Some "streamer")); [done|].
           destruct (decide (role = Some "master")); [|done].
           apply set_add_elem in Hid as [-> | ?]; done.
        -- apply Hstreamers. destruct (decide (role = Some "streamer")); [|done].
           rewrite jm_keys_set in Hid. destruct (decide (c ∈ _)); [done|].
           apply elem_of_app in Hid as [? | ->%list_elem_of_singleton]; done.
      * rewrite onMessage_needs_client by eauto. by split.
    + destruct (clients s !! c) as [cl|] eqn:Hc.
      * rewrite (onMessage_stop_streaming _ _ _ _ Hc). unfold stopped_streaming.
        split; cbn [masters streamers clients]; intros id Hid;
          rewrite lookup_alter; (destruct (decide (c = id)) as [->|Hne];
                                 [by rewrite Hc|]).
        -- by apply Hmasters.
        -- apply Hstreamers. rewrite jm_keys_delete in Hid.
           by apply list_elem_of_filter in Hid as [_ ?].
      * rewrite onMessage_needs_client by eauto. by split.
  - destruct (clients s !! c) as [cl|] eqn:Hc.
    + rewrite (handleDisconnect_state _ _ _ _ Hc). unfold disconnected.
      split; cbn [masters streamers clients]; intros id Hid.
      * apply list_elem_of_filter in Hid as [Hne Hid].
        rewrite lookup_delete_ne by done. by apply Hmasters.
      * rewrite jm_keys_delete in Hid. apply list_elem_of_filter in Hid as [Hne Hid].
        rewrite lookup_delete_ne by done. by apply Hstreamers.
    + rewrite handleDisconnect_absent by done. by split.
  - exec_m. split; cbn [masters streamers clients]; intros id Hid;
      rewrite lookup_alter; destruct (decide (c = id)) as [->|Hne];
      first [ by apply Hmasters | by apply Hstreamers | idtac ].
    + destruct (Hmasters id Hid) as [cl ->]. by eexists.
    + destruct (Hstreamers id Hid) as [cl ->]. by eexists.
  - exec_m. by split.
  - apply (same_registry_connected_only s); [|by split].
    apply (in_recorder_keeps_registry (Recorder.stopAllRecordings env) s).
Qed.

Lemma reachable_connected_only ffmpegFound events :
  connected_only (run_from (initial ffmpegFound) events).
Proof.
  assert (∀ s, connected_only s → connected_only (run_from s events)) as Hrun.
  { induction events as [|ev events IH]; intros s Hs; cbn [run_from foldl]; [done|].
    by apply IH, on_event_connected_only. }
  apply Hrun. split; intros id Hid; cbn in Hid; by apply elem_of_nil in Hid.
Qed.

(** X17. Whatever has happened, only connected clients are listed: every master
    and every streamer that a [streamer-list] names is a client of
    [clients], no master is in [masters] twice and no streamer is listed
    twice, so a streamer whose connection has closed is never offered to a
    viewer and a viewer that has gone is never written to.  A client whose
    role is [streamer] is always listed. *)
Theorem only_connected_clients_are_listed (ffmpegFound : bool) (events : list Event) :
  let s := run_from (initial ffmpegFound) events in
  (∀ id, id ∈ masters s → is_Some (clients s !! id)) ∧
  (∀ entry, entry ∈ streamerList s → is_Some (clients s !! entry_clientId entry)) ∧
  NoDup (masters s) ∧
  NoDup (map entry_clientId (streamerList s)) ∧
  (∀ id c, clients s !! id = Some c → role c = Some "streamer" →
           id ∈ map entry_clientId (streamerList s)).
Proof.
  intros s.
  destruct (reachable_connected_only ffmpegFound events) as [Hmasters Hstreamers].
  destruct (reachable_invariant ffmpegFound events) as [_ (Hnd & Hkeys & Hrole)].
  fold s in Hmasters, Hstreamers, Hnd, Hkeys, Hrole.
  rewrite streamerList_ids.
  split; [done|]. split; [|split; [done|split; [done|]]].
  - intros entry Hentry. apply Hstreamers. rewrite <- streamerList_ids.
    apply list_elem_of_fmap. by exists entry.
  - intros id c Hc Hr. apply dec_stable. intros Hnot.
    apply jm_get_None_keys in Hnot. by apply (Hrole id c).
Qed.

End ConnectedOnly.

(** ** A connection closes *)

Section Disconnect.
Import Websocket.

Lemma jm_delete_all {V} ids : ∀ (m : list (string * V)),
  foldl (λ m k, jm_delete k m) m ids = filter (λ e, e.1 ∉ ids) m.
Proof.
  induction ids as [|p ids IH]; intros m; cbn [foldl].
  - symmetry. apply filter_all, Forall_forall. intros e _. apply not_elem_of_nil.
  - rewrite IH, jm_delete_filter, list_filter_filter. apply list_filter_iff. intros [k v].
    cbn [fst]. rewrite not_elem_of_cons. tauto.
Qed.

Lemma without_recordings_filter ids : ∀ r,
  Recorder.recordings (without_recordings ids r) =
  filter (λ e, e.1 ∉ ids) (Recorder.recordings r).
Proof.
  intros r.
  transitivity (foldl (λ m k, jm_delete k m) (Recorder.recordings r) ids);
    [|apply jm_delete_all].
  revert r.
  induction ids as [|p ids IH]; intros r; cbn [without_recordings foldl]; [done|].
  unfold without_recordings in IH. by rewrite IH.
Qed.

Lemma getProducersByClient_ids clientId ms :
  map ref_id (Mediasoup.getProducersByClient clientId ms) =
  owned_by Mediasoup.p_clientId clientId (Mediasoup.producers ms).
Proof.
  unfold Mediasoup.getProducersByClient, owned_by, jm_keys.
  rewrite <- list_fmap_compose. apply list_fmap_ext. by intros _ [id data] _.
Qed.







(** The close of the first streamer's connection in the sample: both of
    its sessions' worth of work is done for [p1], and the one viewer is
    told. *)
Example disconnect_of_a_streamer :
  log (on_event (Close Sample.front (Sample.world "")) Sample.streaming) =
  [ RecordingConsumerClose "rec-consumer-1";
    SetTimeoutShutdown 500 "ffmpeg-1" "plain-1" "/srv/recordings/p1.sdp";
    ProducerClose "p1"; TransportClose "t1";
    WsSend Sample.viewer "streamer-left" (PStreamerLeft Sample.front (Some "Front Door")) ].
Proof. vm_compute. reflexivity. Qed.

End Disconnect.

(** ** A session whose producer has left the registry *)

Section LostProducers.
Import Websocket.

(** [stop-streaming] looks for the recordings of the client among the
    producers that the registry lists for it at that moment: the sessions
    it removes are theirs, and every other session stays. *)
Lemma stop_streaming_recordings clientId c w s :
  clients s !! clientId = Some c →
  Recorder.recordings (recorder (state (onMessage clientId (Parsed StopStreaming) w s))) =
  filter (λ e, e.1 ∉ owned_by Mediasoup.p_clientId clientId
                        (Mediasoup.producers (mediasoup s)))
         (Recorder.recordings (recorder s)).
Proof.
  intros Hc. rewrite (onMessage_stop_streaming _ _ _ _ Hc).
  unfold stopped_streaming. cbn [recorder].
  by rewrite without_recordings_filter, getProducersByClient_ids.
Qed.

(** C5 fails on the code.  The first streamer of the sample records its
    producer [p1]; the engine reports that the transport of [p1] has
    closed, and the handler that [createProducer] registered drops [p1]
    from [producers]; then the streamer sends [stop-streaming].  The
    handler finds no producer of the client in the registry, so the
    session of [p1] stays in [recordings]: its consumer is not closed and
    no shutdown of its encoder is arranged.  The rest of what the claim
    says happens: the one viewer is sent one [streamer-left], the record in
    [streamers] is removed, the transport of the client is closed, the role
    is reset and the sender is sent [streaming-stopped]. *)
Theorem stop_streaming_leaves_session :
  let s := run_from (initial true) Sample.transport_lost in
  let r := onMessage Sample.front (Parsed StopStreaming) (Sample.world "") s in
  clients s !! Sample.front = Some Sample.front_client ∧
  role Sample.front_client = Some "streamer" ∧
  Recorder.filepath <$> jm_get "p1" (Recorder.recordings (recorder s)) =
    Some "/srv/recordings/Front_Door_2024-01-02T03-04-05-678Z.mkv" ∧
  Mediasoup.getProducersByClient Sample.front (mediasoup s) = [] ∧
  completion r = Normal () ∧
  jm_get "p1" (Recorder.recordings (recorder (state r))) =
    jm_get "p1" (Recorder.recordings (recorder s)) ∧
  log r =
    [ TransportClose "t1";
      WsSend Sample.viewer "streamer-left" (PStreamerLeft Sample.front (Some "Front Door"));
      WsSend Sample.front "streaming-stopped" (PStreamingStopped true) ] ∧
  jm_get Sample.front (streamers (state r)) = None ∧
  clients (state r) !! Sample.front = Some (unregistered Sample.front_client).
Proof.
  intros s r.
  assert (clients s !! Sample.front = Some Sample.front_client) as Hc
    by (vm_compute; reflexivity).
  split; [exact Hc|]. split; [reflexivity|].
  split; [vm_compute; reflexivity|]. split; [vm_compute; reflexivity|].
  split; [vm_compute; reflexivity|].
  split; [subst r; rewrite (stop_streaming_recordings _ _ _ _ Hc); vm_compute; reflexivity|].
  split; [vm_compute; reflexivity|]. split; vm_compute; reflexivity.
Qed.

End LostProducers.

(** ** A producer is made *)

Section Produce.
Import Websocket.

Lemma produce_run clientId ws0 transportId kind w s c transportData id :
  clients s !! clientId = Some c →
  jm_get transportId (Mediasoup.transports (mediasoup s)) = Some transportData →
  Mediasoup.answer (engine w) = Normal id →
  let s2 := with_producer clientId c id kind s in
  let attempt := recording_attempt c id kind w s2 in
  handleMessage clientId ws0 (Produce transportId kind) w s =
  mkOutcome (set_recorder (state attempt) s2)
    ([TransportProduce transportId id] ++
     map (λ m, WsSend m "new-producer" (PNewProducer id clientId (deviceName c) kind))
         (recipients s) ++
     log attempt ++
     reply clientId ws0 "produced" (PProduced id kind))
    (Normal ()).
Proof.
  intros Hc Ht He s2 attempt.
  unfold handleMessage.
  rewrite bind_unfold, (the_client_run _ _ _ _ Hc). cbv beta iota.
  rewrite bind_unfold. unfold in_mediasoup. rewrite zoom_unfold.
  unfold Mediasoup.createProducer.
  rewrite bind_unfold, get_state_run. cbv beta iota. rewrite Ht, He.
  exec_m. rewrite broadcastToMasters_run. cbv beta iota.
  set (s2' := match jm_get clientId (streamers s) with Some _ => _ | None => _ end).
  assert (s2' = s2) as ->.
  { subst s2' s2. unfold with_producer. by destruct (jm_get clientId (streamers s)). }
  rewrite (recipients_same s s2) by done.
  subst attempt. unfold recording_attempt.
  destruct (decide (kind = "video")) as [Hvideo|Hother].
  - pose proof (startRecording_throw_changes_nothing id (deviceName c)
                  (recorderEnv w) (mediasoup s2) (recorder s2)) as Hthrow.
    destruct (Recorder.startRecording id (deviceName c) (recorderEnv w) (mediasoup s2)
                (recorder s2)) as [r' l' [result|e]] eqn:Hrec.
    + rewrite send_log. cbn [state log]. by rewrite !app_nil_r.
    + destruct (Hthrow e eq_refl) as [Hr' Hl']. cbn [state log] in Hr', Hl'. subst r' l'.
      rewrite send_log. cbn [state log app]. done.
  - rewrite send_log. cbn [state log app]. by rewrite state_eta.
Qed.

Lemma produce_without_client clientId ws0 transportId kind w s :
  clients s !! clientId = None →
  handleMessage clientId ws0 (Produce transportId kind) w s =
  mkOutcome s [] (Throw cannot_read_deviceName).
Proof.
  intros Hc. unfold handleMessage. by rewrite bind_unfold, (the_client_absent _ _ _ Hc).
Qed.

Lemma produce_without_transport clientId ws0 transportId kind w s c :
  clients s !! clientId = Some c →
  jm_get transportId (Mediasoup.transports (mediasoup s)) = None →
  handleMessage clientId ws0 (Produce transportId kind) w s =
  mkOutcome s [] (Throw ("Transport " +:+ transportId +:+ " not found")).
Proof.
  intros Hc Ht. unfold handleMessage.
  rewrite bind_unfold, (the_client_run _ _ _ _ Hc). cbv beta iota.
  rewrite bind_unfold. unfold in_mediasoup. rewrite zoom_unfold.
  unfold Mediasoup.createProducer.
  rewrite bind_unfold, get_state_run. cbv beta iota. rewrite Ht.
  exec_m. by rewrite state_eta.
Qed.

Lemma produce_rejected clientId ws0 transportId kind w s c transportData e :
  clients s !! clientId = Some c →
  jm_get transportId (Mediasoup.transports (mediasoup s)) = Some transportData →
  Mediasoup.answer (engine w) = Throw e →
  handleMessage clientId ws0 (Produce transportId kind) w s = mkOutcome s [] (Throw e).
Proof.
  intros Hc Ht He. unfold handleMessage.
  rewrite bind_unfold, (the_client_run _ _ _ _ Hc). cbv beta iota.
  rewrite bind_unfold. unfold in_mediasoup. rewrite zoom_unfold.
  unfold Mediasoup.createProducer.
  rewrite bind_unfold, get_state_run. cbv beta iota. rewrite Ht, He.
  exec_m. by rewrite state_eta.
Qed.

Lemma recording_attempt_silent c id kind w s : frames (log (recording_attempt c id kind w s)) = [].
Proof.
  unfold recording_attempt. destruct (decide (kind = "video")); [|done].
  apply startRecording_silent.
Qed.


(** X19. What a [produce] does to the clients, the streamers, the masters and
    the media registry, which frames it writes and whether it succeeds do
    not depend on the recorder: whether the recording of the new producer
    starts, fails at any step or throws, the producer is stored, the
    masters are told and the sender is answered in the same way.  A
    producer of a kind other than [video] does not touch the recorder. *)
Theorem recording_never_disturbs_produce clientId transportId kind w w' s :
  let r := onMessage clientId (Parsed (Produce transportId kind)) w s in
  let r' := onMessage clientId (Parsed (Produce transportId kind)) w' s in
  engine w' = engine w →
  same_but_recorder (state r) (state r') ∧
  frames (log r') = frames (log r) ∧
  completion r' = completion r ∧
  (kind ≠ "video" → r' = r ∧ recorder (state r) = recorder s).
Proof.
  intros r r' Hengine. subst r r'.
  destruct (clients s !! clientId) as [c|] eqn:Hc.
  2: { pose proof (produce_without_client clientId (socket_of clientId s) transportId kind)
         as Hrun.
       rewrite (onMessage_throw _ _ _ _ _ _ _ (Hrun w s Hc)).
       rewrite (onMessage_throw _ _ _ _ _ _ _ (Hrun w' s Hc)). by repeat split. }
  destruct (jm_get transportId (Mediasoup.transports (mediasoup s))) as [td|] eqn:Ht.
  2: { pose proof (produce_without_transport clientId (socket_of clientId s) transportId kind)
         as Hrun.
       rewrite (onMessage_throw _ _ _ _ _ _ _ (Hrun w s c Hc Ht)).
       rewrite (onMessage_throw _ _ _ _ _ _ _ (Hrun w' s c Hc Ht)). by repeat split. }
  destruct (Mediasoup.answer (engine w)) as [id|e] eqn:He.
  2: { assert (Mediasoup.answer (engine w') = Throw e) as He' by (by rewrite Hengine).
       rewrite (onMessage_throw _ _ _ _ _ _ _
                  (produce_rejected clientId _ transportId kind w s c td e Hc Ht He)).
       rewrite (onMessage_throw _ _ _ _ _ _ _
                  (produce_rejected clientId _ transportId kind w' s c td e Hc Ht He')).
       by repeat split. }
  assert (Mediasoup.answer (engine w') = Normal id) as He' by (by rewrite Hengine).
  pose proof (produce_run clientId (socket_of clientId s) transportId kind w s c td id
                Hc Ht He) as Hrun.
  pose proof (produce_run clientId (socket_of clientId s) transportId kind w' s c td id
                Hc Ht He') as Hrun'.
  cbv zeta in Hrun, Hrun'.
  rewrite (onMessage_normal _ _ _ _ _ _ Hrun), (onMessage_normal _ _ _ _ _ _ Hrun').
  cbn [state log completion].
  split; [by repeat split|]. split; [|split; [done|]].
  - by rewrite !frames_app, !recording_attempt_silent.
  - intros Hkind. unfold recording_attempt. by rewrite !decide_False by done.
Qed.

Lemma recording_never_disturbs_produce_witness :
  let quiet := Sample.world "p3" in
  let failing := {| engine := engine quiet; recorderEnv := Sample.env_resume_fails;
                    stopEnv := stopEnv quiet |} in
  frames (log (onMessage Sample.front (Parsed (Produce "t1" "video")) failing
                 Sample.streaming)) =
  frames (log (onMessage Sample.front (Parsed (Produce "t1" "video")) quiet
                 Sample.streaming)).
Proof.
  intros quiet failing.
  destruct (recording_never_disturbs_produce Sample.front "t1" "video" quiet failing
              Sample.streaming eq_refl) as (_ & Hframes & _).
  exact Hframes.
Defined.




End Produce.

(** ** Broadcasts, queries and what was created *)

Section DispatchProperties.
Import Websocket.






(** X23. What was created is found: once [create-transport] has stored the
    transport that the engine made, a [connect-transport] for its id is
    passed to the engine and answered [transport-connected]; once
    [consume] has stored the consumer that the engine made, a
    [resume-consumer] for its id is passed to the engine and answered
    [consumer-resumed].  The transport and the consumer belong to the
    client that asked, so [cleanupClient] for that client closes them. *)
Theorem created_is_found clientId w w' s id :
  Mediasoup.answer (engine w) = Normal id →
  (∃ done, Mediasoup.answer (engine w') = Normal done) →
  let ws := socket_of clientId s in
  (∀ direction,
     let made := state (onMessage clientId (Parsed (CreateTransport direction)) w s) in
     jm_get id (Mediasoup.transports (mediasoup made)) =
       Some {| Mediasoup.transport := id; Mediasoup.t_clientId := clientId |} ∧
     onMessage clientId (Parsed (ConnectTransport id)) w' made =
       mkOutcome made
         (TransportConnect id ::
          reply clientId (socket_of clientId made) "transport-connected"
            (PTransportConnected id))
         (Normal ()) ∧
     TransportClose id ∈ log (Mediasoup.cleanupClient clientId (mediasoup made))) ∧
  (∀ transportId transportData producerId producerData,
     jm_get transportId (Mediasoup.transports (mediasoup s)) = Some transportData →
     jm_get producerId (Mediasoup.producers (mediasoup s)) = Some producerData →
     Mediasoup.canConsume (engine w) = true →
     let made := state (onMessage clientId (Parsed (Consume transportId producerId)) w s) in
     jm_get id (Mediasoup.consumers (mediasoup made)) =
       Some {| Mediasoup.consumer := id; Mediasoup.c_clientId := clientId;
               Mediasoup.c_producerId := producerId |} ∧
     onMessage clientId (Parsed (ResumeConsumer id)) w' made =
       mkOutcome made
         (ConsumerResume id ::
          reply clientId (socket_of clientId made) "consumer-resumed"
            (PConsumerResumed id))
         (Normal ()) ∧
     ConsumerClose id ∈ log (Mediasoup.cleanupClient clientId (mediasoup made))).
Proof.
  intros He [done_ He'] ws. split.
  - intros direction made.
    assert (jm_get id (Mediasoup.transports (mediasoup made)) =
            Some {| Mediasoup.transport := id; Mediasoup.t_clientId := clientId |})
      as Hstored.
    { subst made. unfold onMessage, handleMessage, Mediasoup.createWebRtcTransport.
      exec_m. rewrite He. exec_m. rewrite send_log.
      destruct (jm_get clientId (streamers s)); cbn; apply jm_get_set_eq. }
    split; [done|]. split.
    + unfold onMessage, handleMessage, Mediasoup.connectTransport. exec_m.
      rewrite Hstored, He'. exec_m. rewrite send_log. by rewrite state_eta.
    + unfold Mediasoup.cleanupClient. cbn [log]. rewrite !close_owned_log.
      rewrite !elem_of_app. right. right. apply list_elem_of_fmap. exists id.
      split; [done|]. unfold owned_by, jm_keys. apply list_elem_of_fmap.
      eexists (id, _). split; [done|]. apply list_elem_of_filter.
      split; [|by apply jm_get_elem]. done.
  - intros transportId transportData producerId producerData Ht Hp Hcan made.
    assert (jm_get id (Mediasoup.consumers (mediasoup made)) =
            Some {| Mediasoup.consumer := id; Mediasoup.c_clientId := clientId;
                    Mediasoup.c_producerId := producerId |}) as Hstored.
    { subst made. unfold onMessage, handleMessage, Mediasoup.createConsumer.
      exec_m. rewrite Ht, Hp, Hcan, He. exec_m. rewrite send_log. cbn.
      apply jm_get_set_eq. }
    split; [done|]. split.
    + unfold onMessage, handleMessage, Mediasoup.resumeConsumer. exec_m.
      rewrite Hstored, He'. exec_m. rewrite send_log. by rewrite state_eta.
    + unfold Mediasoup.cleanupClient. cbn [log]. rewrite !close_owned_log.
      rewrite !elem_of_app. right. left. apply list_elem_of_fmap. exists id.
      split; [done|]. unfold owned_by, jm_keys. apply list_elem_of_fmap.
      eexists (id, _). split; [done|]. apply list_elem_of_filter.
      split; [|by apply jm_get_elem]. done.
Qed.

Lemma created_is_found_witness :
  let made := state (onMessage Sample.viewer (Parsed (Consume "t0" "p1")) (Sample.world "c1")
                       Sample.streaming) in
  onMessage Sample.viewer (Parsed (ResumeConsumer "c1")) (Sample.world "") made =
  mkOutcome made
    (ConsumerResume "c1" ::
     reply Sample.viewer (socket_of Sample.viewer made) "consumer-resumed"
       (PConsumerResumed "c1"))
    (Normal ()).
Proof.
  intros made.
  destruct (created_is_found Sample.viewer (Sample.world "c1") (Sample.world "")
              Sample.streaming "c1" eq_refl (ex_intro _ "" eq_refl)) as [_ Hconsumer].
  destruct (Hconsumer "t0"
              {| Mediasoup.transport := "t0"; Mediasoup.t_clientId := Sample.viewer |}
              "p1"
              {| Mediasoup.producer := "p1"; Mediasoup.p_clientId := Sample.front;
                 Mediasoup.p_deviceName := Some "Front Door";
                 Mediasoup.p_kind := "video" |})
    as (_ & Hresumed & _); [vm_compute; reflexivity | vm_compute; reflexivity | reflexivity |].
  exact Hresumed.
Defined.

End DispatchProperties.

Section RecorderFixed.
Import Recorder.

Global Instance same_encoder_preorder :
  PreOrder (λ r r' : State, ffmpegAvailable r' = ffmpegAvailable r).
Proof. split; [by intros r | intros r1 r2 r3; congruence]. Qed.

(** X24. Whether recording is enabled is settled when the server starts and
    never changes: in every state the server can reach [isRecordingEnabled]
    tells whether the encoder was found at startup.  [getActiveRecordings]
    returns one entry per session, in the order of the [recordings] map, no
    producer twice, each with the time since its start. *)
Theorem recording_enabled_is_fixed (ffmpegFound : bool) (events : list Websocket.Event)
    now :
  let s := Websocket.recorder (Websocket.run_from (Websocket.initial ffmpegFound) events) in
  isRecordingEnabled s = ffmpegFound ∧
  map active_producerId (getActiveRecordings now s) = jm_keys (recordings s) ∧
  NoDup (map active_producerId (getActiveRecordings now s)) ∧
  Forall2 (λ entry active,
             active_deviceName active = deviceName entry.2 ∧
             active_filepath active = filepath entry.2 ∧
             active_startTime active = startTime entry.2 ∧
             active_duration active = now - startTime entry.2)
          (recordings s) (getActiveRecordings now s).
Proof.
  intros s.
  assert (map active_producerId (getActiveRecordings now s) = jm_keys (recordings s))
    as Hkeys.
  { unfold getActiveRecordings, jm_keys.
    induction (recordings s) as [|[k rec] m IH]; [done|]. csimpl. by rewrite IH. }
  split; [|split; [done|split]].
  - unfold isRecordingEnabled.
    apply (run_keeps_recorder (λ r r' : State, ffmpegAvailable r' = ffmpegAvailable r)).
    + intros producerId deviceName env ms r.
      pose proof (startRecording_cases producerId deviceName env ms r) as Hcases.
      cbv zeta in Hcases.
      destruct Hcases as [[_ Hr]|[(e' & _ & _ & _ & Hr)|[(_ & _ & Hr)|
        [(? & ? & ? & _ & _ & _ & _ & Hr & _)|(pd & _ & _ & _ & Hr)]]]];
        by rewrite Hr.
    + intros producerId env r.
      destruct (stopRecording_run producerId env r) as (l & result & -> & _). done.
  - rewrite Hkeys. apply reachable_one_session_each.
  - clear Hkeys. unfold getActiveRecordings.
    induction (recordings s) as [|[k rec] m IH]; [constructor|].
    cbn [map]. constructor; [by cbn | exact IH].
Qed.

End RecorderFixed.

Section StopStreamingByAnyone.
Import Websocket.



End StopStreamingByAnyone.

Section ReachableSamples.
Import Websocket.

Lemma stopAllRecordings_stops_all_witness :
  let r := Recorder.stopAllRecordings (stopEnv (Sample.world ""))
             (recorder (run_from (initial true) Sample.events)) in
  length (log r) = 4%nat ∧ Recorder.recordings (state r) = [].
Proof.
  intros r.
  destruct (stopAllRecordings_stops_all true Sample.events (stopEnv (Sample.world "")) 0)
    as (_ & Hlog & Hempty & _).
  split; [|exact Hempty].
  subst r. rewrite Hlog. vm_compute. reflexivity.
Defined.

Lemma cleanupClient_closes_own_witness :
  let r := Mediasoup.cleanupClient Sample.front
             (mediasoup (run_from (initial true) Sample.events)) in
  log r = [ProducerClose "p1"; TransportClose "t1"] ∧
  map fst (Mediasoup.producers (state r)) = ["p2"].
Proof.
  intros r.
  destruct (cleanupClient_closes_own true Sample.events Sample.front)
    as (Hlog & Hproducers & _).
  subst r. rewrite Hlog, Hproducers. vm_compute. split; reflexivity.
Defined.

Lemma only_connected_clients_are_listed_witness :
  Sample.front ∈ map entry_clientId (streamerList (run_from (initial true) Sample.events)).
Proof.
  destruct (only_connected_clients_are_listed true Sample.events) as (_ & _ & _ & _ & Hlisted).
  apply (Hlisted Sample.front Sample.front_client); vm_compute; reflexivity.
Defined.

Lemma recording_enabled_is_fixed_witness :
  let s := recorder (run_from (initial true) Sample.events) in
  Recorder.isRecordingEnabled s = true ∧
  map Recorder.active_producerId (Recorder.getActiveRecordings 1704164705678 s) =
    ["p1"; "p2"].
Proof.
  intros s.
  destruct (recording_enabled_is_fixed true Sample.events 1704164705678)
    as (Henabled & Hkeys & _).
  split; [exact Henabled|]. subst s. rewrite Hkeys. vm_compute. reflexivity.
Defined.

End ReachableSamples.
